(** * cloudflared tunnel subcommands: a shallow embedding

    Source: [cmd/cloudflared/tunnel/subcommands.go].

    The first part holds the definitions: the validators and the route
    builders, the credential writer, the [list] and [info] commands with
    their sort closures, the connection summary and the table of
    connectors, the commands that act on tunnels ([create], [delete],
    [run], [cleanup], [route]), and the path of the credentials file.
    The second part holds the properties.

    The Go libraries the file calls are given small executable models
    where what they do is plain (packages [fmt], [strings], [regexp] for
    the two patterns, [idna] for the profile of [validateHostname] on
    ASCII text, [cli], [os], [uuid] for [String], [errors],
    [path/filepath] and [homedir] for Unix paths), and are taken as
    parameters where it is not (what [idna] reads from the Unicode
    tables, [json.Marshal], [uuid.Parse], the formats of package [time],
    the home directory, the configuration file, the remote calls of the
    subcommand context, and the algorithm that [sort.Slice] runs). *)

From Stdlib Require Import ZArith NArith Ascii DecimalString.
From Stdlib Require String.
From stdpp Require Import base gmap strings list sorting.

Local Open Scope Z_scope.

(** ** Go values shared by all commands *)

(** [error]: the error values this file creates or passes on. *)
Inductive Errno : Type := ENOENT | EACCES | EEXIST | EIO | ENOSPC.

Inductive error : Type :=
| usageError (msg : string)               (* cliutil.UsageError *)
| errorString (msg : string)              (* fmt.Errorf, errors.Errorf *)
| withMessage (cause : error) (msg : string) (* errors.Wrap, errors.Wrapf *)
| PathError (op path : string) (errno : Errno) (* package os *)
| libraryError (pkg msg : string).        (* json, uuid, idna, remote API *)

(** A Go result pair [(v, err)] with exactly one side set. *)
Inductive result (A : Type) : Type :=
| Ok (v : A)
| Err (e : error).
Arguments Ok {A} v.
Arguments Err {A} e.

(** [Error()] of an error value. *)
Fixpoint Error (e : error) : string :=
  match e with
  | usageError msg => msg
  | errorString msg => msg
  | withMessage cause msg => msg +:+ ": " +:+ Error cause
  | PathError op path errno =>
      op +:+ " " +:+ path +:+ ": " +:+
      match errno with
      | ENOENT => "no such file or directory"
      | EACCES => "permission denied"
      | EEXIST => "file exists"
      | EIO => "input/output error"
      | ENOSPC => "no space left on device"
      end
  | libraryError pkg msg => pkg +:+ ": " +:+ msg
  end.

(** ** Package fmt: the verbs this file uses *)
Module fmt.

Inductive arg : Type :=
| Int (z : Z)          (* an int or uint operand *)
| Str (s : string).    (* a string operand, or a Stringer already rendered *)

Definition itoa (z : Z) : string := NilZero.string_of_int (Z.to_int z).

Definition render (a : arg) : string :=
  match a with
  | Int z => itoa z
  | Str s => s
  end.

Definition is_verb (c : ascii) : bool :=
  (Ascii.eqb c "d" || Ascii.eqb c "s" || Ascii.eqb c "v")%bool.

(** [Sprintf] for formats made of literal text and the verbs [%d], [%s]
    and [%v], each applied to an operand of the fitting type. *)
Fixpoint Sprintf (format : string) (args : list arg) : string :=
  match format with
  | EmptyString => EmptyString
  | String c rest =>
      match rest with
      | String v rest' =>
          if (Ascii.eqb c "%" && is_verb v)%bool then
            match args with
            | a :: args' => render a +:+ Sprintf rest' args'
            | [] => "%!" +:+ String v ("(MISSING)" +:+ Sprintf rest' [])
            end
          else String c (Sprintf rest args)
      | EmptyString => String c EmptyString
      end
  end.

End fmt.

(** ** Package strings *)
Module strings.

Fixpoint Join (elems : list string) (sep : string) : string :=
  match elems with
  | [] => ""
  | [s] => s
  | s :: rest => s +:+ sep +:+ Join rest sep
  end.

(** [strings.IndexByte(s, c)]; [None] is -1. *)
Fixpoint IndexByte (s : string) (c : ascii) : option nat :=
  match s with
  | EmptyString => None
  | String x rest => if Ascii.eqb x c then Some 0%nat else S <$> IndexByte rest c
  end.

(** [strings.LastIndex(s, substr)] for a [substr] of one byte; [None] is -1. *)
Fixpoint LastIndexByte (s : string) (c : ascii) : option nat :=
  match s with
  | EmptyString => None
  | String x rest =>
      match LastIndexByte rest c with
      | Some n => Some (S n)
      | None => if Ascii.eqb x c then Some 0%nat else None
      end
  end.

(** [strings.Split(s, sep)] for a [sep] of one byte. *)
Fixpoint Split (s : string) (sep : ascii) : list string :=
  match s with
  | EmptyString => [""]
  | String x rest =>
      if Ascii.eqb x sep then "" :: Split rest sep
      else match Split rest sep with
           | [] => [String x ""]
           | first :: others => String x first :: others
           end
  end.

Definition HasPrefix (s prefix : string) : bool := String.prefix prefix s.

End strings.

(** ** Package regexp: the fragment the two patterns are written in

    A pattern is an optional [^], a sequence of items and an optional
    [$].  An item is a bracket class or a literal character, optionally
    followed by [*].  Inside a class a character stands for itself, and
    [a-z] is a range; a leading [-] is literal.  All class members of the
    two patterns are ASCII, so matching bytes and matching runes agree:
    no byte of a multi-byte rune lies in an ASCII range. *)
Module regexp.

Definition charClass : Type := list (ascii * ascii).

Inductive inst : Type :=
| One (cs : charClass)      (* exactly one character of the class *)
| Star (cs : charClass).    (* zero or more characters of the class *)

Record Regexp : Type := mkRegexp {
  beginText : bool;         (* the pattern starts with ^ *)
  prog : list inst;
  endText : bool            (* the pattern ends with $ *)
}.

Definition special (c : ascii) : bool :=
  existsb (Ascii.eqb c)
    ["\"; "."; "+"; "*"; "?"; "("; ")"; "|"; "["; "]"; "{"; "}"; "^"; "$"]%char.

(** The members of a bracket class, up to the closing bracket. *)
Fixpoint parseClass (s : string) (acc : charClass) : option (charClass * string) :=
  match s with
  | EmptyString => None
  | String c tl =>
      if Ascii.eqb c "]" then
        match acc with [] => None | _ => Some (rev acc, tl) end
      else if (Ascii.eqb c "\" || Ascii.eqb c "[")%bool then None
      else if (Ascii.eqb c "^" && bool_decide (acc = []))%bool then None
      else
        match tl with
        | String dash (String hi tl') =>
            if (Ascii.eqb dash "-" && negb (Ascii.eqb hi "]"))%bool then
              if Ascii.leb c hi then parseClass tl' ((c, hi) :: acc) else None
            else parseClass tl ((c, c) :: acc)
        | _ => parseClass tl ((c, c) :: acc)
        end
  end.

Definition starred (cs : charClass) (s : string) : inst * string :=
  match s with
  | String c tl => if Ascii.eqb c "*" then (Star cs, tl) else (One cs, s)
  | EmptyString => (One cs, s)
  end.

(** Items up to the end of the pattern; the flag tells whether the
    pattern ended with [$]. *)
Fixpoint parseItems (fuel : nat) (s : string) : option (list inst * bool) :=
  match fuel with
  | O => None
  | S fuel' =>
      match s with
      | EmptyString => Some ([], false)
      | String c tl =>
          if (Ascii.eqb c "$" && bool_decide (tl = EmptyString))%bool then Some ([], true)
          else if Ascii.eqb c "[" then
            '(cs, rest) ← parseClass tl [];
            let '(i, rest') := starred cs rest in
            '(items, e) ← parseItems fuel' rest';
            Some (i :: items, e)
          else if special c then None
          else
            let '(i, rest') := starred [(c, c)] tl in
            '(items, e) ← parseItems fuel' rest';
            Some (i :: items, e)
      end
  end.

Definition Compile (expr : string) : option Regexp :=
  let '(b, body) :=
    match expr with
    | String c tl => if Ascii.eqb c "^" then (true, tl) else (false, expr)
    | EmptyString => (false, expr)
    end in
  '(items, e) ← parseItems (S (String.length body)) body;
  Some (mkRegexp b items e).

(** [MustCompile] panics on a pattern that does not compile; the panic
    is modelled by a pattern that matches nothing. *)
Definition MustCompile (expr : string) : Regexp :=
  default (mkRegexp true [One []] true) (Compile expr).

Definition inClass (cs : charClass) (c : ascii) : bool :=
  existsb (fun r => (Ascii.leb (fst r) c && Ascii.leb c (snd r))%bool) cs.

(** Does [s] match the items from its first character on? *)
Fixpoint matchHere (items : list inst) (e : bool) : string → bool :=
  match items with
  | [] => fun s => if e then bool_decide (s = EmptyString) else true
  | One cs :: items' => fun s =>
      match s with
      | String c tl => (inClass cs c && matchHere items' e tl)%bool
      | EmptyString => false
      end
  | Star cs :: items' =>
      fix star (s : string) : bool :=
        (matchHere items' e s ||
         match s with
         | String c tl => (inClass cs c && star tl)%bool
         | EmptyString => false
         end)%bool
  end.

Fixpoint matchAnywhere (items : list inst) (e : bool) (s : string) : bool :=
  (matchHere items e s ||
   match s with
   | String _ tl => matchAnywhere items e tl
   | EmptyString => false
   end)%bool.

Definition MatchString (re : Regexp) (s : string) : bool :=
  if beginText re then matchHere (prog re) (endText re) s
  else matchAnywhere (prog re) (endText re) s.

End regexp.

(** ** Package idna (golang.org/x/net/idna): the profile of [validateHostname]

    [idna.New(idna.ValidateLabels(true), idna.VerifyDNSLength(true))] and
    its [ToASCII], after idna10.0.0.go and punycode.go.  The label
    iterator, the checks on hyphens and on lengths and the Punycode
    decoder are given in full.  What the package reads from the Unicode
    tables, from the normalization and from UTF-8 is a parameter
    ([unicode]), consulted only on text that is not ASCII and on a label
    that was decoded from Punycode: on a name made of ASCII labels none
    of which starts with "xn--", [ToASCII] is computed in full.

    Left out: [ToUnicode] and the options this program does not pass,
    with the fields only they set ([removeLeadingDots], [bidirule],
    [transitional], [useSTD3Rules]); with [bidirule] nil the Bidi rule
    is not run and [isBidi] is not read.  An error of the package is
    told by the code of the rule it reports (A3, A4, V2, V3); its text,
    which quotes the label, is not modelled: the program tests the error
    against nil only. *)
Module idna.

(** [&labelError{label, code}] *)
Definition labelError (label code : string) : error := libraryError "idna" code.

Definition acePrefix : string := "xn--".

(** [s[n:]] and [s[:n]] *)
Definition from (n : nat) (s : string) : string :=
  String.substring n (String.length s - n) s.
Definition upto (n : nat) (s : string) : string := String.substring 0 n s.

Definition byteAt (s : string) (n : nat) : ascii := default "000"%char (String.get n s).

(** [ascii(s)]: no byte of [s] is [utf8.RuneSelf] or more. *)
Fixpoint ascii (s : string) : bool :=
  match s with
  | EmptyString => true
  | String x rest => (N_of_ascii x <? 128)%N && ascii rest
  end.

(** What the package reads from the Unicode tables, from the
    normalization and from UTF-8; all of it is consulted on text that is
    not ASCII or on a label that was decoded from Punycode. *)
Record unicode : Type := mkUnicode {
  NFC_String : string → string;              (* norm.NFC.String(s) *)
  runes : string → list Z;                   (* the runes of [range s] *)
  string_of_runes : list Z → string;         (* string(output), of a []rune *)
  validateFromPunycode : string → option error;
  validateJoiners : string → option error;   (* validateLabel from the trie lookup on:
                                                V5 and the rules on joiners *)
  encode : string → string * option error    (* encode(acePrefix, s) *)
}.

(** *** punycode.go *)

Definition base : Z := 36.
Definition damp : Z := 700.
Definition initialBias : Z := 72.
Definition initialN : Z := 128.
Definition skew : Z := 38.
Definition tmax : Z := 26.
Definition tmin : Z := 1.

Definition MaxInt32 : Z := 2 ^ 31 - 1.
Definition MaxRune : Z := 1114111.   (* utf8.MaxRune, U+10FFFF *)

(** An [int32] sum, wrapped around. *)
Definition int32 (z : Z) : Z := (z + 2 ^ 31) mod 2 ^ 32 - 2 ^ 31.

Definition punyError (s : string) : error := labelError s "A3".

Definition decodeDigit (x : Ascii.ascii) : option Z :=
  let x := Z.of_N (N_of_ascii x) in
  if (48 <=? x) && (x <=? 57) then Some (x - (48 - 26))
  else if (65 <=? x) && (x <=? 90) then Some (x - 65)
  else if (97 <=? x) && (x <=? 122) then Some (x - 97)
  else None.

(** [madd] computes [a + b * c]; [None] is an overflow. *)
Definition madd (a b c : Z) : option Z :=
  let p := b * c in
  if MaxInt32 - a <? p then None else Some (a + p).

(** [for delta > ((base-tmin)*tmax)/2 { delta /= base - tmin; k += base }] *)
Fixpoint adapt_loop (fuel : nat) (delta k : Z) : Z * Z :=
  if (base - tmin) * tmax ÷ 2 <? delta then
    match fuel with
    | O => (delta, k)
    | S fuel => adapt_loop fuel (delta ÷ (base - tmin)) (k + base)
    end
  else (delta, k).

Definition adapt (delta numPoints : Z) (firstTime : bool) : Z :=
  let delta := if firstTime then delta ÷ damp else delta ÷ 2 in
  let delta := delta + delta ÷ numPoints in
  let '(delta, k) := adapt_loop (Z.to_nat (Z.log2 delta)) delta 0 in
  k + (base - tmin + 1) * delta ÷ (delta + skew).

(** The two nested loops of [decode], one turn per digit of the input
    that follows the last hyphen; [fresh] says that the turn starts a
    new delta (the outer loop tests [pos < len(encoded)] there), and
    [None] is [punyError(encoded)]. *)
Fixpoint decode_loop (rest : list Ascii.ascii) (fresh : bool)
    (i oldI w k bias n : Z) (output : list Z) : option (list Z) :=
  match rest with
  | [] => if fresh then Some output else None
  | x :: rest =>
      match decodeDigit x with
      | None => None
      | Some digit =>
          match madd i digit w with
          | None => None
          | Some i =>
              let t := if k <=? bias then tmin
                       else if bias + tmax <=? k then tmax
                       else k - bias in
              if digit <? t then
                if (1024 <=? length output)%nat then None
                else
                  let x := Z.of_nat (length output) + 1 in
                  let bias := adapt (i - oldI) x (oldI =? 0) in
                  let n := int32 (n + i ÷ x) in
                  let i := Z.rem i x in
                  if (n <? 0) || (MaxRune <? n) then None
                  else
                    let output := take (Z.to_nat i) output ++ n :: drop (Z.to_nat i) output in
                    decode_loop rest true (i + 1) (i + 1) 1 base bias n output
              else
                match madd 0 w (base - t) with
                | None => None
                | Some w => decode_loop rest false i oldI w (k + base) bias n output
                end
          end
      end
  end.

Section Profile.

Variable U : unicode.

(** The runes of an ASCII string. *)
Definition bytes (s : string) : list Z :=
  (fun x => Z.of_N (N_of_ascii x)) <$> String.list_ascii_of_string s.

Definition decode (encoded : string) : result string :=
  if String.eqb encoded "" then Ok ""
  else
    let pos := match strings.LastIndexByte encoded "-" with
               | Some n => S n
               | None => 0%nat
               end in
    if (pos =? 1)%nat then Err (punyError encoded)
    else if (pos =? String.length encoded)%nat then
      Ok (upto (String.length encoded - 1) encoded)
    else
      let output :=
        if negb (pos =? 0)%nat then
          let basic := upto (pos - 1) encoded in
          if ascii basic then bytes basic else runes U basic
        else [] in
      match decode_loop (String.list_ascii_of_string (from pos encoded)) true
              0 0 1 base initialBias initialN output with
      | None => Err (punyError encoded)
      | Some output => Ok (string_of_runes U output)
      end.

(** *** idna10.0.0.go *)

(** The one mapping that the options below set. *)
Inductive mappingFunc : Type := normalize_.

(** [options], which a [Profile] embeds. *)
Record Profile : Type := mkProfile {
  mapping : option mappingFunc;
  fromPuny : bool;          (* validateFromPunycode, or nil *)
  checkJoiners : bool;
  checkHyphens : bool;
  verifyDNSLength : bool
}.

Definition Option : Type := Profile → Profile.

Definition VerifyDNSLength (verify : bool) : Option := fun o =>
  mkProfile (mapping o) (fromPuny o) (checkJoiners o) (checkHyphens o) verify.

Definition ValidateLabels (enable : bool) : Option := fun o =>
  mkProfile
    (match mapping o with
     | None => if enable then Some normalize_ else None
     | Some m => Some m
     end)
    enable enable enable (verifyDNSLength o).

Definition New (o : list Option) : Profile :=
  fold_left (fun p f => f p) o (mkProfile None false false false false).

(** [normalize]: the string in NFC, which an ASCII string is. *)
Definition normalize (s : string) : string * option error :=
  (if ascii s then s else NFC_String U s, None).

(** [labelIter] and its methods; [label] sets [curEnd]. *)
Record labelIter : Type := mkLabelIter {
  orig : string;
  slice : option (list string);
  curStart : nat;
  curEnd : nat;
  i : nat
}.

Definition reset (l : labelIter) : labelIter := mkLabelIter (orig l) (slice l) 0 0 0.

Definition done (l : labelIter) : bool := (String.length (orig l) <=? curStart l)%nat.

Definition result_ (l : labelIter) : string :=
  match slice l with
  | Some sl => strings.Join sl "."
  | None => orig l
  end.

Definition label (l : labelIter) : string * labelIter :=
  match slice l with
  | Some sl => (default "" (sl !! i l), l)
  | None =>
      let curEnd :=
        match strings.IndexByte (from (curStart l) (orig l)) "." with
        | Some p => (curStart l + p)%nat
        | None => String.length (orig l)
        end in
      (String.substring (curStart l) (curEnd - curStart l) (orig l),
       mkLabelIter (orig l) None (curStart l) curEnd (i l))
  end.

Definition next (l : labelIter) : labelIter :=
  let i := S (i l) in
  match slice l with
  | Some sl =>
      if ((length sl <=? i)%nat
          || ((i =? length sl - 1)%nat && String.eqb (default "" (sl !! i)) ""))%bool
      then mkLabelIter (orig l) (slice l) (String.length (orig l)) (curEnd l) i
      else mkLabelIter (orig l) (slice l) (curStart l) (curEnd l) i
  | None =>
      let curStart := S (curEnd l) in
      if ((curStart =? String.length (orig l) - 1)%nat
          && Ascii.eqb (byteAt (orig l) curStart) ".")%bool
      then mkLabelIter (orig l) None (String.length (orig l)) (curEnd l) i
      else mkLabelIter (orig l) None curStart (curEnd l) i
  end.

Definition set (l : labelIter) (s : string) : labelIter :=
  let sl := match slice l with
            | Some sl => sl
            | None => strings.Split (orig l) "."
            end in
  mkLabelIter (orig l) (Some (<[i l := s]> sl)) (curStart l) (curEnd l) (i l).

Section process.

Variable p : Profile.

Definition validateLabel (s : string) : option error :=
  if String.eqb s "" then
    if verifyDNSLength p then Some (labelError s "A4") else None
  else if (checkHyphens p && (4 <? String.length s)%nat
           && Ascii.eqb (byteAt s 2) "-" && Ascii.eqb (byteAt s 3) "-")%bool then
    Some (labelError s "V2")
  else if (checkHyphens p
           && (Ascii.eqb (byteAt s 0) "-"
               || Ascii.eqb (byteAt s (String.length s - 1)) "-"))%bool then
    Some (labelError s "V3")
  else if negb (checkJoiners p) then None
  else if ascii s then None   (* no ASCII rune is a modifier or a joiner *)
  else validateJoiners U s.

(** [for ; !labels.done(); labels.next() { body }]; the fuel that
    [process] gives is enough ([process_loops_end] below). *)
Fixpoint each (body : labelIter → option error → labelIter * option error)
    (fuel : nat) (labels : labelIter) (err : option error) : labelIter * option error :=
  if done labels then (labels, err)
  else
    match fuel with
    | O => (labels, err)
    | S fuel =>
        let '(labels, err) := body labels err in
        each body fuel (next labels) err
    end.

(** [if err == nil { err = err2 }] *)
Definition orElse (err : option error) (err2 : option error) : option error :=
  match err with
  | None => err2
  | Some _ => err
  end.

(** The body of the first loop of [process]; [s] is the mapped input. *)
Definition validate (s : string) (labels : labelIter) (err : option error)
  : labelIter * option error :=
  let '(label, labels) := label labels in
  if String.eqb label "" then
    (labels, if verifyDNSLength p then orElse err (Some (labelError s "A4")) else err)
  else if strings.HasPrefix label acePrefix then
    match decode (from (String.length acePrefix) label) with
    | Err err2 => (labels, orElse err (Some err2))
    | Ok u =>
        let labels := set labels u in
        let err := if fromPuny p then orElse err (validateFromPunycode U u) else err in
        (labels, orElse err (validateLabel u))
    end
  else (labels, orElse err (validateLabel label)).

(** The body of the loop under [if toASCII]. *)
Definition toASCII_label (labels : labelIter) (err : option error)
  : labelIter * option error :=
  let '(label, labels) := label labels in
  let '(label, labels, err) :=
    if negb (ascii label) then
      let '(a, err2) := encode U label in
      (a, set labels a, orElse err err2)
    else (label, labels, err) in
  let n := String.length label in
  (labels,
   if (verifyDNSLength p && bool_decide (err = None)
       && ((n =? 0)%nat || (63 <? n)%nat))%bool
   then Some (labelError label "A4") else err).

Definition process (s : string) (toASCII : bool) : string * option error :=
  let '(s, err) :=
    match mapping p with
    | Some normalize_ => normalize s
    | None => (s, None)
    end in
  let err :=
    if (bool_decide (err = None) && verifyDNSLength p && String.eqb s "")%bool
    then Some (labelError s "A4") else err in
  let labels := mkLabelIter s None 0 0 0 in
  let '(labels, err) := each (validate s) (S (String.length s)) labels err in
  let '(labels, err) :=
    if toASCII then each toASCII_label (S (String.length s)) (reset labels) err
    else (labels, err) in
  let s := result_ labels in
  let err :=
    if (toASCII && verifyDNSLength p && bool_decide (err = None))%bool then
      let n := String.length s in
      let n := if ((0 <? n)%nat && Ascii.eqb (byteAt s (n - 1)) ".")%bool
               then (n - 1)%nat else n in
      if ((String.length s <? 1)%nat || (253 <? n)%nat)%bool
      then Some (labelError s "A4") else err
    else err in
  (s, err).

Definition ToASCII (s : string) : string * option error := process s true.

End process.
End Profile.
End idna.

(** ** Validators (subcommands.go, lines 727-745) *)

Definition nameRegex : regexp.Regexp :=
  regexp.MustCompile "^[_a-zA-Z0-9][-_.a-zA-Z0-9]*$".
Definition hostNameRegex : regexp.Regexp :=
  regexp.MustCompile "^[*_a-zA-Z0-9][-_.a-zA-Z0-9]*$".

Definition validateName (s : string) (allowWildcardSubdomain : bool) : bool :=
  if allowWildcardSubdomain then regexp.MatchString hostNameRegex s
  else regexp.MatchString nameRegex s.

(** ** Package time *)
Module time.

(** A [time.Time], as seconds and nanoseconds since the Unix epoch. *)
Record Time : Type := mkTime { sec : Z; nsec : Z }.

(** [t.Unix()] *)
Definition Unix (t : Time) : Z := sec t.

End time.

(** ** Package cli (urfave/cli v2): the parsed command line

    A context holds the value of every flag that is defined for the
    command, under its name and under each alias, and the positional
    arguments.  A typed accessor returns the zero value of its type for a
    name that is not defined. *)
Module cli.

Inductive flagValue : Type :=
| BoolValue (b : bool)
| StringValue (s : string)
| TimestampValue (t : option time.Time).

Record Context : Type := mkContext {
  flagSet : gmap string flagValue;
  args : list string
}.

Definition Bool (c : Context) (name : string) : bool :=
  match flagSet c !! name with
  | Some (BoolValue b) => b
  | _ => false
  end.

(** [c.String(name)] *)
Definition String_ (c : Context) (name : string) : string :=
  match flagSet c !! name with
  | Some (StringValue s) => s
  | _ => ""
  end.

Definition Timestamp (c : Context) (name : string) : option time.Time :=
  match flagSet c !! name with
  | Some (TimestampValue t) => t
  | _ => None
  end.

Definition NArg (c : Context) : nat := length (args c).

(** [c.Args().Get(n)]: the empty string when there is no such argument. *)
Definition Args_Get (c : Context) (n : nat) : string := default "" (args c !! n).

Definition Args_First (c : Context) : string := Args_Get c 0.

End cli.

(** Modelled from the spec: [cliutil.UsageError] is not part of the file;
    per the spec's error taxonomy it yields an error of the UsageError
    class whose message is the format applied to its operands. *)
Definition UsageError (format : string) (operands : list fmt.arg) : error :=
  usageError (fmt.Sprintf format operands).

(** [errors.Errorf] and [fmt.Errorf]. *)
Definition Errorf (format : string) (operands : list fmt.arg) : error :=
  errorString (fmt.Sprintf format operands).

(** Modelled from the spec: [tunnelstore.Route] and its constructors
    [NewDNSRoute] and [NewLBRoute] are not part of the file; the spec
    gives the type as a closed variant with the two shapes
    [DNSRoute{Hostname, OverwriteExisting}] and [LBRoute{Hostname, PoolName}]. *)
Inductive Route : Type :=
| DNSRoute (Hostname : string) (OverwriteExisting : bool)
| LBRoute (Hostname PoolName : string).

Definition NewDNSRoute (userHostname : string) (overwriteExisting : bool) : Route :=
  DNSRoute userHostname overwriteExisting.
Definition NewLBRoute (lbName lbPool : string) : Route := LBRoute lbName lbPool.

Section RouteBuilder.

(** [idna.New(idna.ValidateLabels(true), idna.VerifyDNSLength(true)).ToASCII]:
    the normalized string and the error, [None] for [nil];
    [idna.ToASCII] above is the library's. *)
Variable idnaProfile_ToASCII : string → string * option error.

(** subcommands.go, lines 737-745 *)
Definition validateHostname (s : string) (allowWildcardSubdomain : bool) : bool :=
  let '(puny, err) := idnaProfile_ToASCII s in
  (bool_decide (err = None) && validateName puny allowWildcardSubdomain)%bool.

(** subcommands.go, lines 684-699 *)
Definition dnsRouteFromArg (c : cli.Context) (overwriteExisting : bool) : result Route :=
  let userHostnameIndex := 2%nat in
  let expectedNArgs := 3%nat in
  if negb (cli.NArg c =? expectedNArgs)%nat then
    Err (UsageError "Expected %d arguments, got %d"
           [fmt.Int (Z.of_nat expectedNArgs); fmt.Int (Z.of_nat (cli.NArg c))])
  else
    let userHostname := cli.Args_Get c userHostnameIndex in
    if String.eqb userHostname "" then
      Err (UsageError "The third argument should be the hostname" [])
    else if negb (validateHostname userHostname true) then
      Err (Errorf "%s is not a valid hostname" [fmt.Str userHostname])
    else Ok (NewDNSRoute userHostname overwriteExisting).

(** subcommands.go, lines 701-725 *)
Definition lbRouteFromArg (c : cli.Context) : result Route :=
  let lbNameIndex := 2%nat in
  let lbPoolIndex := 3%nat in
  let expectedNArgs := 4%nat in
  if negb (cli.NArg c =? expectedNArgs)%nat then
    Err (UsageError "Expected %d arguments, got %d"
           [fmt.Int (Z.of_nat expectedNArgs); fmt.Int (Z.of_nat (cli.NArg c))])
  else
    let lbName := cli.Args_Get c lbNameIndex in
    if String.eqb lbName "" then
      Err (UsageError "The third argument should be the load balancer name" [])
    else if negb (validateHostname lbName true) then
      Err (Errorf "%s is not a valid load balancer name" [fmt.Str lbName])
    else
      let lbPool := cli.Args_Get c lbPoolIndex in
      if String.eqb lbPool "" then
        Err (UsageError "The fourth argument should be the pool name" [])
      else if negb (validateName lbPool false) then
        Err (Errorf "%s is not a valid pool name" [fmt.Str lbPool])
      else Ok (NewLBRoute lbName lbPool).

End RouteBuilder.

(** ** Package os: files as the credential writer sees them

    A file system is a finite map from paths to files, the process's
    umask, and the paths on which a system call fails (a directory on the
    way that is missing or cannot be searched, a failing device) with the
    errno it fails with. *)
Module os.

Record file : Type := mkFile {
  data : string;
  mode : Z            (* the nine permission bits *)
}.

Record FS : Type := mkFS {
  files : gmap string file;
  umask : Z;
  faults : gmap string Errno
}.

(** [os.Stat(name)]: only the error is used by this program. *)
Definition Stat (name : string) (fs : FS) : result file :=
  match faults fs !! name with
  | Some e => Err (PathError "stat" name e)
  | None =>
      match files fs !! name with
      | Some f => Ok f
      | None => Err (PathError "stat" name ENOENT)
      end
  end.

(** [os.IsNotExist(err)]; [None] is the nil error. *)
Definition IsNotExist (err : option error) : bool :=
  match err with
  | Some (PathError _ _ ENOENT) => true
  | _ => false
  end.

Definition ModePerm : Z := 511.   (* 0777 *)

(** [ioutil.WriteFile(name, data, perm)]: open with
    O_WRONLY|O_CREATE|O_TRUNC and write.  A new file gets the
    permission bits of [perm] that the umask leaves; an existing file
    is truncated and keeps its mode.  The one failure given here is that
    of the open, on a path where system calls fail; a write or a close
    that fails after the file was created is not modelled. *)
Definition WriteFile (name : string) (body : string) (perm : Z) (fs : FS)
  : FS * option error :=
  match faults fs !! name with
  | Some e => (fs, Some (PathError "open" name e))
  | None =>
      let f :=
        match files fs !! name with
        | Some old => mkFile body (mode old)
        | None => mkFile body (Z.land (Z.land perm ModePerm) (Z.lnot (umask fs)))
        end in
      (mkFS (<[name := f]> (files fs)) (umask fs) (faults fs), None)
  end.

End os.

(** The error of a result pair. *)
Definition err_of {A} (r : result A) : option error :=
  match r with
  | Ok _ => None
  | Err e => Some e
  end.

Section CredentialWriter.

(** [connection.Credentials] and [json.Marshal] on it. *)
Variable Credentials : Type.
Variable json_Marshal : Credentials → result string.

(** subcommands.go, lines 193-207: saves [credentials] as JSON into
    [filePath], only if the file does not exist already. *)
Definition writeTunnelCredentials (filePath : string) (credentials : Credentials)
    (fs : os.FS) : os.FS * option error :=
  let err := err_of (os.Stat filePath fs) in
  if negb (os.IsNotExist err) then
    match err with
    | None => (fs, Some (Errorf "%s already exists" [fmt.Str filePath]))
    | Some e => (fs, Some e)
    end
  else
    match json_Marshal credentials with
    | Err e => (fs, Some (withMessage e "Unable to marshal tunnel credentials to JSON"))
    | Ok body => os.WriteFile filePath body 400 fs
    end.

End CredentialWriter.

(** ** Package uuid *)
Module uuid.

(** A UUID is sixteen bytes, kept here as the number they spell. *)
Definition UUID : Type := N.

Definition hexDigit (n : N) : ascii :=
  match String.get (N.to_nat (n mod 16)) "0123456789abcdef" with
  | Some c => c
  | None => "0"%char
  end.

(** The [digits] low hexadecimal digits of [n], most significant first. *)
Fixpoint hex (digits : nat) (n : N) : string :=
  match digits with
  | O => ""
  | S d => hex d (n / 16) +:+ String (hexDigit n) ""
  end.

(** [u.String()]: xxxxxxxx-xxxx-xxxx-xxxx-xxxxxxxxxxxx *)
Definition String_ (u : UUID) : string :=
  hex 8 (N.shiftr u 96) +:+ "-" +:+ hex 4 (N.shiftr u 80) +:+ "-" +:+
  hex 4 (N.shiftr u 64) +:+ "-" +:+ hex 4 (N.shiftr u 48) +:+ "-" +:+ hex 12 u.

End uuid.

(** ** Package tunnelstore: the records the commands work on

    Modelled from the spec: the package is not part of the file.  The
    spec's data model gives [Tunnel], [Connection], the connector record
    and the [Filter] accumulator with its four setters; a later call of a
    setter replaces the value of an earlier one. *)
Module tunnelstore.

Record Connection : Type := mkConnection {
  ColoName : string;
  OriginIP : string;
  IsPendingReconnect : bool
}.

Record Tunnel : Type := mkTunnel {
  ID : uuid.UUID;
  Name : string;
  CreatedAt : time.Time;
  DeletedAt : time.Time;    (* the zero time when the tunnel is not deleted *)
  Connections : list Connection
}.

Module ActiveClient.
Record t : Type := mk {
  ID : uuid.UUID;
  Version : string;
  Arch : string;
  RunAt : time.Time;
  Connections : list Connection
}.
End ActiveClient.

Record Filter : Type := mkFilter {
  noDeleted : bool;
  byName : option string;
  byExistedAt : option time.Time;
  byTunnelID : option uuid.UUID
}.

Definition NewFilter : Filter := mkFilter false None None None.
Definition NoDeleted (f : Filter) : Filter :=
  mkFilter true (byName f) (byExistedAt f) (byTunnelID f).
Definition ByName (name : string) (f : Filter) : Filter :=
  mkFilter (noDeleted f) (Some name) (byExistedAt f) (byTunnelID f).
Definition ByExistedAt (existedAt : time.Time) (f : Filter) : Filter :=
  mkFilter (noDeleted f) (byName f) (Some existedAt) (byTunnelID f).
Definition ByTunnelID (tunnelID : uuid.UUID) (f : Filter) : Filter :=
  mkFilter (noDeleted f) (byName f) (byExistedAt f) (Some tunnelID).

End tunnelstore.

(** ** Package sort

    An algorithm of package sort reaches the slice only through the two
    functions of a [lessSwap] value, so on a slice of a given length it is
    a tree of [Less] and [Swap] calls, branching on what [Less] returns.
    Which tree [sort.Slice] runs depends on the release of the library;
    the commands below take it as a parameter, and their properties are
    proved from the contract [Sorts] at the end of this module.  The
    routines that the two generations of the library run on short slices
    are spelled out, to evaluate the commands on examples. *)
Module sort.

Inductive steps : Type :=
| Return
| Less (i j : nat) (k : bool → steps)
| Swap (i j : nat) (k : steps).

Section lessSwap.
Context {St : Type}.
(** Both functions work on the caller's variables; [None] is a panic
    (index out of range). *)
Variable less : nat → nat → St → option (bool * St).
Variable swap : nat → nat → St → option St.

Fixpoint run (p : steps) (st : St) : option St :=
  match p with
  | Return => Some st
  | Less i j k => '(b, st') ← less i j st; run (k b) st'
  | Swap i j k => st' ← swap i j st; run k st'
  end.

(** [sort.Slice(x, less)] for a slice of the given length. *)
Definition Slice (algorithm : nat → steps) (length : nat) (st : St) : option St :=
  run (algorithm length) st.
End lessSwap.

(** [reflect.Swapper(slice)] *)
Definition Swapper {A} (i j : nat) (l : list A) : option (list A) :=
  x ← l !! i; y ← l !! j; Some (<[i := y]> (<[j := x]> l)).

(** A [less] that compares the elements and has no other effect. *)
Definition lessBy {A} (lt : A → A → bool) (i j : nat) (l : list A)
  : option (bool * list A) :=
  x ← l !! i; y ← l !! j; Some (lt x y, l).

Definition sortBy {A} (algorithm : nat → steps) (lt : A → A → bool) (l : list A)
  : option (list A) :=
  Slice (lessBy lt) Swapper algorithm (length l) l.

(** *** The routines for short ranges

    [insertionSort_func(data, a, b)]:
<<
    for i := a + 1; i < b; i++ {
      for j := i; j > a && data.Less(j, j-1); j-- {
        data.Swap(j, j-1)
      }
    }
>>
    Each routine takes the steps that follow it as its last argument. *)
Fixpoint insertionSort_inner (a j : nat) (k : steps) : steps :=
  match j with
  | O => k
  | S j' =>
      if (a <? j)%nat then
        Less j j' (fun lt => if lt then Swap j j' (insertionSort_inner a j' k) else k)
      else k
  end.

(** The outer loop from [i] on, with [n] iterations to go. *)
Fixpoint insertionSort_outer (a i n : nat) (k : steps) : steps :=
  match n with
  | O => k
  | S n' => insertionSort_inner a i (insertionSort_outer a (S i) n' k)
  end.

Definition insertionSort_func (a b : nat) (k : steps) : steps :=
  insertionSort_outer a (a + 1) (b - (a + 1)) k.

(** The Shell pass with gap 6 of [quickSort_func]:
<<
    for i := a + 6; i < b; i++ {
      if data.Less(i, i-6) { data.Swap(i, i-6) }
    }
>> *)
Fixpoint shellPass (i n : nat) (k : steps) : steps :=
  match n with
  | O => k
  | S n' =>
      Less i (i - 6) (fun lt =>
        if lt then Swap i (i - 6) (shellPass (S i) n' k) else shellPass (S i) n' k)
  end.

(** [quickSort_func(data, a, b, maxDepth)] of Go 1.8 to 1.18 once the
    range has at most 12 elements, which is all of it for a slice of at
    most 12 elements:
<<
    if b-a > 1 {
      // Do ShellSort pass with gap 6
      ...
      insertionSort_func(data, a, b)
    }
>> *)
Definition quickSort_func_short (a b : nat) : steps :=
  if (1 <? b - a)%nat then
    shellPass (a + 6) (b - (a + 6)) (insertionSort_func a b Return)
  else Return.

(** [sort.Slice] of Go 1.8 to 1.18 on a slice of at most 12 elements:
    [quickSort_func(lessSwap{less, swap}, 0, length, maxDepth(length))].
    Run on a longer slice the routine still sorts it, though the library
    would partition the slice first; as a function of every length it is
    the instance that shows that the contract [Sorts] below can be met. *)
Definition shortSlice (length : nat) : steps := quickSort_func_short 0 length.

(** *** pdqsort_func (Go 1.19 and later) on at most 13 elements

    [sort.Slice] calls [pdqsort_func(data, 0, length, bits.Len(length))].
    Its loop sorts a range of at most 12 elements by insertion.  On 13
    elements the loop runs once more: [limit] is 4, [wasBalanced] and
    [wasPartitioned] are still true, so there is no [breakPatterns_func]
    and no heap sort; [a] is 0, so there is no [partitionEqual_func];
    fewer than 50 elements give no ninther and at most three counted
    swaps, never the twelve of [decreasingHint]; and after the partition
    both sides have at most 12 elements. *)
Inductive sortedHint : Type := unknownHint | increasingHint | decreasingHint.

(** [order2_func(data, a, b, swaps)]: the two indices in order and the
    count of swaps. *)
Definition order2_func (a b swaps : nat) (k : nat → nat → nat → steps) : steps :=
  Less b a (fun lt => if lt then k b a (S swaps) else k a b swaps).

(** [median_func(data, a, b, c, swaps)] *)
Definition median_func (a b c swaps : nat) (k : nat → nat → steps) : steps :=
  order2_func a b swaps (fun a b swaps =>
  order2_func b c swaps (fun b c swaps =>
  order2_func a b swaps (fun a b swaps => k b swaps))).

(** [medianAdjacent_func(data, a, swaps)] *)
Definition medianAdjacent_func (a swaps : nat) (k : nat → nat → steps) : steps :=
  median_func (a - 1) a (a + 1) swaps k.

(** [choosePivot_func(data, a, b)] *)
Definition choosePivot_func (a b : nat) (k : nat → sortedHint → steps) : steps :=
  let shortestNinther := 50%nat in
  let maxSwaps := (4 * 3)%nat in
  let l := (b - a)%nat in
  let i := (a + l / 4 * 1)%nat in
  let j := (a + l / 4 * 2)%nat in
  let k3 := (a + l / 4 * 3)%nat in
  let ret (j swaps : nat) : steps :=
    if (swaps =? 0)%nat then k j increasingHint
    else if (swaps =? maxSwaps)%nat then k j decreasingHint
    else k j unknownHint in
  if (8 <=? l)%nat then
    if (shortestNinther <=? l)%nat then
      medianAdjacent_func i 0 (fun i swaps =>
      medianAdjacent_func j swaps (fun j swaps =>
      medianAdjacent_func k3 swaps (fun k3 swaps =>
      median_func i j k3 swaps ret)))
    else median_func i j k3 0 ret
  else ret j 0%nat.

(** [for i <= j && data.Less(i, a) { i++ }] *)
Fixpoint scanUp (fuel a i j : nat) (k : nat → steps) : steps :=
  match fuel with
  | O => k i
  | S fuel' =>
      if (i <=? j)%nat then
        Less i a (fun lt => if lt then scanUp fuel' a (S i) j k else k i)
      else k i
  end.

(** [for i <= j && !data.Less(j, a) { j-- }] *)
Fixpoint scanDown (fuel a i j : nat) (k : nat → steps) : steps :=
  match fuel with
  | O => k j
  | S fuel' =>
      if (i <=? j)%nat then
        Less j a (fun lt => if lt then k j else scanDown fuel' a i (j - 1) k)
      else k j
  end.

(** The second loop of [partition_func]: scan from both ends, swap, and
    go on until the indices cross. *)
Fixpoint partition_loop (fuel a i j : nat) (k : nat → steps) : steps :=
  match fuel with
  | O => k j
  | S fuel' =>
      scanUp (S fuel') a i j (fun i =>
      scanDown (S fuel') a i j (fun j =>
        if (j <? i)%nat then k j
        else Swap i j (partition_loop fuel' a (S i) (j - 1) k)))
  end.

(** [partition_func(data, a, b, pivot)]: the new index of the pivot and
    whether the range was already partitioned. *)
Definition partition_func (a b pivot : nat) (k : nat → bool → steps) : steps :=
  let fuel := (b - a)%nat in
  Swap a pivot
    (scanUp fuel a (a + 1) (b - 1) (fun i =>
     scanDown fuel a i (b - 1) (fun j =>
       if (j <? i)%nat then Swap j a (k j true)
       else
         Swap i j
           (partition_loop fuel a (S i) (j - 1) (fun j => Swap j a (k j false)))))).

(** [for i < b && !data.Less(i, i-1) { i++ }] *)
Fixpoint sortedPrefix (fuel i b : nat) (k : nat → steps) : steps :=
  match fuel with
  | O => k i
  | S fuel' =>
      if (i <? b)%nat then
        Less i (i - 1) (fun lt => if lt then k i else sortedPrefix fuel' (S i) b k)
      else k i
  end.

(** [partialInsertionSort_func(data, a, b)] on fewer than 50 elements
    ([shortestShifting]): it shifts nothing and tells whether the range
    is sorted. *)
Definition partialInsertionSort_func (a b : nat) (k : bool → steps) : steps :=
  sortedPrefix (b - a) (a + 1) b (fun i => k (i =? b)%nat).

(** One turn of the loop of [pdqsort_func(data, a, b, limit)]:
<<
    if length <= maxInsertion { insertionSort_func(data, a, b); return }
    ...
    pivot, hint := choosePivot_func(data, a, b)
    ...
    if wasBalanced && wasPartitioned && hint == increasingHint {
      if partialInsertionSort_func(data, a, b) { return }
    }
    ...
    mid, alreadyPartitioned := partition_func(data, a, b, pivot)
    leftLen, rightLen := mid-a, b-mid
    if leftLen < rightLen {
      pdqsort_func(data, a, mid, limit); a = mid + 1
    } else {
      pdqsort_func(data, mid+1, b, limit); b = mid
    }
>>
    with the call on the one side and the next turn on the other side
    both ending in the insertion sort of at most 12 elements. *)
Definition pdqsort_func_13 (a b : nat) : steps :=
  let maxInsertion := 12%nat in
  let length := (b - a)%nat in
  if (length <=? maxInsertion)%nat then insertionSort_func a b Return
  else
    choosePivot_func a b (fun pivot hint =>
      let partitioned :=
        partition_func a b pivot (fun mid _ =>
          let leftLen := (mid - a)%nat in
          let rightLen := (b - mid)%nat in
          if (leftLen <? rightLen)%nat then
            insertionSort_func a mid (insertionSort_func (mid + 1) b Return)
          else
            insertionSort_func (mid + 1) b (insertionSort_func a mid Return)) in
      match hint with
      | increasingHint =>
          partialInsertionSort_func a b (fun sorted =>
            if sorted then Return else partitioned)
      | _ => partitioned
      end).

(** [sort.Slice] of Go 1.19 and later on a slice of at most 13 elements. *)
Definition slice13 (length : nat) : steps := pdqsort_func_13 0 length.

(** [sort.Strings(x)] sorts in increasing order.  The increasing
    arrangement of a list of strings is unique, so the algorithm does
    not show in the result; merge sort stands for it. *)
Definition string_le (a b : string) : Prop := String.leb a b = true.
Global Instance string_le_dec : RelDecision string_le.
Proof. intros a b. unfold string_le. apply _. Defined.

Definition Strings (x : list string) : list string := merge_sort string_le x.

(** *** What the commands rely on

    [pairwise P l]: [P] holds between the elements at any two different
    positions of [l], in both directions. *)
Fixpoint pairwise {A} (P : A → A → Prop) (l : list A) : Prop :=
  match l with
  | [] => True
  | x :: l' => Forall (fun y => P x y ∧ P y x) l' ∧ pairwise P l'
  end.

(** On the elements in question [lt] decides the strict total order [R]. *)
Definition decides {A} (lt : A → A → bool) (R : relation A) (x y : A) : Prop :=
  (lt x y = true ↔ R x y) ∧ (R x y ∨ R y x).

(** The contract of [sort.Slice]: it never panics and permutes the
    slice; it makes no call on a slice of fewer than two elements; and
    when [less] decides a strict total order between the elements at
    different positions, the slice ends up in that order. *)
Record Sorts (algorithm : nat → steps) : Prop := {
  sorts_permutes : ∀ A (lt : A → A → bool) (l : list A),
    ∃ l', sortBy algorithm lt l = Some l' ∧ l' ≡ₚ l;
  sorts_short : ∀ n, (n < 2)%nat → algorithm n = Return;
  sorts_sorted : ∀ A (lt : A → A → bool) (R : relation A) (l l' : list A),
    StrictOrder R → pairwise (decides lt R) l →
    sortBy algorithm lt l = Some l' → StronglySorted R l'
}.

End sort.

(** ** The list command (subcommands.go, lines 31-84 and 209-350) *)

Definition allSortByOptions : string := "name, id, createdAt, deletedAt, numConnections".
Definition connsSortByOptions : string := "id, startedAt, numConnections, version".

(** What the user gave for each flag of [buildListCommand], with the
    flag's default where one is declared ([sort-by] defaults to "name"). *)
Record listOptions : Type := mkListOptions {
  opt_output : string;
  opt_showDeleted : bool;
  opt_name : string;
  opt_when : option time.Time;
  opt_id : string;
  opt_showRecentlyDisconnected : bool;
  opt_sortBy : string;
  opt_invertSort : bool
}.

(** Defines a flag under its name and its aliases. *)
Definition define (names : list string) (v : cli.flagValue)
    (fs : gmap string cli.flagValue) : gmap string cli.flagValue :=
  foldr (fun n m => <[n := v]> m) fs names.

(** The context of an invocation of [list]: the flags are those of
    lines 42-84, under the names and aliases declared there. *)
Definition listContext (o : listOptions) : cli.Context :=
  cli.mkContext
    (define ["output"; "o"] (cli.StringValue (opt_output o))
    (define ["show-deleted"; "d"] (cli.BoolValue (opt_showDeleted o))
    (define ["name"; "n"] (cli.StringValue (opt_name o))
    (define ["when"; "w"] (cli.TimestampValue (opt_when o))
    (define ["id"; "i"] (cli.StringValue (opt_id o))
    (define ["show-recently-disconnected"; "rd"]
       (cli.BoolValue (opt_showRecentlyDisconnected o))
    (define ["sort-by"] (cli.StringValue (opt_sortBy o))
    (define ["invert-sort"] (cli.BoolValue (opt_invertSort o)) ∅))))))))
    [].

(** The variables of [listCommand] that the [less] closure captures. *)
Record listVars : Type := mkListVars {
  tunnels : list tunnelstore.Tunnel;
  invalidSortField : bool
}.

(** The value [tunnelInfo] renders: [Info{tunnel.ID, tunnel.Name,
    tunnel.CreatedAt, clients}] (line 427). *)
Record Info : Type := mkInfo {
  info_ID : uuid.UUID;
  info_Name : string;
  info_CreatedAt : time.Time;
  Connectors : list tunnelstore.ActiveClient.t
}.

(** What a command writes to the standard output. *)
Inductive printed : Type :=
| Rendered (format : string) (ts : list tunnelstore.Tunnel)   (* renderOutput *)
| TunnelList (ts : list tunnelstore.Tunnel) (showRecentlyDisconnected : bool)
| NoTunnels
| RenderedInfo (format : string) (info : Info)                (* renderOutput *)
| ConnectionsList (info : Info) (showRecentlyDisconnected : bool)
| NoActiveConnection (tunnelID : uuid.UUID).

(** What a run of a command leaves behind. *)
Record outcome : Type := mkOutcome {
  listed : option tunnelstore.Filter;   (* the filter handed to [sc.list] *)
  logged : list string;                 (* [sc.log.Error()] lines *)
  stdout : option printed;
  returned : option error
}.

(** The collaborators a command reaches through its subcommand context:
    [sc.list], [sc.findID], and [sc.client()] with the client's
    [ListActiveClients]. *)
Record subcommandContext : Type := mkSubcommandContext {
  sc_list : tunnelstore.Filter → result (list tunnelstore.Tunnel);
  sc_findID : string → result uuid.UUID;
  sc_client : result (uuid.UUID → result (list tunnelstore.ActiveClient.t))
}.

(** Lines 547-558, without the encoders' own failures; [v] is what the
    encoder writes. *)
Definition renderOutput (format : string) (v : printed) : option printed * option error :=
  if (String.eqb format "json" || String.eqb format "yaml")%bool then (Some v, None)
  else (None, Some (Errorf "Unknown output format '%s'" [fmt.Str format])).

Section ListCommand.

Variable algorithm : nat → sort.steps.
Variable uuid_Parse : string → result uuid.UUID.
Variable newSubcommandContext : cli.Context → result subcommandContext.

(** Lines 239-255: the filter, or the error of a malformed [--id]. *)
Definition listCommand_filter (c : cli.Context) : result tunnelstore.Filter :=
  let filter := tunnelstore.NewFilter in
  let filter :=
    if negb (cli.Bool c "show-deleted") then tunnelstore.NoDeleted filter else filter in
  let filter :=
    let name := cli.String_ c "name" in
    if negb (String.eqb name "") then tunnelstore.ByName name filter else filter in
  let filter :=
    match cli.Timestamp c "time" with
    | Some existedAt => tunnelstore.ByExistedAt existedAt filter
    | None => filter
    end in
  let id := cli.String_ c "id" in
  if negb (String.eqb id "") then
    match uuid_Parse id with
    | Err err =>
        Err (withMessage err (fmt.Sprintf "%s is not a valid tunnel ID" [fmt.Str id]))
    | Ok tunnelID => Ok (tunnelstore.ByTunnelID tunnelID filter)
    end
  else Ok filter.

(** Lines 266-282: the inner closure [cmp], on the two elements. *)
Definition listCommand_cmp (sortBy : string) (ti tj : tunnelstore.Tunnel)
    (st : listVars) : bool * listVars :=
  if String.eqb sortBy "name" then
    (String.ltb (tunnelstore.Name ti) (tunnelstore.Name tj), st)
  else if String.eqb sortBy "id" then
    (String.ltb (uuid.String_ (tunnelstore.ID ti)) (uuid.String_ (tunnelstore.ID tj)), st)
  else if String.eqb sortBy "createdAt" then
    (time.Unix (tunnelstore.CreatedAt ti) <? time.Unix (tunnelstore.CreatedAt tj), st)
  else if String.eqb sortBy "deletedAt" then
    (time.Unix (tunnelstore.DeletedAt ti) <? time.Unix (tunnelstore.DeletedAt tj), st)
  else if String.eqb sortBy "numConnections" then
    ((length (tunnelstore.Connections ti) <? length (tunnelstore.Connections tj))%nat, st)
  else
    (String.ltb (tunnelstore.Name ti) (tunnelstore.Name tj),
     mkListVars (tunnels st) true).

(** Lines 265-287: the closure handed to [sort.Slice]. *)
Definition listCommand_less (c : cli.Context) (sortBy : string) (i j : nat)
    (st : listVars) : option (bool * listVars) :=
  ti ← tunnels st !! i;
  tj ← tunnels st !! j;
  let '(cmp, st') := listCommand_cmp sortBy ti tj st in
  if cli.Bool c "invert-sort" then Some (negb cmp, st') else Some (cmp, st').

Definition listCommand_swap (i j : nat) (st : listVars) : option listVars :=
  ts ← sort.Swapper i j (tunnels st);
  Some (mkListVars ts (invalidSortField st)).

(** Lines 262-290: the sorted tunnels and the log lines; [None] is a panic. *)
Definition listCommand_sort (c : cli.Context) (ts : list tunnelstore.Tunnel)
  : option (list tunnelstore.Tunnel * list string) :=
  let sortBy := cli.String_ c "sort-by" in
  st ← sort.Slice (listCommand_less c sortBy) listCommand_swap algorithm
         (length ts) (mkListVars ts false);
  Some (tunnels st,
        if invalidSortField st then
          [fmt.Sprintf
             "%s is not a valid sort field. Valid sort fields are %s. Defaulting to 'name'."
             [fmt.Str sortBy; fmt.Str allSortByOptions]]
        else []).

(** Lines 230-303, without the update check of lines 236-237, which
    [updateCheck] below gives; [None] is a panic. *)
Definition listCommand (c : cli.Context) : option outcome :=
  match newSubcommandContext c with
  | Err err => Some (mkOutcome None [] None (Some err))
  | Ok sc =>
      match listCommand_filter c with
      | Err err => Some (mkOutcome None [] None (Some err))
      | Ok filter =>
          match sc_list sc filter with
          | Err err => Some (mkOutcome (Some filter) [] None (Some err))
          | Ok ts =>
              '(ts', log) ← listCommand_sort c ts;
              let outputFormat := cli.String_ c "output" in
              if negb (String.eqb outputFormat "") then
                let '(out, err) := renderOutput outputFormat (Rendered outputFormat ts') in
                Some (mkOutcome (Some filter) log out err)
              else if (0 <? length ts')%nat then
                Some (mkOutcome (Some filter) log
                        (Some (TunnelList ts' (cli.Bool c "show-recently-disconnected")))
                        None)
              else Some (mkOutcome (Some filter) log (Some NoTunnels) None)
          end
      end
  end.

End ListCommand.

(** ** The info command (subcommands.go, lines 369-458) *)

Record infoVars : Type := mkInfoVars {
  clients : list tunnelstore.ActiveClient.t;
  info_invalidSortField : bool
}.

Section TunnelInfo.

Variable algorithm : nat → sort.steps.
Variable newSubcommandContext : cli.Context → result subcommandContext.

(** Lines 399-413: the inner closure [cmp], on the two elements. *)

Definition tunnelInfo_cmp (sortBy : string) (ci cj : tunnelstore.ActiveClient.t)
    (st : infoVars) : bool * infoVars :=
  if String.eqb sortBy "id" then
    (String.ltb (uuid.String_ (tunnelstore.ActiveClient.ID ci))
                (uuid.String_ (tunnelstore.ActiveClient.ID cj)), st)
  else if String.eqb sortBy "createdAt" then
    (time.Unix (tunnelstore.ActiveClient.RunAt ci)
       <? time.Unix (tunnelstore.ActiveClient.RunAt cj), st)
  else if String.eqb sortBy "numConnections" then
    ((length (tunnelstore.ActiveClient.Connections ci)
        <? length (tunnelstore.ActiveClient.Connections cj))%nat, st)
  else if String.eqb sortBy "version" then
    (String.ltb (tunnelstore.ActiveClient.Version ci)
                (tunnelstore.ActiveClient.Version cj), st)
  else
    (time.Unix (tunnelstore.ActiveClient.RunAt ci)
       <? time.Unix (tunnelstore.ActiveClient.RunAt cj),
     mkInfoVars (clients st) true).

Definition tunnelInfo_less (c : cli.Context) (sortBy : string) (i j : nat)
    (st : infoVars) : option (bool * infoVars) :=
  ci ← clients st !! i;
  cj ← clients st !! j;
  let '(cmp, st') := tunnelInfo_cmp sortBy ci cj st in
  if cli.Bool c "invert-sort" then Some (negb cmp, st') else Some (cmp, st').

Definition tunnelInfo_swap (i j : nat) (st : infoVars) : option infoVars :=
  cs ← sort.Swapper i j (clients st);
  Some (mkInfoVars cs (info_invalidSortField st)).

(** Lines 396-421: the sorted connectors and the log lines. *)
Definition tunnelInfo_sort (c : cli.Context) (cs : list tunnelstore.ActiveClient.t)
  : option (list tunnelstore.ActiveClient.t * list string) :=
  let sortBy := cli.String_ c "sort-by" in
  st ← sort.Slice (tunnelInfo_less c sortBy) tunnelInfo_swap algorithm
         (length cs) (mkInfoVars cs false);
  Some (clients st,
        if info_invalidSortField st then
          [fmt.Sprintf
             "%s is not a valid sort field. Valid sort fields are %s. Defaulting to 'name'."
             [fmt.Str sortBy; fmt.Str connsSortByOptions]]
        else []).

(** Lines 447-458 *)
Definition getTunnel (sc : subcommandContext) (tunnelID : uuid.UUID)
  : tunnelstore.Filter * result tunnelstore.Tunnel :=
  let filter := tunnelstore.ByTunnelID tunnelID tunnelstore.NewFilter in
  (filter,
   match sc_list sc filter with
   | Err err => Err err
   | Ok [tunnel] => Ok tunnel
   | Ok ts =>
       Err (Errorf "Expected to find a single tunnel with uuid %v but found %d tunnels."
              [fmt.Str (uuid.String_ tunnelID); fmt.Int (Z.of_nat (length ts))])
   end).

(** Lines 369-445, without the update check of lines 375-376, which
    [updateCheck] below gives; [None] is a panic. *)
Definition tunnelInfo (c : cli.Context) : option outcome :=
  let failed err := Some (mkOutcome None [] None (Some err)) in
  match newSubcommandContext c with
  | Err err => failed err
  | Ok sc =>
      if negb (cli.NArg c =? 1)%nat then
        failed
          (UsageError
             (String.append
                (String "034" "cloudflared tunnel info")
                (String "034" " accepts exactly one argument, the ID or name of the tunnel to get info about."))
             [])
      else
        match sc_findID sc (cli.Args_First c) with
        | Err err => failed (withMessage err "error parsing tunnel ID")
        | Ok tunnelID =>
            match sc_client sc with
            | Err err => failed err
            | Ok ListActiveClients =>
                match ListActiveClients tunnelID with
                | Err err => failed err
                | Ok cs =>
                    '(cs', log) ← tunnelInfo_sort c cs;
                    match getTunnel sc tunnelID with
                    | (filter, Err err) => Some (mkOutcome (Some filter) log None (Some err))
                    | (filter, Ok tunnel) =>
                        let info :=
                          mkInfo (tunnelstore.ID tunnel) (tunnelstore.Name tunnel)
                                 (tunnelstore.CreatedAt tunnel) cs' in
                        let outputFormat := cli.String_ c "output" in
                        if negb (String.eqb outputFormat "") then
                          let '(out, err) :=
                            renderOutput outputFormat (RenderedInfo outputFormat info) in
                          Some (mkOutcome (Some filter) log out err)
                        else if (0 <? length cs')%nat then
                          Some (mkOutcome (Some filter) log
                                  (Some (ConnectionsList info
                                           (cli.Bool c "show-recently-disconnected")))
                                  None)
                        else
                          Some (mkOutcome (Some filter) log
                                  (Some (NoActiveConnection tunnelID)) None)
                    end
                end
            end
        end
  end.

End TunnelInfo.

(** ** The connection summary (subcommands.go, lines 327-350) *)

(** [n++] on a [uint] (64 bits). *)
Definition uint_incr (n : N) : N := ((n + 1) mod 2 ^ 64)%N.

(** The loop of lines 331-335: [numConnsPerColo]. *)
Definition countColos (connections : list tunnelstore.Connection)
    (showRecentlyDisconnected : bool) : gmap string N :=
  foldl (fun (numConnsPerColo : gmap string N) connection =>
           if (negb (tunnelstore.IsPendingReconnect connection)
               || showRecentlyDisconnected)%bool then
             <[tunnelstore.ColoName connection :=
                 uint_incr (default 0%N (numConnsPerColo !! tunnelstore.ColoName connection))]>
               numConnsPerColo
           else numConnsPerColo)
        ∅ connections.

Definition fmtConnections (connections : list tunnelstore.Connection)
    (showRecentlyDisconnected : bool) : string :=
  let numConnsPerColo := countColos connections showRecentlyDisconnected in
  (* the keys, in whatever order the map yields them, then sorted *)
  let sortedColos := sort.Strings (map_to_list numConnsPerColo).*1 in
  let output :=
    map (fun coloName =>
           fmt.Sprintf "%dx%s"
             [fmt.Int (Z.of_N (default 0%N (numConnsPerColo !! coloName)));
              fmt.Str coloName])
        sortedColos in
  strings.Join output ", ".

Definition LAX_LAX_JFK : list tunnelstore.Connection :=
  [tunnelstore.mkConnection "LAX" "10.0.0.1" false;
   tunnelstore.mkConnection "LAX" "10.0.0.1" true;
   tunnelstore.mkConnection "JFK" "10.0.0.1" false].

(** ** The table of connectors (subcommands.go, lines 460-499) *)

Definition tab : string := String "009" "".
Definition newline : string := String "010" "".

(** [time.RFC3339] *)
Definition RFC3339 : string := "2006-01-02T15:04:05Z07:00".

(** What a printing function does, call by call. *)
Inductive write : Type :=
| ToWriter (s : string)   (* a call of package fmt on the tab writer *)
| ToStdout (s : string)   (* a call of package fmt on the standard output *)
| Flush.                  (* the deferred [writer.Flush()] *)

(** [fmt.Fprintln(writer, s)] and [fmt.Println(s)] *)
Definition Fprintln (s : string) : write := ToWriter (s +:+ newline).
Definition Println (s : string) : write := ToStdout (s +:+ newline).

Section Tables.

(** [t.Format(layout)] and [t.String()] of package time. *)
Variable time_Format : time.Time → string → string.
Variable time_String : time.Time → string.

(** Lines 468-474: whether some connector has a summary to show. *)
Definition shouldDisplayTable (connectors : list tunnelstore.ActiveClient.t)
    (showRecentlyDisconnected : bool) : bool :=
  foldl (fun shouldDisplayTable c =>
           let conns :=
             fmtConnections (tunnelstore.ActiveClient.Connections c)
               showRecentlyDisconnected in
           if (0 <? String.length conns)%nat then true else shouldDisplayTable)
        false connectors.

(** Lines 482-498: the rows of the connector table; [None] is the panic
    of [c.Connections[0]] on an empty slice.  [OriginIP] of a connection
    stands for what [OriginIP.String()] yields. *)
Fixpoint connectorRows (connectors : list tunnelstore.ActiveClient.t)
    (showRecentlyDisconnected : bool) : option (list write) :=
  match connectors with
  | [] => Some []
  | c :: connectors' =>
      let conns :=
        fmtConnections (tunnelstore.ActiveClient.Connections c) showRecentlyDisconnected in
      if (String.length conns =? 0)%nat then
        connectorRows connectors' showRecentlyDisconnected
      else
        first ← tunnelstore.ActiveClient.Connections c !! 0%nat;
        let originIp := tunnelstore.OriginIP first in
        let formattedStr :=
          fmt.Sprintf
            ("%s" +:+ tab +:+ "%s" +:+ tab +:+ "%s" +:+ tab +:+ "%s" +:+ tab +:+
             "%s" +:+ tab +:+ "%s" +:+ tab)
            [fmt.Str (uuid.String_ (tunnelstore.ActiveClient.ID c));
             fmt.Str (time_Format (tunnelstore.ActiveClient.RunAt c) RFC3339);
             fmt.Str (tunnelstore.ActiveClient.Arch c);
             fmt.Str (tunnelstore.ActiveClient.Version c);
             fmt.Str originIp;
             fmt.Str conns] in
        rows ← connectorRows connectors' showRecentlyDisconnected;
        Some (Fprintln formattedStr :: rows)
  end.

(** Lines 460-499; [None] is a panic. *)
Definition formatAndPrintConnectionsList (tunnelInfo : Info)
    (showRecentlyDisconnected : bool) : option (list write) :=
  let header :=
    ToWriter
      (fmt.Sprintf
         ("NAME:     %s" +:+ newline +:+ "ID:       %s" +:+ newline +:+
          "CREATED:  %s" +:+ newline +:+ newline)
         [fmt.Str (info_Name tunnelInfo);
          fmt.Str (uuid.String_ (info_ID tunnelInfo));
          fmt.Str (time_String (info_CreatedAt tunnelInfo))]) in
  if negb (shouldDisplayTable (Connectors tunnelInfo) showRecentlyDisconnected) then
    Some [header; Println "This tunnel has no active connectors."; Flush]
  else
    rows ← connectorRows (Connectors tunnelInfo) showRecentlyDisconnected;
    Some ([header;
           Fprintln ("CONNECTOR ID" +:+ tab +:+ "CREATED" +:+ tab +:+ "ARCHITECTURE" +:+ tab +:+
                     "VERSION" +:+ tab +:+ "ORIGIN IP" +:+ tab +:+ "EDGE" +:+ tab)]
          ++ rows ++ [Flush]).

End Tables.

(** ** The commands that act on tunnels
    (subcommands.go, lines 169-185, 526-545, 587-653 and 747-791) *)

Definition CredFileFlag : string := "credentials-file".
Definition overwriteDNSFlagName : string := "overwrite-dns".

Module errors.

(** [errors.Wrap(err, message)]: nil for a nil error. *)
Definition Wrap (err : option error) (message : string) : option error :=
  match err with
  | Some e => Some (withMessage e message)
  | None => None
  end.

End errors.

(** The methods of the subcommand context that these commands call
    besides [findID]; [sc.route] yields the result's [SuccessSummary()]. *)
Record subcommandMethods : Type := mkSubcommandMethods {
  sc_create : string → string → result tunnelstore.Tunnel;
  sc_findIDs : list string → result (list uuid.UUID);
  sc_delete : list uuid.UUID → option error;
  sc_cleanupConnections : list uuid.UUID → option error;
  sc_run : uuid.UUID → option error;
  sc_route : uuid.UUID → Route → result string
}.

(** What a command does before it returns, in order: its calls on the
    subcommand context, the update check, and its log lines. *)
Inductive event : Type :=
| WarningCheckStarted                              (* updater.StartWarningCheck(c) *)
| WarningLogged                                    (* the deferred LogWarningIfAny *)
| CreateCall (name credentialsFilePath : string)   (* sc.create *)
| FindIDCall (input : string)                      (* sc.findID *)
| FindIDsCall (inputs : list string)               (* sc.findIDs *)
| DeleteCall (tunnelIDs : list uuid.UUID)          (* sc.delete *)
| CleanupCall (tunnelIDs : list uuid.UUID)         (* sc.cleanupConnections *)
| RunCall (tunnelID : uuid.UUID)                   (* sc.run *)
| RouteCall (tunnelID : uuid.UUID) (r : Route)     (* sc.route *)
| LogWarn (msg : string)                           (* sc.log.Warn().Msg *)
| LogInfo (tunnelID : string) (msg : string).      (* sc.log.Info().Str(LogFieldTunnelID, _).Msg *)

(** Lines 236-237 of [listCommand] and lines 375-376 of [tunnelInfo]:
    as soon as the subcommand context is set up, and before anything
    else, both commands start the update check and defer
    [warningChecker.LogWarningIfAny(sc.log)], which so runs at every
    return that follows (and on a panic), after all else the command
    does.  The [outcome] of the two commands above does not hold these
    two calls, and its [logged] holds the [sc.log.Error()] lines only;
    this is the rest of what a run does. *)
Definition updateCheck {SC : Type} (newSubcommandContext : cli.Context → result SC)
    (c : cli.Context) : list event :=
  match newSubcommandContext c with
  | Err _ => []
  | Ok _ => [WarningCheckStarted; WarningLogged]
  end.

(** A command name between double quotes, as the usage messages have it. *)
Definition quoted (s : string) : string := String "034" (s +:+ String "034" "").

Section TunnelCommands.

Variable newSubcommandContext : cli.Context → result (subcommandContext * subcommandMethods).
(** [config.GetConfiguration().TunnelID] *)
Variable config_TunnelID : string.
Variable idnaProfile_ToASCII : string → string * option error.

(** Lines 169-185 *)
Definition createCommand (c : cli.Context) : list event * option error :=
  match newSubcommandContext c with
  | Err err => ([], errors.Wrap (Some err) "error setting up logger")
  | Ok (sc, m) =>
      if negb (cli.NArg c =? 1)%nat then
        ([], Some (UsageError
                     (quoted "cloudflared tunnel create" +:+
                      " requires exactly 1 argument, the name of tunnel to create.") []))
      else
        let name := cli.Args_First c in
        let err := err_of (sc_create m name (cli.String_ c CredFileFlag)) in
        ([WarningCheckStarted; CreateCall name (cli.String_ c CredFileFlag); WarningLogged],
         errors.Wrap err "failed to create tunnel")
  end.

(** Lines 526-545 *)
Definition deleteCommand (c : cli.Context) : list event * option error :=
  match newSubcommandContext c with
  | Err err => ([], Some err)
  | Ok (sc, m) =>
      if (cli.NArg c <? 1)%nat then
        ([], Some (UsageError
                     (quoted "cloudflared tunnel delete" +:+
                      " requires at least 1 argument, the ID or name of the tunnel to delete.") []))
      else
        match sc_findIDs m (cli.args c) with
        | Err err => ([WarningCheckStarted; FindIDsCall (cli.args c); WarningLogged], Some err)
        | Ok tunnelIDs =>
            ([WarningCheckStarted; FindIDsCall (cli.args c); DeleteCall tunnelIDs; WarningLogged],
             sc_delete m tunnelIDs)
        end
  end.

(** Lines 614-623 *)
Definition runNamedTunnel (sc : subcommandContext * subcommandMethods) (tunnelRef : string)
  : list event * option error :=
  match sc_findID sc.1 tunnelRef with
  | Err err => ([FindIDCall tunnelRef], errors.Wrap (Some err) "error parsing tunnel ID")
  | Ok tunnelID =>
      ([FindIDCall tunnelRef; LogInfo (uuid.String_ tunnelID) "Starting tunnel"; RunCall tunnelID],
       sc_run sc.2 tunnelID)
  end.

(** Lines 587-612 *)
Definition runCommand (c : cli.Context) : list event * option error :=
  match newSubcommandContext c with
  | Err err => ([], Some err)
  | Ok sc =>
      if (1 <? cli.NArg c)%nat then
        ([], Some (UsageError
                     (quoted "cloudflared tunnel run" +:+
                      " accepts only one argument, the ID or name of the tunnel to run.") []))
      else
        let run (tunnelRef : string) : list event * option error :=
          let warned :=
            if negb (String.eqb (cli.String_ c "hostname") "") then
              [LogWarn
                 ("The property `hostname` in your configuration is ignored because you configured a Named Tunnel " +:+
                  "in the property `tunnel` to run. Make sure to provision the routing (e.g. via `cloudflared tunnel route dns/lb`) or else " +:+
                  "your origin will not be reachable. You should remove the `hostname` property to avoid this warning.")]
            else [] in
          let '(events, err) := runNamedTunnel sc tunnelRef in
          (warned ++ events, err) in
        let tunnelRef := cli.Args_First c in
        if String.eqb tunnelRef "" then
          (* see if tunnel id was in the config file *)
          let tunnelRef := config_TunnelID in
          if String.eqb tunnelRef "" then
            ([], Some (UsageError
                         (quoted "cloudflared tunnel run" +:+
                          " requires the ID or name of the tunnel to run as the last command line argument or in the configuration file.") []))
          else run tunnelRef
        else run tunnelRef
  end.

(** Lines 637-653 *)
Definition cleanupCommand (c : cli.Context) : list event * option error :=
  if (cli.NArg c <? 1)%nat then
    ([], Some (UsageError
                 (quoted "cloudflared tunnel cleanup" +:+
                  " requires at least 1 argument, the IDs of the tunnels to cleanup connections.") []))
  else
    match newSubcommandContext c with
    | Err err => ([], Some err)
    | Ok (sc, m) =>
        match sc_findIDs m (cli.args c) with
        | Err err => ([FindIDsCall (cli.args c)], Some err)
        | Ok tunnelIDs =>
            ([FindIDsCall (cli.args c); CleanupCall tunnelIDs], sc_cleanupConnections m tunnelIDs)
        end
    end.

(** Lines 761-782: the switch on the route type, with the events of the
    taken branch. *)
Definition routeCommand_switch (c : cli.Context) (sc : subcommandContext)
  : list event * result (uuid.UUID * Route) :=
  let tunnelIDIndex := 1%nat in
  let routeType := cli.Args_First c in
  if String.eqb routeType "dns" then
    match sc_findID sc (cli.Args_Get c tunnelIDIndex) with
    | Err err => ([FindIDCall (cli.Args_Get c tunnelIDIndex)], Err err)
    | Ok tunnelID =>
        match dnsRouteFromArg idnaProfile_ToASCII c (cli.Bool c overwriteDNSFlagName) with
        | Err err => ([FindIDCall (cli.Args_Get c tunnelIDIndex)], Err err)
        | Ok route => ([FindIDCall (cli.Args_Get c tunnelIDIndex)], Ok (tunnelID, route))
        end
    end
  else if String.eqb routeType "lb" then
    match sc_findID sc (cli.Args_Get c tunnelIDIndex) with
    | Err err => ([FindIDCall (cli.Args_Get c tunnelIDIndex)], Err err)
    | Ok tunnelID =>
        match lbRouteFromArg idnaProfile_ToASCII c with
        | Err err => ([FindIDCall (cli.Args_Get c tunnelIDIndex)], Err err)
        | Ok route => ([FindIDCall (cli.Args_Get c tunnelIDIndex)], Ok (tunnelID, route))
        end
    end
  else
    ([], Err (UsageError
                "%s is not a recognized route type. Supported route types are dns and lb"
                [fmt.Str routeType])).

(** Lines 747-791 *)
Definition routeCommand (c : cli.Context) : list event * option error :=
  if (cli.NArg c <? 2)%nat then
    ([], Some (UsageError
                 (quoted "cloudflared tunnel route" +:+
                  " requires the first argument to be the route type(dns or lb), followed by the ID or name of the tunnel") []))
  else
    match newSubcommandContext c with
    | Err err => ([], Some err)
    | Ok (sc, m) =>
        match routeCommand_switch c sc with
        | (events, Err err) => (events, Some err)
        | (events, Ok (tunnelID, route)) =>
            match sc_route m tunnelID route with
            | Err err => (events ++ [RouteCall tunnelID route], Some err)
            | Ok successSummary =>
                (events ++ [RouteCall tunnelID route;
                            LogInfo (uuid.String_ tunnelID) successSummary],
                 None)
            end
        end
    end.

End TunnelCommands.

(** ** Package path/filepath (Unix) *)
Module filepath.

Definition Separator : ascii := "/".

Definition IsPathSeparator (c : ascii) : bool := Ascii.eqb c Separator.

(** [r+k == n || os.IsPathSeparator(path[r+k])], on what is left of the
    path from [r+k] on. *)
Definition elementEnds (rest : list ascii) : bool :=
  match rest with
  | [] => true
  | c :: _ => IsPathSeparator c
  end.

(** The buffer [out] is kept in reverse.  After [out.w--]:
<<
    for out.w > dotdot && !os.IsPathSeparator(out.index(out.w)) { out.w-- }
>>
    where [dropped] is [out.index(out.w)], the byte dropped last. *)
Fixpoint backtrack (dotdot : nat) (dropped : ascii) (out : list ascii) : list ascii :=
  match out with
  | c :: out' =>
      if ((dotdot <? length out)%nat && negb (IsPathSeparator dropped))%bool
      then backtrack dotdot c out'
      else out
  | [] => []
  end.

(** [for ; r < n && !os.IsPathSeparator(path[r]); r++ { out.append(path[r]) }]:
    what is left of the path, and the buffer. *)
Fixpoint copyElement (path out : list ascii) : list ascii * list ascii :=
  match path with
  | c :: rest => if IsPathSeparator c then (path, out) else copyElement rest (c :: out)
  | [] => ([], out)
  end.

(** One turn of the loop [for r < n] of [Clean], on what is left of the
    path from [r] on: what is left after the turn, the buffer, and
    [dotdot]. *)
Definition cleanStep (rooted : bool) (c : ascii) (rest out : list ascii) (dotdot : nat)
  : list ascii * list ascii * nat :=
  let element :=
    (* real path element: add slash if needed, copy element *)
    let out :=
      if (rooted && negb (length out =? 1)%nat
          || negb rooted && negb (length out =? 0)%nat)%bool
      then Separator :: out else out in
    let '(rest', out) := copyElement (c :: rest) out in
    (rest', out, dotdot) in
  if IsPathSeparator c then
    (* empty path element *)
    (rest, out, dotdot)
  else if (Ascii.eqb c "." && elementEnds rest)%bool then
    (* . element *)
    (rest, out, dotdot)
  else
    match rest with
    | c' :: rest' =>
        if (Ascii.eqb c "." && Ascii.eqb c' "." && elementEnds rest')%bool then
          (* .. element: remove to last separator *)
          if (dotdot <? length out)%nat then
            (* can backtrack *)
            match out with
            | dropped :: out' => (rest', backtrack dotdot dropped out', dotdot)
            | [] => (rest', out, dotdot)
            end
          else if negb rooted then
            (* cannot backtrack, but not rooted, so append .. element *)
            let out := if (0 <? length out)%nat then Separator :: out else out in
            let out := "."%char :: "."%char :: out in
            (rest', out, length out)
          else (rest', out, dotdot)
        else element
    | [] => element
    end.

(** The loop; every turn takes at least one byte of the path. *)
Fixpoint cleanLoop (fuel : nat) (rooted : bool) (path out : list ascii) (dotdot : nat)
  : list ascii :=
  match fuel, path with
  | O, _ => out
  | _, [] => out
  | S fuel', c :: rest =>
      let '(path', out', dotdot') := cleanStep rooted c rest out dotdot in
      cleanLoop fuel' rooted path' out' dotdot'
  end.

(** [filepath.Clean(path)] *)
Definition Clean (path : string) : string :=
  if String.eqb path "" then "."
  else
    let p := String.list_ascii_of_string path in
    let out :=
      match p with
      | c :: rest =>
          if IsPathSeparator c then cleanLoop (length p) true rest [Separator] 1
          else cleanLoop (length p) false p [] 0
      | [] => []
      end in
    (* Turn empty string into "." *)
    let out := match out with [] => ["."%char] | _ => out end in
    String.string_of_list_ascii (rev out).

(** [filepath.Join(a, b)]: the non-empty elements from the first
    non-empty one on, joined by the separator and cleaned. *)
Definition Join (a b : string) : string :=
  if negb (String.eqb a "") then Clean (a +:+ "/" +:+ b)
  else if negb (String.eqb b "") then Clean b
  else "".

End filepath.

(** ** Package homedir (mitchellh/go-homedir) *)
Module homedir.

Section Expand.

(** [homedir.Dir()] *)
Variable Dir : result string.

Definition Expand (path : string) : result string :=
  match path with
  | EmptyString => Ok path
  | String c rest =>
      if negb (Ascii.eqb c "~") then Ok path
      else
        match rest with
        | String c' _ =>
            if (negb (Ascii.eqb c' "/") && negb (Ascii.eqb c' "\"))%bool then
              Err (errorString "cannot expand user-specific home dir")
            else
              match Dir with
              | Err err => Err err
              | Ok dir => Ok (filepath.Join dir rest)
              end
        | EmptyString =>
            match Dir with
            | Err err => Err err
            | Ok dir => Ok (filepath.Join dir rest)
            end
        end
  end.

End Expand.

End homedir.

(** ** The path of the credentials file (subcommands.go, lines 187-191) *)

Section TunnelFilePath.

Variable homedir_Dir : result string.

(** subcommands.go, lines 187-191 *)
Definition tunnelFilePath (tunnelID : uuid.UUID) (directory : string) : result string :=
  let fileName := fmt.Sprintf "%v.json" [fmt.Str (uuid.String_ tunnelID)] in
  let filePath :=
    filepath.Clean (fmt.Sprintf "%s/%s" [fmt.Str directory; fmt.Str fileName]) in
  homedir.Expand homedir_Dir filePath.

End TunnelFilePath.


(** ** Definitions that the statements below use *)

(** The spec's pattern [^[_A-Za-z0-9][-_.A-Za-z0-9]*$], spelled out on
    character codes. *)
Definition between (lo hi c : ascii) : bool :=
  ((nat_of_ascii lo <=? nat_of_ascii c)%nat && (nat_of_ascii c <=? nat_of_ascii hi)%nat)%bool.

Definition alnum (c : ascii) : bool :=
  (between "A" "Z" c || between "a" "z" c || between "0" "9" c)%bool.

Definition nameStart (c : ascii) : bool := (Ascii.eqb c "_" || alnum c)%bool.

Definition nameChar (c : ascii) : bool :=
  (Ascii.eqb c "-" || Ascii.eqb c "_" || Ascii.eqb c "." || alnum c)%bool.

Fixpoint allChars (p : ascii → bool) (s : string) : bool :=
  match s with
  | EmptyString => true
  | String c tl => (p c && allChars p tl)%bool
  end.

(** [s] matches [^[_A-Za-z0-9][-_.A-Za-z0-9]*$]. *)
Definition matchesName (s : string) : Prop :=
  ∃ c tl, s = String c tl ∧ nameStart c = true ∧ allChars nameChar tl = true.

(** [s] matches the variant whose first character may also be [*]. *)
Definition matchesWildcardName (s : string) : Prop :=
  ∃ c tl, s = String c tl ∧ (Ascii.eqb c "*" || nameStart c)%bool = true
          ∧ allChars nameChar tl = true.

Definition NUL : ascii := "000"%char.

(** A stand-in for the IDNA profile on the names used as witnesses
    below: a name made of ASCII letters, digits, hyphens, underscores,
    asterisks and dots is returned as it is; anything else is refused. *)
Definition asciiOnly_ToASCII (s : string) : string * option error :=
  if allChars (fun c => (nameChar c || Ascii.eqb c "*")%bool) s then (s, None)
  else (s, Some (libraryError "idna" "disallowed rune")).

Definition dnsArgs : cli.Context :=
  cli.mkContext ∅ ["dns"; "my-tunnel"; "app.example.com"].

Definition dnsArgs_short : cli.Context := cli.mkContext ∅ ["dns"; "my-tunnel"].

Definition dnsArgs_bad : cli.Context := cli.mkContext ∅ ["dns"; "my-tunnel"; "not a host"].

Definition lbArgs : cli.Context :=
  cli.mkContext ∅ ["lb"; "my-tunnel"; "lb.example.com"; "pool-1"].

Definition lbArgs_badPool : cli.Context :=
  cli.mkContext ∅ ["lb"; "my-tunnel"; "lb.example.com"; "*pool"].

Definition homeWithCredentials : os.FS :=
  os.mkFS {["/home/u/.cloudflared/t.json" := os.mkFile "{}" 256]} 18 ∅.

Definition emptyHome : os.FS := os.mkFS ∅ 18 ∅.

(** The same file in a directory that the process may not search:
    every system call on the path fails with EACCES. *)
Definition closedHome : os.FS :=
  os.mkFS {["/home/u/.cloudflared/t.json" := os.mkFile "{}" 256]} 18
          {["/home/u/.cloudflared/t.json" := EACCES]}.

Definition whenNewYear : listOptions :=
  mkListOptions "" false "" (Some (time.mkTime 1609459200 0)) "" false "name" false.

(** Insertion from the right end of a sorted prefix, on the prefix in
    reverse: what one round of the inner loop of [insertionSort_func]
    computes. *)
Fixpoint insertFromEnd {A} (lt : A → A → bool) (x : A) (rp : list A) : list A :=
  match rp with
  | [] => [x]
  | y :: rp' => if lt x y then y :: insertFromEnd lt x rp' else x :: rp
  end.

(** The outer loop: the elements of [s] inserted one by one into the
    prefix, kept in reverse. *)
Fixpoint insertAll {A} (lt : A → A → bool) (rp s : list A) : list A :=
  match s with
  | [] => rev rp
  | x :: s' => insertAll lt (insertFromEnd lt x rp) s'
  end.

(** [less] with the result negated when [invert] is set. *)
Definition inverted {A} (invert : bool) (lt : A → A → bool) (x y : A) : bool :=
  if invert then negb (lt x y) else lt x y.

(** A run that also records whether [Less] was called. *)
Definition lessMarked {A} (lt : A → A → bool) (i j : nat) (st : list A * bool)
  : option (bool * (list A * bool)) :=
  x ← st.1 !! i; y ← st.1 !! j; Some (lt x y, (st.1, true)).

Definition swapMarked {A} (i j : nat) (st : list A * bool) : option (list A * bool) :=
  l ← sort.Swapper i j st.1; Some (l, st.2).

(** The steps make no comparison before they return. *)
Fixpoint straight (p : sort.steps) : bool :=
  match p with
  | sort.Return => true
  | sort.Less _ _ _ => false
  | sort.Swap _ _ k => straight k
  end.

(** What [cmp] returns in [listCommand], as a function of the two tunnels. *)
Definition listLess (sortBy : string) (ti tj : tunnelstore.Tunnel) : bool :=
  (listCommand_cmp sortBy ti tj (mkListVars [] false)).1.

Definition validListSortField (sortBy : string) : bool :=
  existsb (String.eqb sortBy) ["name"; "id"; "createdAt"; "deletedAt"; "numConnections"].

(** The same for [tunnelInfo]. *)
Definition infoLess (sortBy : string) (ci cj : tunnelstore.ActiveClient.t) : bool :=
  (tunnelInfo_cmp sortBy ci cj (mkInfoVars [] false)).1.

Definition validInfoSortField (sortBy : string) : bool :=
  existsb (String.eqb sortBy) ["id"; "createdAt"; "numConnections"; "version"].

Definition listWarning (sortBy : string) : string :=
  sortBy +:+ " is not a valid sort field. Valid sort fields are " +:+
  "name, id, createdAt, deletedAt, numConnections. Defaulting to 'name'.".

Definition infoWarning (sortBy : string) : string :=
  sortBy +:+ " is not a valid sort field. Valid sort fields are " +:+
  "id, startedAt, numConnections, version. Defaulting to 'name'.".

(** An invocation of [list] that gives only the sort flags. *)
Definition listSortedBy (sortBy : string) (invertSort : bool) : cli.Context :=
  listContext (mkListOptions "" false "" None "" false sortBy invertSort).

(** An invocation of [info] on a tunnel with the sort flags (lines 359-364). *)
Definition infoSortedBy (sortBy : string) (invertSort : bool) : cli.Context :=
  cli.mkContext
    (define ["output"; "o"] (cli.StringValue "")
    (define ["show-recently-disconnected"; "rd"] (cli.BoolValue false)
    (define ["sort-by"] (cli.StringValue sortBy)
    (define ["invert-sort"] (cli.BoolValue invertSort) ∅))))
    ["my-tunnel"].

Definition epoch : time.Time := time.mkTime 0 0.

Definition tunnelNamed (id : N) (name : string) : tunnelstore.Tunnel :=
  tunnelstore.mkTunnel id name epoch epoch [].

(** Seven tunnels that share a name. *)
Definition namesakes : list tunnelstore.Tunnel :=
  map (fun id => tunnelNamed id "web") [1; 2; 3; 4; 5; 6; 7]%N.

Definition namesakes_inverted : list tunnelstore.Tunnel :=
  map (fun id => tunnelNamed id "web") [1; 6; 5; 4; 3; 2; 7]%N.

(** Thirteen tunnels that share a name. *)
Definition thirteenNamesakes : list tunnelstore.Tunnel :=
  map (fun id => tunnelNamed id "web") [1; 2; 3; 4; 5; 6; 7; 8; 9; 10; 11; 12; 13]%N.

Definition thirteenNamesakes_inverted : list tunnelstore.Tunnel :=
  map (fun id => tunnelNamed id "web") [12; 11; 10; 9; 8; 1; 6; 5; 4; 3; 2; 13; 7]%N.

Definition threeTunnels : list tunnelstore.Tunnel :=
  [tunnelNamed 1 "web"; tunnelNamed 2 "api"; tunnelNamed 3 "db"].

Definition threeTunnels_sorted : list tunnelstore.Tunnel :=
  [tunnelNamed 2 "api"; tunnelNamed 3 "db"; tunnelNamed 1 "web"].

Definition connectorRunAt (id : N) (runAt : Z) : tunnelstore.ActiveClient.t :=
  tunnelstore.ActiveClient.mk id "2021.8.0" "linux_amd64" (time.mkTime runAt 0) [].

(** The spec's reading of [fmtConnections]: a connection counts unless
    it is pending reconnect and recently disconnected ones are not shown. *)
Definition counted (showRecentlyDisconnected : bool) (c : tunnelstore.Connection) : bool :=
  (negb (tunnelstore.IsPendingReconnect c) || showRecentlyDisconnected)%bool.

(** The number of counted connections at a colo. *)
Definition connectionsAt (colo : string) (showRecentlyDisconnected : bool)
    (connections : list tunnelstore.Connection) : nat :=
  length (filter (fun c => counted showRecentlyDisconnected c = true
                           ∧ tunnelstore.ColoName c = colo) connections).

(** "<count>x<colo>" *)
Definition coloEntry (count : nat) (colo : string) : string :=
  fmt.itoa (Z.of_nat count) +:+ "x" +:+ colo.

(** A connector has a connection that counts. *)
Definition hasCounted (showRecentlyDisconnected : bool) (c : tunnelstore.ActiveClient.t)
  : bool :=
  existsb (counted showRecentlyDisconnected) (tunnelstore.ActiveClient.Connections c).

(** The head of the connector list, with the tabs and line ends written out. *)
Definition connectionsListHeader (time_String : time.Time → string) (tunnelInfo : Info)
  : string :=
  "NAME:     " +:+ info_Name tunnelInfo +:+ newline +:+
  "ID:       " +:+ uuid.String_ (info_ID tunnelInfo) +:+ newline +:+
  "CREATED:  " +:+ time_String (info_CreatedAt tunnelInfo) +:+ newline +:+ newline.

Definition connectorsHeader : string :=
  "CONNECTOR ID" +:+ tab +:+ "CREATED" +:+ tab +:+ "ARCHITECTURE" +:+ tab +:+
  "VERSION" +:+ tab +:+ "ORIGIN IP" +:+ tab +:+ "EDGE" +:+ tab.

(** The row of a connector: its origin is that of its first connection. *)
Definition connectorRow (time_Format : time.Time → string → string)
    (c : tunnelstore.ActiveClient.t) (showRecentlyDisconnected : bool) : string :=
  uuid.String_ (tunnelstore.ActiveClient.ID c) +:+ tab +:+
  time_Format (tunnelstore.ActiveClient.RunAt c) RFC3339 +:+ tab +:+
  tunnelstore.ActiveClient.Arch c +:+ tab +:+
  tunnelstore.ActiveClient.Version c +:+ tab +:+
  default "" (tunnelstore.OriginIP <$> head (tunnelstore.ActiveClient.Connections c)) +:+ tab +:+
  fmtConnections (tunnelstore.ActiveClient.Connections c) showRecentlyDisconnected +:+ tab.

(** The usage errors of the commands. *)
Definition createUsage : error :=
  usageError (quoted "cloudflared tunnel create" +:+
              " requires exactly 1 argument, the name of tunnel to create.").
Definition deleteUsage : error :=
  usageError (quoted "cloudflared tunnel delete" +:+
              " requires at least 1 argument, the ID or name of the tunnel to delete.").
Definition runUsage_many : error :=
  usageError (quoted "cloudflared tunnel run" +:+
              " accepts only one argument, the ID or name of the tunnel to run.").
Definition runUsage_none : error :=
  usageError (quoted "cloudflared tunnel run" +:+
              " requires the ID or name of the tunnel to run as the last command line argument or in the configuration file.").
Definition cleanupUsage : error :=
  usageError (quoted "cloudflared tunnel cleanup" +:+
              " requires at least 1 argument, the IDs of the tunnels to cleanup connections.").
Definition routeUsage : error :=
  usageError (quoted "cloudflared tunnel route" +:+
              " requires the first argument to be the route type(dns or lb), followed by the ID or name of the tunnel").
Definition infoUsage : error :=
  usageError (quoted "cloudflared tunnel info" +:+
              " accepts exactly one argument, the ID or name of the tunnel to get info about.").

(** The tunnel reference that [runCommand] settles on. *)
Definition chosenTunnelRef (c : cli.Context) (config_TunnelID : string) : string :=
  if String.eqb (cli.Args_First c) "" then config_TunnelID else cli.Args_First c.

Definition hostnameWarning : string :=
  "The property `hostname` in your configuration is ignored because you configured a Named Tunnel in the property `tunnel` to run. Make sure to provision the routing (e.g. via `cloudflared tunnel route dns/lb`) or else your origin will not be reachable. You should remove the `hostname` property to avoid this warning.".



(** A file name: not empty, without a separator, not starting with a dot. *)
Definition fileNameLike (name : list ascii) : Prop :=
  match name with
  | c :: _ => c ≠ "."%char ∧ Forall (fun c => filepath.IsPathSeparator c = false) name
  | [] => False
  end.

(** The characters of a UUID in text form. *)
Definition uuidChar (c : ascii) : bool :=
  (Ascii.eqb c "-" || between "0" "9" c || between "a" "f" c)%bool.

(** The name of the credentials file of a tunnel. *)
Definition credentialsFileName (tunnelID : uuid.UUID) : string :=
  uuid.String_ tunnelID +:+ ".json".

Definition noTilde (c : ascii) : bool := negb (Ascii.eqb c "~").

(** What the loop of [Clean] keeps when the path is rooted: the leading
    separator, below which [dotdot] stops. *)
Definition kept (rooted : bool) (out : list ascii) (dotdot : nat) : Prop :=
  rooted = true → last out = Some filepath.Separator ∧ dotdot = 1%nat.

(** An account for the examples: the tunnel "my-tunnel" with ID 1 and two
    connectors; every call on it succeeds. *)
Definition notFound : error := libraryError "tunnelstore" "tunnel not found".

Definition myTunnelContext : subcommandContext :=
  mkSubcommandContext
    (fun _ => Ok [tunnelNamed 1 "my-tunnel"])
    (fun input => if String.eqb input "my-tunnel" then Ok 1%N else Err notFound)
    (Ok (fun _ => Ok [connectorRunAt 1 200; connectorRunAt 2 100])).

Definition myTunnelMethods : subcommandMethods :=
  mkSubcommandMethods
    (fun name _ => Ok (tunnelNamed 2 name))
    (fun inputs =>
       if forallb (String.eqb "my-tunnel") inputs then Ok (map (fun _ => 1%N) inputs)
       else Err notFound)
    (fun _ => None)
    (fun _ => None)
    (fun _ => None)
    (fun _ _ => Ok "Added CNAME app.example.com which will route to this tunnel").

Definition loggedIn (c : cli.Context) : result (subcommandContext * subcommandMethods) :=
  Ok (myTunnelContext, myTunnelMethods).

Definition noCertificate : error := libraryError "cert" "no origin certificate".

Definition loggedOut (c : cli.Context) : result (subcommandContext * subcommandMethods) :=
  Err noCertificate.

Definition invalidUUID : error := libraryError "uuid" "invalid UUID length".

(** The labels an iterator of package idna runs over, once they are split. *)
Definition labelsOf (l : idna.labelIter) : list string :=
  default (strings.Split (idna.orig l) ".") (idna.slice l).

(** What the body of a loop over the labels may do to the iterator:
    read the label and set it. *)
Definition reads (l l' : idna.labelIter) : Prop :=
  idna.orig l' = idna.orig l ∧ idna.i l' = idna.i l ∧
  idna.curStart l' = idna.curStart l ∧
  (idna.slice l' = None →
     idna.slice l = None ∧ (idna.curStart l ≤ idna.curEnd l')%nat) ∧
  length (labelsOf l') = length (labelsOf l).

(** Where a loop over the labels stands after [k] turns. *)
Definition turns (k : nat) (l : idna.labelIter) : Prop :=
  idna.i l = k ∧
  (idna.slice l = None → (k ≤ idna.curStart l)%nat) ∧
  (idna.slice l ≠ None → (length (labelsOf l) ≤ k)%nat → idna.done l = true) ∧
  (1 ≤ length (labelsOf l) ≤ S (String.length (idna.orig l)))%nat.

(** * Properties *)

(** ** Strings *)

Lemma append_empty (s : string) : s +:+ "" = s.
Proof.
  induction s as [|c s IH]; [done|].
  change (String c (s +:+ "") = String c s). by rewrite IH.
Qed.

(** ** Validators *)

Lemma nameRegex_eq :
  nameRegex =
  regexp.mkRegexp true
    [regexp.One [("_", "_"); ("a", "z"); ("A", "Z"); ("0", "9")]%char;
     regexp.Star [("-", "-"); ("_", "_"); (".", "."); ("a", "z"); ("A", "Z"); ("0", "9")]%char]
    true.
Proof. reflexivity. Qed.

Lemma hostNameRegex_eq :
  hostNameRegex =
  regexp.mkRegexp true
    [regexp.One [("*", "*"); ("_", "_"); ("a", "z"); ("A", "Z"); ("0", "9")]%char;
     regexp.Star [("-", "-"); ("_", "_"); (".", "."); ("a", "z"); ("A", "Z"); ("0", "9")]%char]
    true.
Proof. reflexivity. Qed.

Ltac each_ascii c := destruct c as [[] [] [] [] [] [] [] []]; reflexivity.

Lemma inClass_nameStart c :
  regexp.inClass [("_", "_"); ("a", "z"); ("A", "Z"); ("0", "9")]%char c = nameStart c.
Proof. each_ascii c. Qed.

Lemma inClass_wildcardStart c :
  regexp.inClass [("*", "*"); ("_", "_"); ("a", "z"); ("A", "Z"); ("0", "9")]%char c
  = (Ascii.eqb c "*" || nameStart c)%bool.
Proof. each_ascii c. Qed.

Lemma inClass_nameChar c :
  regexp.inClass
    [("-", "-"); ("_", "_"); (".", "."); ("a", "z"); ("A", "Z"); ("0", "9")]%char c
  = nameChar c.
Proof. each_ascii c. Qed.

(** A starred class followed by [$] takes the whole rest of the string. *)
Lemma matchHere_star_end cs s :
  regexp.matchHere [regexp.Star cs] true s = allChars (regexp.inClass cs) s.
Proof.
  induction s as [|c tl IH]; [reflexivity|].
  cbn [regexp.matchHere allChars] in *. rewrite IH.
  rewrite bool_decide_eq_false_2 by discriminate. reflexivity.
Qed.

Lemma allChars_ext p q s : (∀ c, p c = q c) → allChars p s = allChars q s.
Proof. intros E. induction s as [|c tl IH]; cbn; [done|]. by rewrite E, IH. Qed.

Lemma matchString_one_star first rest s :
  regexp.MatchString (regexp.mkRegexp true [regexp.One first; regexp.Star rest] true) s
  = match s with
    | String c tl => (regexp.inClass first c && allChars (regexp.inClass rest) tl)%bool
    | EmptyString => false
    end.
Proof.
  unfold regexp.MatchString. cbn [regexp.beginText regexp.prog regexp.endText].
  destruct s as [|c tl]; [reflexivity|].
  change (regexp.matchHere [regexp.One first; regexp.Star rest] true (String c tl))
    with (regexp.inClass first c && regexp.matchHere [regexp.Star rest] true tl)%bool.
  by rewrite matchHere_star_end.
Qed.

Lemma validateName_false_iff s : validateName s false = true ↔ matchesName s.
Proof.
  unfold validateName, matchesName. rewrite nameRegex_eq, matchString_one_star.
  destruct s as [|c tl].
  - split; [discriminate|]. intros (c & tl & E & _); discriminate.
  - rewrite inClass_nameStart, (allChars_ext _ nameChar) by apply inClass_nameChar.
    rewrite andb_true_iff. split.
    + intros [? ?]. by exists c, tl.
    + intros (c' & tl' & E & ? & ?). by simplify_eq.
Qed.

Lemma validateName_true_iff s : validateName s true = true ↔ matchesWildcardName s.
Proof.
  unfold validateName, matchesWildcardName. rewrite hostNameRegex_eq, matchString_one_star.
  destruct s as [|c tl].
  - split; [discriminate|]. intros (c & tl & E & _); discriminate.
  - rewrite inClass_wildcardStart, (allChars_ext _ nameChar) by apply inClass_nameChar.
    rewrite andb_true_iff. split.
    + intros [? ?]. by exists c, tl.
    + intros (c' & tl' & E & ? & ?). by simplify_eq.
Qed.

(** C5: [validateName s false] holds exactly when [s] matches
    [^[_A-Za-z0-9][-_.A-Za-z0-9]*$], and [validateName s true] exactly
    when [s] matches the variant that also allows a leading [*];
    "my_tunnel-1" is accepted and "-leading-dash" is rejected. *)
Theorem validateName_matches_pattern :
  (∀ s, validateName s false = true ↔ matchesName s) ∧
  (∀ s, validateName s true = true ↔ matchesWildcardName s) ∧
  validateName "my_tunnel-1" false = true ∧
  validateName "-leading-dash" false = false.
Proof.
  split; [apply validateName_false_iff|].
  split; [apply validateName_true_iff|].
  split; reflexivity.
Qed.

(** ** The IDNA profile *)

(** The loop of [adapt] ends because [delta] is small enough, with the
    fuel it is given. *)
Lemma adapt_loop_ends (fuel : nat) (delta k : Z) :
  0 ≤ delta < 2 ^ (Z.of_nat fuel + 1) →
  (idna.adapt_loop fuel delta k).1 ≤ (idna.base - idna.tmin) * idna.tmax ÷ 2.
Proof.
  change ((idna.base - idna.tmin) * idna.tmax ÷ 2) with 455.
  revert delta k. induction fuel as [|fuel IH]; intros delta k Hd; cbn [idna.adapt_loop];
    change ((idna.base - idna.tmin) * idna.tmax ÷ 2) with 455;
    destruct (Z.ltb_spec 455 delta) as [E|E]; cbn [fst]; try lia.
  apply IH. change (idna.base - idna.tmin) with 35.
  rewrite Z.quot_div_nonneg by lia.
  split; [apply Z.div_pos; lia|].
  apply Z.div_lt_upper_bound; [lia|].
  replace (Z.of_nat (S fuel) + 1) with (Z.succ (Z.of_nat fuel + 1)) in Hd by lia.
  rewrite Z.pow_succ_r in Hd by lia. lia.
Qed.

Lemma adapt_loop_fuel (delta k : Z) :
  0 ≤ delta →
  (idna.adapt_loop (Z.to_nat (Z.log2 delta)) delta k).1
  ≤ (idna.base - idna.tmin) * idna.tmax ÷ 2.
Proof.
  intros Hd. apply adapt_loop_ends.
  destruct (decide (delta = 0)) as [->|Hne]; [done|]. rewrite Z2Nat.id by apply Z.log2_nonneg.
  pose proof (Z.log2_spec delta). lia.
Qed.

Lemma Split_length (s : string) (sep : ascii) :
  (1 ≤ length (strings.Split s sep) ≤ S (String.length s))%nat.
Proof.
  induction s as [|x s IH]; cbn; [lia|].
  destruct (Ascii.eqb x sep); cbn; [lia|].
  destruct (strings.Split s sep); cbn in *; lia.
Qed.

Lemma label_reads (l : idna.labelIter) :
  idna.done l = false → reads l (idna.label l).2.
Proof.
  unfold idna.done, idna.label, reads, labelsOf. intros Hd%Nat.leb_gt.
  destruct (idna.slice l) as [sl|] eqn:Hs; cbn; rewrite ?Hs; [done|].
  repeat split; try done.
  destruct (strings.IndexByte _ _); lia.
Qed.

Lemma set_reads (l l' : idna.labelIter) (s : string) :
  reads l l' → reads l (idna.set l' s).
Proof.
  unfold reads, labelsOf, idna.set. intros (Ho & Hi & Hc & He & Hl). cbn.
  repeat split; try done. rewrite length_insert, <- Hl.
  by destruct (idna.slice l').
Qed.

Section Loops.

Variable U : idna.unicode.
Variable p : idna.Profile.

Lemma validate_reads (s : string) (l : idna.labelIter) (err : option error) :
  idna.done l = false → reads l (idna.validate U p s l err).1.
Proof.
  intros Hd. unfold idna.validate.
  pose proof (label_reads l Hd) as Hl. destruct (idna.label l) as [label l1].
  cbn [snd] in Hl.
  destruct (String.eqb label ""); [done|].
  destruct (strings.HasPrefix label idna.acePrefix); [|done].
  destruct (idna.decode U _); [|done]. by apply set_reads.
Qed.

Lemma toASCII_label_reads (l : idna.labelIter) (err : option error) :
  idna.done l = false → reads l (idna.toASCII_label U p l err).1.
Proof.
  intros Hd. unfold idna.toASCII_label.
  pose proof (label_reads l Hd) as Hl. destruct (idna.label l) as [label l1].
  cbn [snd] in Hl.
  destruct (negb (idna.ascii label)); [|done].
  destruct (idna.encode U label). by apply set_reads.
Qed.

Lemma next_turns (k : nat) (l l' : idna.labelIter) :
  idna.done l = false → turns k l → reads l l' →
  turns (S k) (idna.next l') ∧ idna.orig (idna.next l') = idna.orig l.
Proof.
  unfold turns, reads, idna.next, idna.done, labelsOf.
  intros Hd%Nat.leb_gt (Hi & Hnone & Hsome & Hlen) (Ho & Hi' & Hc & He & Hl).
  destruct (idna.slice l') as [sl|] eqn:Hs; cbn [default] in *; unfold id in *.
  - destruct (_ || _)%bool eqn:Hend; cbn; rewrite ?Hs, ?Ho; cbn.
    + repeat split; try done; try lia. intros _ _. apply Nat.leb_le. lia.
    + apply orb_false_iff in Hend as [Hend%Nat.leb_gt _].
      repeat split; try done; try lia.
  - destruct (He eq_refl) as [Hs' He']. specialize (Hnone Hs').
    pose proof (Split_length (idna.orig l) ".").
    destruct (_ && _)%bool eqn:Hend; cbn; rewrite ?Ho.
    + apply andb_true_iff in Hend as [Hend%Nat.eqb_eq _].
      repeat split; try done; lia.
    + repeat split; try done; lia.
Qed.

Section each.

Variable body : idna.labelIter → option error → idna.labelIter * option error.
Hypothesis body_reads : ∀ l err, idna.done l = false → reads l (body l err).1.

Lemma each_ends (fuel k : nat) (l : idna.labelIter) (err : option error) :
  turns k l → (S (String.length (idna.orig l)) ≤ fuel + k)%nat →
  idna.done (idna.each body fuel l err).1 = true ∧
  idna.orig (idna.each body fuel l err).1 = idna.orig l ∧
  length (labelsOf (idna.each body fuel l err).1) = length (labelsOf l).
Proof.
  revert k l err. induction fuel as [|fuel IH]; intros k l err Ht Hk.
  - cbn [idna.each]. destruct (idna.done l) eqn:Hd; [done|]. exfalso.
    destruct Ht as (Hi & Hnone & Hsome & Hlen).
    destruct (idna.slice l) eqn:Hs.
    + rewrite Hsome in Hd; [done|done|lia].
    + apply Nat.leb_gt in Hd. specialize (Hnone eq_refl). lia.
  - cbn [idna.each]. destruct (idna.done l) eqn:Hd; [done|].
    pose proof (body_reads l err Hd) as Hr.
    destruct (body l err) as [l' err']. cbn [fst] in Hr.
    destruct (next_turns k l l' Hd Ht Hr) as [Ht' Ho].
    destruct (IH (S k) (idna.next l') err' Ht') as (? & ? & Hl); [rewrite Ho; lia|].
    split; [done|]. split; [congruence|]. rewrite Hl.
    destruct Hr as (_ & _ & _ & _ & <-). unfold labelsOf, idna.next.
    destruct (idna.slice l'); [by destruct (_ || _)%bool|].
    cbn [default]. by destruct (_ && _)%bool.
Qed.

End each.

(** The two loops of [process] end because the iterator is done, with
    the fuel they are given. *)
Lemma process_loops_end (s : string) (err err' : option error) :
  let first := idna.each (idna.validate U p s) (S (String.length s))
                 (idna.mkLabelIter s None 0 0 0) err in
  idna.done first.1 = true ∧
  idna.done (idna.each (idna.toASCII_label U p) (S (String.length s))
               (idna.reset first.1) err').1 = true.
Proof.
  intros first.
  destruct (each_ends (idna.validate U p s) (validate_reads s) (S (String.length s)) 0
              (idna.mkLabelIter s None 0 0 0) err) as (Hd & Ho & Hl).
  { unfold turns, labelsOf. cbn. pose proof (Split_length s ".").
    repeat split; try done; lia. }
  { cbn. lia. }
  fold first in Hd, Ho, Hl. clearbody first. cbn [idna.orig] in Ho.
  split; [exact Hd|].
  pose proof (Split_length s ".") as Hsplit.
  apply (each_ends (idna.toASCII_label U p) toASCII_label_reads (S (String.length s)) 0).
  - unfold turns, labelsOf in *. cbn in *. rewrite Ho in Hl |- *.
    repeat split; lia.
  - unfold idna.reset. cbn [idna.orig]. rewrite Ho. lia.
Qed.

End Loops.

(** ** Hostnames and routes *)

(** Splits a specification by cases into its clauses and closes those
    that the case at hand decides. *)
Ltac route_cases :=
  repeat split; intros;
  repeat match goal with
         | H : ∃ _, _ |- _ => destruct H
         | H : _ ∧ _ |- _ => destruct H
         end;
  unfold NewDNSRoute, NewLBRoute in *;
  try done; try lia; try congruence; eauto.

Section RouteBuilderProperties.

Variable ToASCII : string → string * option error.

Lemma validateHostname_iff s aw :
  validateHostname ToASCII s aw = true ↔
  ∃ puny, ToASCII s = (puny, None) ∧ validateName puny aw = true.
Proof.
  unfold validateHostname. destruct (ToASCII s) as [puny err].
  rewrite andb_true_iff, bool_decide_eq_true. split.
  - intros [-> ?]. by exists puny.
  - intros (puny' & E & ?). by simplify_eq.
Qed.

Lemma expected_got (n m : nat) :
  fmt.Sprintf "Expected %d arguments, got %d" [fmt.Int (Z.of_nat n); fmt.Int (Z.of_nat m)]
  = "Expected " +:+ fmt.itoa (Z.of_nat n) +:+ " arguments, got " +:+ fmt.itoa (Z.of_nat m).
Proof.
  rewrite <- (append_empty (fmt.itoa (Z.of_nat m))). reflexivity.
Qed.

(** C7: [dnsRouteFromArg] returns a DNS route exactly when there are
    three positional arguments and the third is non-empty and passes
    [validateHostname] with the wildcard allowed.  With another number
    N of arguments it fails with the usage error "Expected 3 arguments,
    got N"; with three arguments and a hostname that does not validate
    it fails with an error that names the hostname. *)
Theorem dnsRouteFromArg_spec (c : cli.Context) (overwriteExisting : bool) :
  let hostname := cli.Args_Get c 2 in
  ((∃ r, dnsRouteFromArg ToASCII c overwriteExisting = Ok r) ↔
     cli.NArg c = 3%nat ∧ hostname ≠ "" ∧ validateHostname ToASCII hostname true = true) ∧
  (∀ r, dnsRouteFromArg ToASCII c overwriteExisting = Ok r →
        r = DNSRoute hostname overwriteExisting) ∧
  (cli.NArg c ≠ 3%nat →
     dnsRouteFromArg ToASCII c overwriteExisting
     = Err (usageError ("Expected 3 arguments, got " +:+ fmt.itoa (Z.of_nat (cli.NArg c))))) ∧
  (cli.NArg c = 2%nat →
     dnsRouteFromArg ToASCII c overwriteExisting
     = Err (usageError "Expected 3 arguments, got 2")) ∧
  (cli.NArg c = 3%nat → hostname = "" →
     dnsRouteFromArg ToASCII c overwriteExisting
     = Err (usageError "The third argument should be the hostname")) ∧
  (cli.NArg c = 3%nat → hostname ≠ "" → validateHostname ToASCII hostname true = false →
     dnsRouteFromArg ToASCII c overwriteExisting
     = Err (errorString (hostname +:+ " is not a valid hostname"))).
Proof.
  intros hostname. unfold dnsRouteFromArg, UsageError, Errorf.
  fold hostname. rewrite expected_got.
  destruct (Nat.eqb_spec (cli.NArg c) 3) as [En|En]; cbn [negb];
    [destruct (String.eqb_spec hostname "") as [Eh|Eh];
     [|destruct (validateHostname ToASCII hostname true) eqn:Ev; cbn [negb]]|];
    route_cases.
  match goal with H : cli.NArg c = 2%nat |- _ => rewrite H end. reflexivity.
Qed.

(** C8: [lbRouteFromArg] returns a load-balancer route exactly when
    there are four positional arguments, the third is non-empty and
    passes [validateHostname] with the wildcard allowed, and the fourth
    is non-empty and passes [validateName] without the wildcard;
    otherwise it fails with an error that tells the wrong count or
    which argument is at fault. *)
Theorem lbRouteFromArg_spec (c : cli.Context) :
  let lbName := cli.Args_Get c 2 in
  let lbPool := cli.Args_Get c 3 in
  ((∃ r, lbRouteFromArg ToASCII c = Ok r) ↔
     cli.NArg c = 4%nat ∧
     lbName ≠ "" ∧ validateHostname ToASCII lbName true = true ∧
     lbPool ≠ "" ∧ validateName lbPool false = true) ∧
  (∀ r, lbRouteFromArg ToASCII c = Ok r → r = LBRoute lbName lbPool) ∧
  (cli.NArg c ≠ 4%nat →
     lbRouteFromArg ToASCII c
     = Err (usageError ("Expected 4 arguments, got " +:+ fmt.itoa (Z.of_nat (cli.NArg c))))) ∧
  (cli.NArg c = 4%nat → lbName = "" →
     lbRouteFromArg ToASCII c
     = Err (usageError "The third argument should be the load balancer name")) ∧
  (cli.NArg c = 4%nat → lbName ≠ "" → validateHostname ToASCII lbName true = false →
     lbRouteFromArg ToASCII c
     = Err (errorString (lbName +:+ " is not a valid load balancer name"))) ∧
  (cli.NArg c = 4%nat → lbName ≠ "" → validateHostname ToASCII lbName true = true →
   lbPool = "" →
     lbRouteFromArg ToASCII c
     = Err (usageError "The fourth argument should be the pool name")) ∧
  (cli.NArg c = 4%nat → lbName ≠ "" → validateHostname ToASCII lbName true = true →
   lbPool ≠ "" → validateName lbPool false = false →
     lbRouteFromArg ToASCII c
     = Err (errorString (lbPool +:+ " is not a valid pool name"))).
Proof.
  intros lbName lbPool. unfold lbRouteFromArg, UsageError, Errorf.
  fold lbName lbPool. rewrite expected_got.
  destruct (Nat.eqb_spec (cli.NArg c) 4) as [En|En]; cbn [negb];
    [destruct (String.eqb_spec lbName "") as [Eh|Eh];
     [|destruct (validateHostname ToASCII lbName true) eqn:Ev; cbn [negb];
       [destruct (String.eqb_spec lbPool "") as [Ep|Ep];
        [|destruct (validateName lbPool false) eqn:Evp; cbn [negb]]|]]|];
    route_cases.
Qed.

End RouteBuilderProperties.

Section HostnameProfile.

Variable U : idna.unicode.

(** The [ToASCII] of the profile that [validateHostname] builds. *)
Local Abbreviation ToASCII :=
  (idna.ToASCII U (idna.New [idna.ValidateLabels true; idna.VerifyDNSLength true])).

(** C4: with the IDNA profile that validates labels and verifies DNS
    lengths, [validateHostname s allowWildcard] holds exactly when the
    transform to ASCII succeeds on [s] and [validateName] accepts its
    output under the same flag.  The transform leaves "*.example.com" as
    it is, so that name is accepted with the wildcard allowed and
    rejected without; it fails on "xn--something-invalid\x00", whose
    Punycode does not decode, so that name is rejected. *)
Theorem validateHostname_normalizes_then_validates :
  (∀ s aw, validateHostname ToASCII s aw = true ↔
           ∃ puny, ToASCII s = (puny, None) ∧ validateName puny aw = true) ∧
  (ToASCII "*.example.com" = ("*.example.com", None) ∧
   validateHostname ToASCII "*.example.com" true = true ∧
   validateHostname ToASCII "*.example.com" false = false) ∧
  ((ToASCII ("xn--something-invalid" +:+ String NUL "")).2 ≠ None ∧
   validateHostname ToASCII ("xn--something-invalid" +:+ String NUL "") true = false).
Proof.
  split; [intros s aw; apply validateHostname_iff|].
  split; [by vm_compute|]. split; [vm_compute; discriminate|by vm_compute].
Qed.

(** What the two options of the profile add to [validateName]: names
    that [validateName] accepts are rejected for a label that ends in a
    hyphen, for a label with hyphens in the third and fourth place, for
    an empty label inside the name and for a label of more than 63
    bytes; a dot at the end is let through. *)
Lemma validateHostname_stricter_than_validateName :
  Forall (fun s => validateName s true = true ∧ validateHostname ToASCII s true = false)
    ["a-.example.com"; "ab--cd.example.com"; "a..b";
     "a123456789a123456789a123456789a123456789a123456789a123456789a123.example.com"] ∧
  Forall (fun s => validateHostname ToASCII s true = true)
    ["example.com."; "a123456789a123456789a123456789a123456789a123456789a123456789a12.example.com"].
Proof.
  split; repeat constructor; by vm_compute.
Qed.

End HostnameProfile.

Lemma dnsRouteFromArg_spec_witness :
  dnsRouteFromArg asciiOnly_ToASCII dnsArgs true = Ok (DNSRoute "app.example.com" true) ∧
  dnsRouteFromArg asciiOnly_ToASCII dnsArgs_short true
  = Err (usageError "Expected 3 arguments, got 2") ∧
  dnsRouteFromArg asciiOnly_ToASCII dnsArgs_bad true
  = Err (errorString "not a host is not a valid hostname").
Proof.
  split; [|split].
  - destruct (dnsRouteFromArg_spec asciiOnly_ToASCII dnsArgs true) as (Hiff & Hr & _).
    destruct Hiff as [_ Hex].
    lazymatch type of Hex with
    | ?P → _ => assert (Hpre : P) by (repeat split; first [reflexivity|vm_compute; discriminate])
    end.
    destruct (Hex Hpre) as [r Er].
    rewrite Er. f_equal. apply Hr, Er.
  - destruct (dnsRouteFromArg_spec asciiOnly_ToASCII dnsArgs_short true)
      as (_ & _ & _ & H2 & _).
    apply H2. reflexivity.
  - destruct (dnsRouteFromArg_spec asciiOnly_ToASCII dnsArgs_bad true)
      as (_ & _ & _ & _ & _ & Hbad).
    apply Hbad; first [reflexivity|vm_compute; discriminate].
Defined.

Lemma lbRouteFromArg_spec_witness :
  lbRouteFromArg asciiOnly_ToASCII lbArgs = Ok (LBRoute "lb.example.com" "pool-1") ∧
  lbRouteFromArg asciiOnly_ToASCII lbArgs_badPool
  = Err (errorString "*pool is not a valid pool name").
Proof.
  split.
  - destruct (lbRouteFromArg_spec asciiOnly_ToASCII lbArgs) as (Hiff & Hr & _).
    destruct Hiff as [_ Hex].
    lazymatch type of Hex with
    | ?P → _ => assert (Hpre : P) by (repeat split; first [reflexivity|vm_compute; discriminate])
    end.
    destruct (Hex Hpre) as [r Er].
    rewrite Er. f_equal. apply Hr, Er.
  - destruct (lbRouteFromArg_spec asciiOnly_ToASCII lbArgs_badPool)
      as (_ & _ & _ & _ & _ & _ & Hbad).
    apply Hbad; first [reflexivity|vm_compute; discriminate].
Defined.

(** ** The credential writer *)

Section CredentialWriterProperties.

Variable Credentials : Type.
Variable json_Marshal : Credentials → result string.

(** C9, as the code has it: when [os.Stat] finds a file at the path
    (it returns the file and no error), the writer fails with the error
    "<path> already exists" and leaves the file system, and with it the
    file, as it was: nothing is written. *)
Theorem writeTunnelCredentials_refuses_existing
    (filePath : string) (credentials : Credentials) (fs : os.FS) (f : os.file) :
  os.Stat filePath fs = Ok f →
  writeTunnelCredentials Credentials json_Marshal filePath credentials fs
  = (fs, Some (errorString (filePath +:+ " already exists"))) ∧
  os.files (fst (writeTunnelCredentials Credentials json_Marshal filePath credentials fs))
    !! filePath = Some f.
Proof.
  intros Hstat. unfold writeTunnelCredentials. rewrite Hstat. cbn.
  split; [reflexivity|].
  unfold os.Stat in Hstat.
  destruct (os.faults fs !! filePath); [discriminate|].
  destruct (os.files fs !! filePath); by simplify_eq.
Qed.

(** When [os.Stat] fails for another reason than a missing file, its
    error is returned and nothing is written. *)
Lemma writeTunnelCredentials_stat_error
    (filePath : string) (credentials : Credentials) (fs : os.FS) (e : error) :
  os.Stat filePath fs = Err e → os.IsNotExist (Some e) = false →
  writeTunnelCredentials Credentials json_Marshal filePath credentials fs = (fs, Some e).
Proof.
  intros Hstat Hne. unfold writeTunnelCredentials. rewrite Hstat. cbn [err_of].
  by rewrite Hne.
Qed.

(** C10, as the code has it: on a path where no file exists the writer
    hands the JSON of the credentials to [ioutil.WriteFile] and returns
    what the write returns, its error included.  The permission it asks
    for is decimal 400, that is octal 0620, not 0400: where the write
    succeeds the file has the bits of 0620 that the umask leaves, under
    the umask 022 the mode 0600, which lets the owner write. *)
Theorem writeTunnelCredentials_fresh_path
    (filePath : string) (credentials : Credentials) (fs : os.FS) (body : string) :
  os.IsNotExist (err_of (os.Stat filePath fs)) = true →
  json_Marshal credentials = Ok body →
  writeTunnelCredentials Credentials json_Marshal filePath credentials fs
  = os.WriteFile filePath body 400 fs ∧
  400 = 6 * 64 + 2 * 8 + 0 ∧
  (os.faults fs !! filePath = None →
     os.WriteFile filePath body 400 fs
     = (os.mkFS (<[filePath := os.mkFile body (Z.land 400 (Z.lnot (os.umask fs)))]>
                   (os.files fs))
                (os.umask fs) (os.faults fs),
        None) ∧
     (os.umask fs = 2 * 8 + 2 →
        os.files (fst (writeTunnelCredentials Credentials json_Marshal
                         filePath credentials fs)) !! filePath
        = Some (os.mkFile body (6 * 64)))) ∧
  (∀ e, os.faults fs !! filePath = Some e →
        os.WriteFile filePath body 400 fs = (fs, Some (PathError "open" filePath e))).
Proof.
  intros Hfresh Hjson.
  assert (writeTunnelCredentials Credentials json_Marshal filePath credentials fs
          = os.WriteFile filePath body 400 fs) as Hwrite.
  { unfold writeTunnelCredentials. by rewrite Hfresh, Hjson. }
  split; [exact Hwrite|]. split; [reflexivity|]. split.
  - intros Hfault. rewrite Hwrite.
    unfold os.Stat in Hfresh. rewrite Hfault in Hfresh.
    unfold os.WriteFile. rewrite Hfault.
    destruct (os.files fs !! filePath) as [f|] eqn:Hfile; [discriminate|].
    split; [reflexivity|]. cbn. intros ->. by rewrite lookup_insert_eq.
  - intros e Hfault. unfold os.WriteFile. by rewrite Hfault.
Qed.

End CredentialWriterProperties.

Lemma writeTunnelCredentials_refuses_existing_witness :
  writeTunnelCredentials string Ok "/home/u/.cloudflared/t.json" "{new}" homeWithCredentials
  = (homeWithCredentials,
     Some (errorString "/home/u/.cloudflared/t.json already exists")).
Proof.
  apply (writeTunnelCredentials_refuses_existing string Ok
           "/home/u/.cloudflared/t.json" "{new}" homeWithCredentials (os.mkFile "{}" 256)).
  reflexivity.
Defined.

(** C9 as the claim states it, for every path at which a file exists,
    does not hold: the writer learns of the file through [os.Stat]
    alone.  Where the file is in a directory that may not be searched,
    [os.Stat] fails with EACCES, which is not "not exist", and the
    writer returns that error, not "<path> already exists". *)
Lemma writeTunnelCredentials_existing_file_unseen :
  os.files closedHome !! "/home/u/.cloudflared/t.json" = Some (os.mkFile "{}" 256) ∧
  writeTunnelCredentials string Ok "/home/u/.cloudflared/t.json" "{new}" closedHome
  = (closedHome, Some (PathError "stat" "/home/u/.cloudflared/t.json" EACCES)) ∧
  (writeTunnelCredentials string Ok "/home/u/.cloudflared/t.json" "{new}" closedHome).2
  ≠ Some (errorString "/home/u/.cloudflared/t.json already exists").
Proof.
  split; [reflexivity|]. split; [reflexivity|]. cbn. discriminate.
Qed.

Lemma writeTunnelCredentials_fresh_path_witness :
  os.files (fst (writeTunnelCredentials string Ok "/home/u/.cloudflared/t.json" "{new}"
                   emptyHome)) !! "/home/u/.cloudflared/t.json"
  = Some (os.mkFile "{new}" 384).
Proof.
  destruct (writeTunnelCredentials_fresh_path string Ok
              "/home/u/.cloudflared/t.json" "{new}" emptyHome "{new}")
    as (_ & _ & Hcreated & _); [reflexivity|reflexivity|].
  destruct Hcreated as [_ Hmode]; [reflexivity|].
  apply Hmode. reflexivity.
Defined.

(** ** The filter of the list command *)

Section ListFilterProperties.

Variable algorithm : nat → sort.steps.
Variable uuid_Parse : string → result uuid.UUID.
Variable newSubcommandContext : cli.Context → result subcommandContext.

Lemma listContext_when (o : listOptions) :
  cli.Timestamp (listContext o) "when" = opt_when o ∧
  cli.Timestamp (listContext o) "w" = opt_when o.
Proof. split; reflexivity. Qed.

(** The handler asks for a flag named "time"; the command has none. *)
Lemma listContext_time (o : listOptions) :
  cli.Timestamp (listContext o) "time" = None.
Proof. reflexivity. Qed.

Lemma listCommand_filter_existedAt (o : listOptions) (f : tunnelstore.Filter) :
  listCommand_filter uuid_Parse (listContext o) = Ok f →
  tunnelstore.byExistedAt f = None.
Proof.
  unfold listCommand_filter. rewrite listContext_time.
  repeat match goal with
         | |- context [if ?b then _ else _] => destruct b
         | |- context [match uuid_Parse ?s with _ => _ end] => destruct (uuid_Parse s)
         end; intros [= <-]; reflexivity.
Qed.

(** C2, as the code has it: with [--when] set to [T] the context holds
    [T] under "when", but the filter that [listCommand] builds and
    hands to the listing call carries no existed-at predicate. *)
Theorem listCommand_ignores_when (o : listOptions) (T : time.Time) :
  opt_when o = Some T →
  cli.Timestamp (listContext o) "when" = Some T ∧
  (∀ f, listCommand_filter uuid_Parse (listContext o) = Ok f →
        tunnelstore.byExistedAt f = None) ∧
  (∀ out f, listCommand algorithm uuid_Parse newSubcommandContext (listContext o) = Some out →
            listed out = Some f → tunnelstore.byExistedAt f = None) ∧
  (opt_id o = "" →
     listCommand_filter uuid_Parse (listContext o)
     = Ok (tunnelstore.mkFilter (negb (opt_showDeleted o))
             (if String.eqb (opt_name o) "" then None else Some (opt_name o))
             None None)).
Proof.
  intros Hwhen. split; [by rewrite (proj1 (listContext_when o))|].
  split; [apply listCommand_filter_existedAt|]. split.
  - intros out f. unfold listCommand.
    pose proof (listCommand_filter_existedAt o) as Hf.
    destruct (newSubcommandContext (listContext o)) as [sc|e];
      [|intros [= <-]; cbn; discriminate].
    destruct (listCommand_filter uuid_Parse (listContext o)) as [flt|e];
      [|intros [= <-]; cbn; discriminate].
    specialize (Hf flt eq_refl).
    destruct (sc_list sc flt) as [ts|e];
      [|intros [= <-]; cbn; intros [= <-]; exact Hf].
    destruct (listCommand_sort algorithm (listContext o) ts) as [[ts' log]|];
      [|discriminate]. cbn.
    repeat match goal with
           | |- context [if ?b then _ else _] => destruct b
           | |- context [renderOutput ?x ?y] => destruct (renderOutput x y)
           end; intros [= <-]; cbn; intros [= <-]; exact Hf.
  - intros Hid. unfold listCommand_filter. rewrite listContext_time.
    change (cli.String_ (listContext o) "id") with (opt_id o).
    change (cli.String_ (listContext o) "name") with (opt_name o).
    change (cli.Bool (listContext o) "show-deleted") with (opt_showDeleted o).
    rewrite Hid. cbn.
    destruct (opt_showDeleted o), (String.eqb (opt_name o) ""); reflexivity.
Qed.

End ListFilterProperties.

Lemma listCommand_ignores_when_witness :
  listCommand_filter (fun s => Err (libraryError "uuid" "invalid UUID length"))
    (listContext whenNewYear)
  = Ok (tunnelstore.mkFilter true None None None).
Proof.
  destruct (listCommand_ignores_when sort.shortSlice
              (fun s => Err (libraryError "uuid" "invalid UUID length"))
              (fun _ => Err (libraryError "cert" "no origin certificate"))
              whenNewYear (time.mkTime 1609459200 0))
    as (_ & _ & _ & Hfilter); [reflexivity|].
  apply Hfilter. reflexivity.
Defined.

(** ** Package sort: running an algorithm *)

Section RunOnLists.

Context {A : Type}.
Variable lt : A → A → bool.

Local Abbreviation runList := (sort.run (sort.lessBy lt) sort.Swapper).

Lemma Swapper_Some (i j : nat) (l : list A) :
  (i < length l)%nat → (j < length l)%nat →
  ∃ l', sort.Swapper i j l = Some l' ∧ l' ≡ₚ l ∧ length l' = length l.
Proof.
  intros Hi Hj. unfold sort.Swapper.
  destruct (lookup_lt_is_Some_2 l i Hi) as [x Hx].
  destruct (lookup_lt_is_Some_2 l j Hj) as [y Hy].
  rewrite Hx, Hy. cbn. eexists. split; [reflexivity|]. split.
  - by apply Permutation_insert_swap.
  - by rewrite !length_insert.
Qed.

Lemma lessBy_Some (i j : nat) (l : list A) (x y : A) :
  l !! i = Some x → l !! j = Some y → sort.lessBy lt i j l = Some (lt x y, l).
Proof. intros Hx Hy. unfold sort.lessBy. by rewrite Hx, Hy. Qed.

Lemma Swapper_adjacent (p : list A) (x y : A) (s : list A) :
  sort.Swapper (S (length p)) (length p) (p ++ y :: x :: s) = Some (p ++ x :: y :: s).
Proof.
  unfold sort.Swapper.
  replace ((p ++ y :: x :: s) !! S (length p)) with (Some x).
  2:{ symmetry. rewrite lookup_app_r by lia.
      replace (S (length p) - length p)%nat with 1%nat by lia. reflexivity. }
  rewrite list_lookup_middle by reflexivity. cbn.
  f_equal.
  rewrite (insert_app_r_alt p _ (length p)) by lia.
  rewrite Nat.sub_diag. cbn.
  rewrite (insert_app_r_alt p _ (S (length p))) by lia.
  replace (S (length p) - length p)%nat with 1%nat by lia. reflexivity.
Qed.

Lemma lessBy_adjacent (p : list A) (x y : A) (s : list A) :
  sort.lessBy lt (S (length p)) (length p) (p ++ y :: x :: s)
  = Some (lt x y, p ++ y :: x :: s).
Proof.
  unfold sort.lessBy.
  replace ((p ++ y :: x :: s) !! S (length p)) with (Some x).
  2:{ symmetry. rewrite lookup_app_r by lia.
      replace (S (length p) - length p)%nat with 1%nat by lia. reflexivity. }
  rewrite list_lookup_middle by reflexivity. reflexivity.
Qed.

(** One round of the inner loop moves [x] left past the elements it is
    less than. *)
Lemma run_insertionSort_inner (k : sort.steps) (x : A) (rp s : list A) :
  runList (sort.insertionSort_inner 0 (length rp) k) (rev rp ++ x :: s)
  = runList k (rev (insertFromEnd lt x rp) ++ s).
Proof.
  revert s. induction rp as [|y rp IH]; intros s; [reflexivity|].
  cbn [length sort.insertionSort_inner Nat.ltb Nat.leb sort.run].
  cbn [rev insertFromEnd]. rewrite <- app_assoc. cbn [app].
  rewrite <- (length_rev rp), lessBy_adjacent. cbn.
  destruct (lt x y).
  - cbn [sort.run]. rewrite Swapper_adjacent. cbn.
    rewrite length_rev, IH. cbn [rev]. by rewrite <- app_assoc.
  - cbn [rev]. by rewrite <- !app_assoc.
Qed.

Lemma length_insertFromEnd (x : A) (rp : list A) :
  length (insertFromEnd lt x rp) = S (length rp).
Proof. induction rp as [|y rp IH]; cbn; [done|]. destruct (lt x y); cbn; lia. Qed.

Lemma run_insertionSort_outer (k : sort.steps) (rp s : list A) :
  runList (sort.insertionSort_outer 0 (length rp) (length s) k) (rev rp ++ s)
  = runList k (insertAll lt rp s).
Proof.
  revert rp. induction s as [|x s IH]; intros rp.
  - cbn. by rewrite app_nil_r.
  - cbn [length sort.insertionSort_outer insertAll].
    rewrite run_insertionSort_inner.
    rewrite <- (length_insertFromEnd x rp). apply IH.
Qed.

Lemma run_insertionSort_func (l : list A) :
  runList (sort.insertionSort_func 0 (length l) sort.Return) l
  = Some (match l with [] => [] | x :: s => insertAll lt [x] s end).
Proof.
  unfold sort.insertionSort_func. destruct l as [|x s]; [reflexivity|].
  cbn [length]. replace (S (length s) - (0 + 1))%nat with (length s) by lia.
  apply (run_insertionSort_outer sort.Return [x] s).
Qed.

(** The Shell pass only swaps, within the slice. *)
Lemma run_shellPass (k : sort.steps) (n i : nat) (l : list A) :
  (6 ≤ i)%nat → (i + n ≤ length l)%nat →
  ∃ l', runList (sort.shellPass i n k) l = runList k l' ∧ l' ≡ₚ l.
Proof.
  revert i l. induction n as [|n IH]; intros i l Hi Hn; [by exists l|].
  cbn [sort.shellPass sort.run].
  destruct (lookup_lt_is_Some_2 l i ltac:(lia)) as [x Hx].
  destruct (lookup_lt_is_Some_2 l (i - 6) ltac:(lia)) as [y Hy].
  rewrite (lessBy_Some _ _ _ _ _ Hx Hy). cbn.
  destruct (lt x y).
  - cbn [sort.run].
    destruct (Swapper_Some i (i - 6) l ltac:(lia) ltac:(lia)) as (l1 & -> & Hp & Hl).
    cbn. destruct (IH (S i) l1 ltac:(lia) ltac:(lia)) as (l' & -> & Hp').
    exists l'. split; [done|]. by rewrite Hp'.
  - destruct (IH (S i) l ltac:(lia) ltac:(lia)) as (l' & -> & Hp').
    by exists l'.
Qed.

(** What [shortSlice] leaves: insertion sort of some arrangement of the
    slice. *)
Lemma run_shortSlice (l : list A) :
  ∃ l', sort.sortBy sort.shortSlice lt l
        = Some (match l' with [] => [] | x :: s => insertAll lt [x] s end)
        ∧ l' ≡ₚ l.
Proof.
  unfold sort.sortBy, sort.Slice, sort.shortSlice, sort.quickSort_func_short.
  rewrite Nat.sub_0_r.
  destruct (Nat.ltb_spec 1 (length l)) as [Hlen|Hlen].
  - destruct (Nat.le_gt_cases 6 (length l)) as [H6|H6].
    + destruct (run_shellPass (sort.insertionSort_func 0 (length l) sort.Return)
                  (length l - (0 + 6)) (0 + 6) l ltac:(lia) ltac:(lia))
        as (l' & -> & Hp).
      exists l'. split; [|done].
      rewrite <- (Permutation_length Hp). apply run_insertionSort_func.
    + replace (length l - (0 + 6))%nat with 0%nat by lia.
      exists l. split; [|done]. apply run_insertionSort_func.
  - exists l. split; [|done].
    destruct l as [|x [|y l]]; [reflexivity|reflexivity|cbn in Hlen; lia].
Qed.

End RunOnLists.

(** ** Pairwise properties and sortedness *)

Section Pairwise.

Context {A : Type}.
Implicit Types (P Q : A → A → Prop) (l : list A).

Lemma pairwise_impl P Q l :
  (∀ x y, P x y → P y x → Q x y) → sort.pairwise P l → sort.pairwise Q l.
Proof.
  intros HPQ. induction l as [|x l IH]; [done|].
  cbn. intros [Hx Hl]. split; [|by apply IH].
  eapply Forall_impl; [exact Hx|]. intros y [? ?]. split; by apply HPQ.
Qed.

Lemma pairwise_Permutation P l l' :
  l ≡ₚ l' → sort.pairwise P l → sort.pairwise P l'.
Proof.
  induction 1 as [|x l l' Hp IH|x y l|l l' l'' _ IH1 _ IH2]; cbn.
  - done.
  - intros [Hx Hl]. split; [by rewrite <- Hp|by apply IH].
  - intros [Hy [Hx Hl]]. apply Forall_cons in Hy as [[Hyx Hxy] Hy].
    repeat split; try done. by constructor.
  - intros. by apply IH2, IH1.
Qed.

Lemma pairwise_middle P (p s : list A) x :
  sort.pairwise P (p ++ x :: s) → Forall (P x) p.
Proof.
  induction p as [|y p IH]; cbn; [constructor|].
  intros [Hy Hp]. apply Forall_app in Hy as [_ Hy].
  apply Forall_cons in Hy as [[_ Hxy] _]. constructor; [done|by apply IH].
Qed.

Lemma pairwise_NoDup P l :
  NoDup l → (∀ x y, x ≠ y → P x y) → sort.pairwise P l.
Proof.
  intros Hnd HP. induction Hnd as [|x l Hx _ IH]; [done|].
  cbn. split; [|done]. apply Forall_forall. intros y Hy.
  assert (x ≠ y) by (intros ->; done). split; by apply HP.
Qed.

Lemma StronglySorted_rev (R : relation A) l :
  StronglySorted (flip R) l → StronglySorted R (rev l).
Proof.
  induction 1 as [|x l _ IH Hx]; cbn; [constructor|].
  apply StronglySorted_app_2; [|done|repeat constructor].
  intros a b Ha Hb. apply list_elem_of_singleton in Hb as ->.
  rewrite Forall_forall in Hx. apply Hx.
  apply list_elem_of_In. apply in_rev. by apply list_elem_of_In.
Qed.

Lemma StronglySorted_rev_flip (R : relation A) l :
  StronglySorted R l → StronglySorted (flip R) (rev l).
Proof.
  intros H. apply (StronglySorted_rev (flip R)).
  by replace (flip (flip R)) with R by done.
Qed.

End Pairwise.

(** ** The insertion routine sorts *)

Section InsertionSorts.

Context {A : Type}.
Variable lt : A → A → bool.
Variable R : relation A.
Context `{!StrictOrder R}.

Lemma insertFromEnd_Permutation (x : A) (rp : list A) :
  insertFromEnd lt x rp ≡ₚ x :: rp.
Proof.
  induction rp as [|y rp IH]; cbn; [done|].
  destruct (lt x y); [|done]. by rewrite IH, Permutation_swap.
Qed.

Lemma insertAll_Permutation (rp s : list A) : insertAll lt rp s ≡ₚ rp ++ s.
Proof.
  revert rp. induction s as [|x s IH]; intros rp; cbn.
  - rewrite app_nil_r. symmetry. apply Permutation_rev.
  - rewrite IH, insertFromEnd_Permutation. cbn. apply Permutation_middle.
Qed.

Lemma insertFromEnd_sorted (x : A) (rp : list A) :
  StronglySorted (flip R) rp → Forall (sort.decides lt R x) rp →
  StronglySorted (flip R) (insertFromEnd lt x rp).
Proof.
  induction 1 as [|y rp Hrp IH Hy]; cbn; intros Hd; [repeat constructor|].
  apply Forall_cons in Hd as [[Hlt Htot] Hd].
  destruct (lt x y) eqn:E.
  - constructor; [by apply IH|].
    rewrite insertFromEnd_Permutation. constructor; [|done].
    unfold flip. by apply Hlt.
  - assert (R y x) as Hyx.
    { destruct Htot as [Hxy|]; [|done]. apply Hlt in Hxy. congruence. }
    constructor; [by constructor|]. constructor; [done|].
    eapply Forall_impl; [exact Hy|]. unfold flip. intros z Hz. by transitivity y.
Qed.

Lemma insertAll_sorted (rp s : list A) :
  StronglySorted (flip R) rp → sort.pairwise (sort.decides lt R) (rp ++ s) →
  StronglySorted R (insertAll lt rp s).
Proof.
  revert rp. induction s as [|x s IH]; intros rp Hrp Hpw; cbn.
  - by apply StronglySorted_rev.
  - apply IH.
    + apply insertFromEnd_sorted; [done|]. by eapply pairwise_middle.
    + eapply pairwise_Permutation; [|exact Hpw].
      rewrite insertFromEnd_Permutation. cbn. symmetry. apply Permutation_middle.
Qed.

End InsertionSorts.

(** The routine for short ranges, run on slices of any length, meets the
    contract of [sort.Slice]. *)
Lemma shortSlice_Sorts : sort.Sorts sort.shortSlice.
Proof.
  split.
  - intros A lt l. destruct (run_shortSlice lt l) as (l' & -> & Hp).
    eexists. split; [reflexivity|].
    destruct l' as [|x s]; [done|]. by rewrite insertAll_Permutation.
  - intros [|[|n]] Hn; [reflexivity|reflexivity|lia].
  - intros A lt R l l1 HR Hpw. destruct (run_shortSlice lt l) as (l' & -> & Hp).
    intros [= <-]. destruct l' as [|x s]; [constructor|].
    apply insertAll_sorted; [done|repeat constructor|].
    eapply pairwise_Permutation; [symmetry; exact Hp|done].
Qed.

(** ** What follows from the contract of sort.Slice *)

Section Marked.

Context {A : Type}.
Variable lt : A → A → bool.

Local Abbreviation runList := (sort.run (sort.lessBy lt) sort.Swapper).
Local Abbreviation runMarked := (sort.run (lessMarked lt) swapMarked).

Lemma runMarked_fst (p : sort.steps) (l : list A) (b : bool) :
  fst <$> runMarked p (l, b) = runList p l.
Proof.
  revert l b. induction p as [|i j k IH|i j k IH]; intros l b; cbn.
  - reflexivity.
  - unfold lessMarked, sort.lessBy. cbn.
    destruct (l !! i) as [x|]; [|reflexivity]. cbn.
    destruct (l !! j) as [y|]; [|reflexivity]. cbn. apply IH.
  - unfold swapMarked. cbn.
    destruct (sort.Swapper i j l) as [l'|]; [|reflexivity]. cbn. apply IH.
Qed.

Lemma runMarked_true (p : sort.steps) (l l' : list A) (b' : bool) :
  runMarked p (l, true) = Some (l', b') → b' = true.
Proof.
  revert l. induction p as [|i j k IH|i j k IH]; intros l; cbn.
  - by intros [= _ <-].
  - unfold lessMarked. cbn.
    destruct (l !! i) as [x|]; [|done]. cbn.
    destruct (l !! j) as [y|]; [|done]. cbn. apply IH.
  - unfold swapMarked. cbn.
    destruct (sort.Swapper i j l) as [l1|]; [|done]. cbn. apply IH.
Qed.

Lemma runMarked_compares (p : sort.steps) (l l' : list A) (b b' : bool) :
  straight p = false → runMarked p (l, b) = Some (l', b') → b' = true.
Proof.
  revert l. induction p as [|i j k IH|i j k IH]; intros l; cbn.
  - done.
  - intros _. unfold lessMarked. cbn.
    destruct (l !! i) as [x|]; [|done]. cbn.
    destruct (l !! j) as [y|]; [|done]. cbn. apply runMarked_true.
  - intros Hs. unfold swapMarked. cbn.
    destruct (sort.Swapper i j l) as [l1|]; [|done]. cbn. by apply IH.
Qed.

End Marked.

Lemma straight_run {A} (lt1 lt2 : A → A → bool) (p : sort.steps) (l : list A) :
  straight p = true →
  sort.run (sort.lessBy lt1) sort.Swapper p l = sort.run (sort.lessBy lt2) sort.Swapper p l.
Proof.
  revert l. induction p as [|i j k IH|i j k IH]; intros l; cbn; [done|done|].
  intros Hs. destruct (sort.Swapper i j l) as [l1|]; [|done]. cbn. by apply IH.
Qed.

Section Contract.

Variable algorithm : nat → sort.steps.
Hypothesis algorithm_sorts : sort.Sorts algorithm.

(** On two elements or more the algorithm cannot do without a comparison. *)
Lemma sorts_compares (n : nat) : (2 ≤ n)%nat → straight (algorithm n) = false.
Proof.
  intros Hn. destruct (straight (algorithm n)) eqn:Hs; [exfalso|done].
  destruct (sort.sorts_permutes _ algorithm_sorts nat Nat.ltb (seq 0 n)) as (l1 & H1 & Hp).
  assert (sort.sortBy algorithm (fun x y => Nat.ltb y x) (seq 0 n) = Some l1) as H2.
  { rewrite <- H1. unfold sort.sortBy, sort.Slice. rewrite length_seq.
    by apply straight_run. }
  assert (StronglySorted Nat.lt l1) as S1.
  { eapply (sort.sorts_sorted _ algorithm_sorts); [apply _| |exact H1].
    apply pairwise_NoDup; [apply NoDup_seq|].
    intros x y Hxy. split; [apply Nat.ltb_lt|lia]. }
  assert (StronglySorted (flip Nat.lt) l1) as S2.
  { eapply (sort.sorts_sorted _ algorithm_sorts); [apply _| |exact H2].
    apply pairwise_NoDup; [apply NoDup_seq|].
    intros x y Hxy. split; [apply Nat.ltb_lt|unfold flip; lia]. }
  apply Permutation_length in Hp. rewrite length_seq in Hp.
  destruct l1 as [|a [|b l1]]; cbn in Hp; [lia|lia|].
  apply StronglySorted_cons in S1 as [S1 _], S2 as [S2 _].
  apply Forall_cons in S1 as [S1 _], S2 as [S2 _]. unfold flip in S2. lia.
Qed.

Context {A : Type}.
Variable lt : A → A → bool.
Variable R : relation A.
Context `{!StrictOrder R}.

(** Sorting, then sorting what comes out with the comparison negated,
    leaves the exact reverse when no two elements are tied. *)
Lemma sorted_then_inverted (l : list A) :
  sort.pairwise (sort.decides lt R) l →
  ∃ up, sort.sortBy algorithm lt l = Some up ∧ up ≡ₚ l ∧ StronglySorted R up ∧
        sort.sortBy algorithm (inverted true lt) up = Some (rev up).
Proof.
  intros Hpw.
  destruct (sort.sorts_permutes _ algorithm_sorts A lt l) as (up & Hup & Hp).
  exists up. split; [done|]. split; [done|].
  assert (StronglySorted R up) as Sup
    by (eapply (sort.sorts_sorted _ algorithm_sorts); eauto).
  split; [done|].
  destruct (sort.sorts_permutes _ algorithm_sorts A (inverted true lt) up)
    as (down & Hdown & Hp').
  rewrite Hdown. f_equal.
  assert (StronglySorted (flip R) down) as Sdown.
  { eapply (sort.sorts_sorted _ algorithm_sorts); [apply _| |exact Hdown].
    eapply pairwise_impl; [|eapply pairwise_Permutation; [symmetry; exact Hp|exact Hpw]].
    intros x y [Hxy Htot] [Hyx _]. unfold inverted, flip. split; [|tauto].
    rewrite negb_true_iff. split.
    - intros Hf. destruct Htot as [HR|]; [|done]. apply Hxy in HR. congruence.
    - intros HR. destruct (lt x y) eqn:E; [|done].
      assert (R x y) by (by apply Hxy).
      destruct (irreflexivity R x). by transitivity y. }
  eapply (StronglySorted_unique_strong (flip R)); [|exact Sdown| |].
  - intros x y _ _ Hxy Hyx. unfold flip in *.
    destruct (irreflexivity R x). by transitivity y.
  - by apply StronglySorted_rev_flip.
  - rewrite Hp'. apply Permutation_rev.
Qed.

End Contract.

(** ** The comparisons of the two commands *)

Lemma String_compare_refl (s : string) : String.compare s s = Eq.
Proof.
  induction s as [|a s IH]; cbn; [done|].
  unfold Ascii.compare. by rewrite N.compare_refl.
Qed.

Lemma String_compare_trans (a b c : string) :
  String.compare a b = Lt → String.compare b c = Lt → String.compare a c = Lt.
Proof.
  revert b c. induction a as [|x a IH]; intros [|y b] [|z c]; cbn; try done.
  unfold Ascii.compare.
  destruct (N.compare_spec (N_of_ascii x) (N_of_ascii y)) as [Exy|Lxy|Gxy];
    destruct (N.compare_spec (N_of_ascii y) (N_of_ascii z)) as [Eyz|Lyz|Gyz];
    try done.
  - rewrite Exy, Eyz, N.compare_refl. apply IH.
  - intros _ _. by rewrite Exy, (proj2 (N.compare_lt_iff _ _) Lyz).
  - intros _ _. by rewrite <- Eyz, (proj2 (N.compare_lt_iff _ _) Lxy).
  - intros _ _.
    by rewrite (proj2 (N.compare_lt_iff (N_of_ascii x) (N_of_ascii z)) ltac:(lia)).
Qed.

Global Instance String_ltb_strict : StrictOrder (fun a b => String.ltb a b = true).
Proof.
  unfold String.ltb. split.
  - intros s. unfold complement. by rewrite String_compare_refl.
  - intros a b c Hab Hbc.
    destruct (String.compare a b) eqn:Eab; try done.
    destruct (String.compare b c) eqn:Ebc; try done.
    by rewrite (String_compare_trans a b c).
Qed.

Global Instance Z_ltb_strict : StrictOrder (fun a b => Z.ltb a b = true).
Proof.
  split.
  - intros a. unfold complement. rewrite Z.ltb_lt. lia.
  - intros a b c. rewrite !Z.ltb_lt. lia.
Qed.

Global Instance Nat_ltb_strict : StrictOrder (fun a b => Nat.ltb a b = true).
Proof.
  split.
  - intros a. unfold complement. rewrite Nat.ltb_lt. lia.
  - intros a b c. rewrite !Nat.ltb_lt. lia.
Qed.

Lemma strict_on_key {A B} (f : A → B) (ltb : B → B → bool) :
  StrictOrder (fun a b => ltb a b = true) →
  StrictOrder (fun x y => ltb (f x) (f y) = true).
Proof.
  intros [Hirr Htr]. split.
  - intros x. apply (Hirr (f x)).
  - intros x y z. apply (Htr (f x) (f y) (f z)).
Qed.

Global Instance listLess_strict (sortBy : string) :
  StrictOrder (fun ti tj => listLess sortBy ti tj = true).
Proof.
  unfold listLess, listCommand_cmp.
  repeat match goal with
         | |- context [String.eqb sortBy ?k] => destruct (String.eqb sortBy k)
         end; cbn [fst];
    first [ apply (strict_on_key _ String.ltb), _
          | apply (strict_on_key _ Z.ltb), _
          | apply (strict_on_key _ Nat.ltb), _ ].
Qed.

Global Instance infoLess_strict (sortBy : string) :
  StrictOrder (fun ci cj => infoLess sortBy ci cj = true).
Proof.
  unfold infoLess, tunnelInfo_cmp.
  repeat match goal with
         | |- context [String.eqb sortBy ?k] => destruct (String.eqb sortBy k)
         end; cbn [fst];
    first [ apply (strict_on_key _ String.ltb), _
          | apply (strict_on_key _ Z.ltb), _
          | apply (strict_on_key _ Nat.ltb), _ ].
Qed.

Lemma listCommand_cmp_eq (sortBy : string) (ti tj : tunnelstore.Tunnel) (st : listVars) :
  listCommand_cmp sortBy ti tj st
  = (listLess sortBy ti tj,
     mkListVars (tunnels st) (invalidSortField st || negb (validListSortField sortBy))).
Proof.
  unfold listLess, listCommand_cmp, validListSortField. cbn [existsb].
  destruct st as [ts f].
  repeat match goal with
         | |- context [String.eqb sortBy ?k] => destruct (String.eqb sortBy k)
         end; cbn; by rewrite ?orb_false_r, ?orb_true_r.
Qed.

Lemma tunnelInfo_cmp_eq (sortBy : string) (ci cj : tunnelstore.ActiveClient.t)
    (st : infoVars) :
  tunnelInfo_cmp sortBy ci cj st
  = (infoLess sortBy ci cj,
     mkInfoVars (clients st) (info_invalidSortField st || negb (validInfoSortField sortBy))).
Proof.
  unfold infoLess, tunnelInfo_cmp, validInfoSortField. cbn [existsb].
  destruct st as [ts f].
  repeat match goal with
         | |- context [String.eqb sortBy ?k] => destruct (String.eqb sortBy k)
         end; cbn; by rewrite ?orb_false_r, ?orb_true_r.
Qed.

Lemma listCommand_less_eq (c : cli.Context) (sortBy : string) (i j : nat)
    (ts : list tunnelstore.Tunnel) (f : bool) :
  listCommand_less c sortBy i j (mkListVars ts f)
  = ti ← ts !! i; tj ← ts !! j;
    Some (inverted (cli.Bool c "invert-sort") (listLess sortBy) ti tj,
          mkListVars ts (f || negb (validListSortField sortBy))).
Proof.
  unfold listCommand_less, inverted. cbn.
  destruct (ts !! i) as [ti|]; [|reflexivity]. cbn.
  destruct (ts !! j) as [tj|]; [|reflexivity]. cbn.
  rewrite listCommand_cmp_eq. by destruct (cli.Bool c "invert-sort").
Qed.

Lemma tunnelInfo_less_eq (c : cli.Context) (sortBy : string) (i j : nat)
    (cs : list tunnelstore.ActiveClient.t) (f : bool) :
  tunnelInfo_less c sortBy i j (mkInfoVars cs f)
  = ci ← cs !! i; cj ← cs !! j;
    Some (inverted (cli.Bool c "invert-sort") (infoLess sortBy) ci cj,
          mkInfoVars cs (f || negb (validInfoSortField sortBy))).
Proof.
  unfold tunnelInfo_less, inverted. cbn.
  destruct (cs !! i) as [ci|]; [|reflexivity]. cbn.
  destruct (cs !! j) as [cj|]; [|reflexivity]. cbn.
  rewrite tunnelInfo_cmp_eq. by destruct (cli.Bool c "invert-sort").
Qed.

(** The run of [sort.Slice] in [listCommand] is the run on the tunnels
    alone, and [invalidSortField] is raised exactly when the key is not
    one of the five and [less] was called. *)
Lemma listCommand_run (c : cli.Context) (sortBy : string) (p : sort.steps)
    (ts : list tunnelstore.Tunnel) (b : bool) :
  sort.run (listCommand_less c sortBy) listCommand_swap p
    (mkListVars ts (b && negb (validListSortField sortBy)))
  = (fun st => mkListVars st.1 (st.2 && negb (validListSortField sortBy)))
    <$> sort.run (lessMarked (inverted (cli.Bool c "invert-sort") (listLess sortBy)))
          swapMarked p (ts, b).
Proof.
  remember (negb (validListSortField sortBy)) as inv eqn:Hinv.
  revert ts b. induction p as [|i j k IH|i j k IH]; intros ts b; cbn [sort.run].
  - reflexivity.
  - rewrite listCommand_less_eq, <- Hinv. unfold lessMarked. cbn [fst snd].
    destruct (ts !! i) as [ti|]; [|reflexivity].
    destruct (ts !! j) as [tj|]; [|reflexivity].
    replace (b && inv || inv) with (true && inv) by (by destruct b, inv).
    exact (IH _ ts true).
  - unfold listCommand_swap, swapMarked. cbn [fst snd tunnels invalidSortField].
    destruct (sort.Swapper i j ts) as [ts'|]; [|reflexivity]. exact (IH ts' b).
Qed.

Lemma tunnelInfo_run (c : cli.Context) (sortBy : string) (p : sort.steps)
    (cs : list tunnelstore.ActiveClient.t) (b : bool) :
  sort.run (tunnelInfo_less c sortBy) tunnelInfo_swap p
    (mkInfoVars cs (b && negb (validInfoSortField sortBy)))
  = (fun st => mkInfoVars st.1 (st.2 && negb (validInfoSortField sortBy)))
    <$> sort.run (lessMarked (inverted (cli.Bool c "invert-sort") (infoLess sortBy)))
          swapMarked p (cs, b).
Proof.
  remember (negb (validInfoSortField sortBy)) as inv eqn:Hinv.
  revert cs b. induction p as [|i j k IH|i j k IH]; intros cs b; cbn [sort.run].
  - reflexivity.
  - rewrite tunnelInfo_less_eq, <- Hinv. unfold lessMarked. cbn [fst snd].
    destruct (cs !! i) as [ci|]; [|reflexivity].
    destruct (cs !! j) as [cj|]; [|reflexivity].
    replace (b && inv || inv) with (true && inv) by (by destruct b, inv).
    exact (IH _ cs true).
  - unfold tunnelInfo_swap, swapMarked. cbn [fst snd clients info_invalidSortField].
    destruct (sort.Swapper i j cs) as [cs'|]; [|reflexivity]. exact (IH cs' b).
Qed.

Section CommandSorts.

Variable algorithm : nat → sort.steps.
Hypothesis algorithm_sorts : sort.Sorts algorithm.

(** Whether a run of the algorithm called [less]: never on fewer than
    two elements, always on two or more. *)
Lemma runMarked_called {A} (lt : A → A → bool) (l : list A) :
  ∃ l', sort.sortBy algorithm lt l = Some l' ∧ l' ≡ₚ l ∧
        sort.run (lessMarked lt) swapMarked (algorithm (length l)) (l, false)
        = Some (l', (2 <=? length l)%nat).
Proof.
  destruct (sort.sorts_permutes _ algorithm_sorts A lt l) as (l' & Hl' & Hp).
  exists l'. split; [done|]. split; [done|].
  pose proof (runMarked_fst lt (algorithm (length l)) l false) as Hfst.
  unfold sort.sortBy, sort.Slice in Hl'. rewrite Hl' in Hfst.
  destruct (sort.run (lessMarked lt) swapMarked (algorithm (length l)) (l, false))
    as [[l1 b1]|] eqn:Hrun; [|done].
  cbn in Hfst. injection Hfst as ->. f_equal. f_equal.
  destruct (Nat.leb_spec 2 (length l)) as [Hlen|Hlen].
  - eapply runMarked_compares; [|exact Hrun]. by apply sorts_compares.
  - rewrite (sort.sorts_short _ algorithm_sorts) in Hrun by done.
    cbn in Hrun. by injection Hrun as _ <-.
Qed.

Lemma listCommand_sort_eq (c : cli.Context) (ts : list tunnelstore.Tunnel) :
  ∃ ts',
    sort.sortBy algorithm
      (inverted (cli.Bool c "invert-sort") (listLess (cli.String_ c "sort-by"))) ts
    = Some ts' ∧ ts' ≡ₚ ts ∧
    listCommand_sort algorithm c ts
    = Some (ts',
            if ((2 <=? length ts)%nat && negb (validListSortField (cli.String_ c "sort-by")))%bool
            then [listWarning (cli.String_ c "sort-by")] else []).
Proof.
  destruct (runMarked_called
              (inverted (cli.Bool c "invert-sort") (listLess (cli.String_ c "sort-by"))) ts)
    as (ts' & Hs & Hp & Hrun).
  exists ts'. split; [done|]. split; [done|].
  unfold listCommand_sort, sort.Slice.
  change (mkListVars ts false)
    with (mkListVars ts (false && negb (validListSortField (cli.String_ c "sort-by")))).
  rewrite listCommand_run, Hrun. cbn. reflexivity.
Qed.

Lemma tunnelInfo_sort_eq (c : cli.Context) (cs : list tunnelstore.ActiveClient.t) :
  ∃ cs',
    sort.sortBy algorithm
      (inverted (cli.Bool c "invert-sort") (infoLess (cli.String_ c "sort-by"))) cs
    = Some cs' ∧ cs' ≡ₚ cs ∧
    tunnelInfo_sort algorithm c cs
    = Some (cs',
            if ((2 <=? length cs)%nat && negb (validInfoSortField (cli.String_ c "sort-by")))%bool
            then [infoWarning (cli.String_ c "sort-by")] else []).
Proof.
  destruct (runMarked_called
              (inverted (cli.Bool c "invert-sort") (infoLess (cli.String_ c "sort-by"))) cs)
    as (cs' & Hs & Hp & Hrun).
  exists cs'. split; [done|]. split; [done|].
  unfold tunnelInfo_sort, sort.Slice.
  change (mkInfoVars cs false)
    with (mkInfoVars cs (false && negb (validInfoSortField (cli.String_ c "sort-by")))).
  rewrite tunnelInfo_run, Hrun. cbn. reflexivity.
Qed.

End CommandSorts.

(** ** The sort of the list command *)

Lemma run_ext {A} (lt1 lt2 : A → A → bool) (p : sort.steps) (l : list A) :
  (∀ x y, lt1 x y = lt2 x y) →
  sort.run (sort.lessBy lt1) sort.Swapper p l = sort.run (sort.lessBy lt2) sort.Swapper p l.
Proof.
  intros E. revert l. induction p as [|i j k IH|i j k IH]; intros l; cbn.
  - reflexivity.
  - unfold sort.lessBy.
    destruct (l !! i) as [x|]; [|reflexivity].
    destruct (l !! j) as [y|]; [|reflexivity]. cbn. rewrite E. apply IH.
  - destruct (sort.Swapper i j l) as [l'|]; [|reflexivity]. cbn. apply IH.
Qed.

Lemma listLess_invalid (sortBy : string) (ti tj : tunnelstore.Tunnel) :
  validListSortField sortBy = false → listLess sortBy ti tj = listLess "name" ti tj.
Proof.
  unfold validListSortField, listLess, listCommand_cmp. cbn [existsb].
  repeat match goal with
         | |- context [String.eqb sortBy ?k] => destruct (String.eqb sortBy k)
         end; cbn; done.
Qed.

Lemma infoLess_invalid (sortBy : string) (ci cj : tunnelstore.ActiveClient.t) :
  validInfoSortField sortBy = false → infoLess sortBy ci cj = infoLess "createdAt" ci cj.
Proof.
  unfold validInfoSortField, infoLess, tunnelInfo_cmp. cbn [existsb].
  repeat match goal with
         | |- context [String.eqb sortBy ?k] => destruct (String.eqb sortBy k)
         end; cbn; done.
Qed.

(** C1, amended: for every valid sort key and every list of tunnels no
    two of which are tied under that key's comparison, sorting with
    invert=false and then sorting the result with invert=true yields the
    exact reverse of the first ordering; invert negates the outcome of
    the comparison and leaves the choice of the comparator alone. *)
Theorem sort_then_inverted_sort_reverses
    (algorithm : nat → sort.steps) (c0 c1 : cli.Context)
    (ts : list tunnelstore.Tunnel) :
  sort.Sorts algorithm →
  cli.String_ c1 "sort-by" = cli.String_ c0 "sort-by" →
  validListSortField (cli.String_ c0 "sort-by") = true →
  cli.Bool c0 "invert-sort" = false →
  cli.Bool c1 "invert-sort" = true →
  sort.pairwise
    (fun ti tj => listLess (cli.String_ c0 "sort-by") ti tj = true
                  ∨ listLess (cli.String_ c0 "sort-by") tj ti = true) ts →
  (∃ up, listCommand_sort algorithm c0 ts = Some (up, []) ∧
         up ≡ₚ ts ∧
         StronglySorted (fun ti tj => listLess (cli.String_ c0 "sort-by") ti tj = true) up ∧
         listCommand_sort algorithm c1 up = Some (rev up, [])) ∧
  (∀ sortBy i j st,
     listCommand_less c1 sortBy i j st
     = (fun r => (negb r.1, r.2)) <$> listCommand_less c0 sortBy i j st).
Proof.
  intros HS Hkey Hvalid H0 H1 Hties. split.
  - set (key := cli.String_ c0 "sort-by") in *.
    destruct (sorted_then_inverted algorithm HS (listLess key)
                (fun ti tj => listLess key ti tj = true) ts)
      as (up & Hup & Hp & Sup & Hdown).
    { eapply pairwise_impl; [|exact Hties].
      intros x y Hxy _. split; [done|exact Hxy]. }
    exists up.
    destruct (listCommand_sort_eq algorithm HS c0 ts) as (up' & Hup' & _ & ->).
    destruct (listCommand_sort_eq algorithm HS c1 up) as (down' & Hdown' & _ & ->).
    rewrite Hkey, H1 in Hdown'. rewrite H0 in Hup'.
    fold key in Hup', Hdown'. rewrite Hkey. fold key. rewrite Hvalid.
    change (inverted false (listLess key)) with (listLess key) in Hup'.
    rewrite Hup in Hup'. rewrite Hdown in Hdown'.
    injection Hup' as <-. injection Hdown' as <-.
    rewrite !andb_false_r. done.
  - intros sortBy i j st. unfold listCommand_less. rewrite H0, H1.
    destruct (tunnels st !! i) as [ti|]; [|reflexivity]. cbn.
    destruct (tunnels st !! j) as [tj|]; [|reflexivity]. cbn.
    by destruct (listCommand_cmp sortBy ti tj st).
Qed.

Lemma sort_then_inverted_sort_reverses_witness :
  listCommand_sort sort.shortSlice (listSortedBy "name" false) threeTunnels
  = Some (threeTunnels_sorted, []) ∧
  listCommand_sort sort.shortSlice (listSortedBy "name" true) threeTunnels_sorted
  = Some (rev threeTunnels_sorted, []).
Proof.
  destruct (sort_then_inverted_sort_reverses sort.shortSlice
              (listSortedBy "name" false) (listSortedBy "name" true) threeTunnels)
    as [(up & Hup & _ & _ & Hdown) _].
  - exact shortSlice_Sorts.
  - reflexivity.
  - reflexivity.
  - reflexivity.
  - reflexivity.
  - cbn. repeat split; repeat constructor;
      first [left; reflexivity | right; reflexivity].
  - assert (listCommand_sort sort.shortSlice (listSortedBy "name" false) threeTunnels
            = Some (threeTunnels_sorted, [])) as E by (vm_compute; reflexivity).
    rewrite E in Hup. injection Hup as <-. split; [exact E|exact Hdown].
Defined.

(** C1 as stated fails on ties.  Seven tunnels of one name stay as they
    are under the key "name", and the inverted sort of that result, run
    by the routine that Go 1.8 to 1.18 use for a slice of seven, leaves
    them in the order 1 6 5 4 3 2 7, which is not the reverse.  Under
    the pdqsort of Go 1.19 and later the same happens with thirteen
    tunnels of one name: the inverted sort leaves
    12 11 10 9 8 1 6 5 4 3 2 13 7. *)
Lemma sort_then_inverted_sort_of_ties :
  sort.Sorts sort.shortSlice ∧
  validListSortField "name" = true ∧
  (listCommand_sort sort.shortSlice (listSortedBy "name" false) namesakes
   = Some (namesakes, []) ∧
   listCommand_sort sort.shortSlice (listSortedBy "name" true) namesakes
   = Some (namesakes_inverted, []) ∧
   namesakes_inverted ≠ rev namesakes) ∧
  (listCommand_sort sort.slice13 (listSortedBy "name" false) thirteenNamesakes
   = Some (thirteenNamesakes, []) ∧
   listCommand_sort sort.slice13 (listSortedBy "name" true) thirteenNamesakes
   = Some (thirteenNamesakes_inverted, []) ∧
   thirteenNamesakes_inverted ≠ rev thirteenNamesakes).
Proof.
  split; [exact shortSlice_Sorts|]. split; [reflexivity|].
  split; (split; [vm_compute; reflexivity|]); (split; [vm_compute; reflexivity|]);
    discriminate.
Qed.

(** C3, as the code has it: with a sort key outside the supported set
    both commands sort as they do under the default key ("name" for
    tunnels, "createdAt" for connectors) and return no error, but
    [invalidSortField] is set inside [less], so the warning is logged
    only when the slice has two elements or more.  The warning of the
    info command lists "startedAt", which the command does not accept. *)
Theorem invalid_sort_field_warning (algorithm : nat → sort.steps) :
  sort.Sorts algorithm →
  (∀ c c' ts,
     validListSortField (cli.String_ c "sort-by") = false →
     cli.String_ c' "sort-by" = "name" →
     cli.Bool c' "invert-sort" = cli.Bool c "invert-sort" →
     ∃ ts', listCommand_sort algorithm c' ts = Some (ts', []) ∧ ts' ≡ₚ ts ∧
            listCommand_sort algorithm c ts
            = Some (ts', if (2 <=? length ts)%nat
                         then [listWarning (cli.String_ c "sort-by")] else [])) ∧
  (∀ c c' cs,
     validInfoSortField (cli.String_ c "sort-by") = false →
     cli.String_ c' "sort-by" = "createdAt" →
     cli.Bool c' "invert-sort" = cli.Bool c "invert-sort" →
     ∃ cs', tunnelInfo_sort algorithm c' cs = Some (cs', []) ∧ cs' ≡ₚ cs ∧
            tunnelInfo_sort algorithm c cs
            = Some (cs', if (2 <=? length cs)%nat
                         then [infoWarning (cli.String_ c "sort-by")] else [])) ∧
  (∀ uuid_Parse newSubcommandContext c sc filter ts,
     validListSortField (cli.String_ c "sort-by") = false →
     newSubcommandContext c = Ok sc →
     listCommand_filter uuid_Parse c = Ok filter →
     sc_list sc filter = Ok ts →
     cli.String_ c "output" = "" →
     ∃ out, listCommand algorithm uuid_Parse newSubcommandContext c = Some out ∧
            returned out = None ∧
            logged out = if (2 <=? length ts)%nat
                         then [listWarning (cli.String_ c "sort-by")] else []) ∧
  (∀ newSubcommandContext c sc tunnelID ListActiveClients cs filter tunnel,
     validInfoSortField (cli.String_ c "sort-by") = false →
     newSubcommandContext c = Ok sc →
     cli.NArg c = 1%nat →
     sc_findID sc (cli.Args_First c) = Ok tunnelID →
     sc_client sc = Ok ListActiveClients →
     ListActiveClients tunnelID = Ok cs →
     getTunnel sc tunnelID = (filter, Ok tunnel) →
     cli.String_ c "output" = "" →
     ∃ out, tunnelInfo algorithm newSubcommandContext c = Some out ∧
            returned out = None ∧
            logged out = if (2 <=? length cs)%nat
                         then [infoWarning (cli.String_ c "sort-by")] else []) ∧
  validInfoSortField "startedAt" = false.
Proof.
  intros HS. split; [|split; [|split; [|split; [|reflexivity]]]].
  - intros c c' ts Hinvalid Hname Hinv.
    destruct (listCommand_sort_eq algorithm HS c ts) as (ts1 & H1 & Hp & ->).
    destruct (listCommand_sort_eq algorithm HS c' ts) as (ts2 & H2 & _ & ->).
    rewrite Hname, Hinv in H2. rewrite Hname, Hinvalid.
    assert (ts2 = ts1) as ->.
    { unfold sort.sortBy, sort.Slice in H1, H2.
      rewrite (run_ext _ (inverted (cli.Bool c "invert-sort") (listLess "name"))) in H1.
      - congruence.
      - intros x y. unfold inverted. by rewrite listLess_invalid. }
    exists ts1. rewrite andb_true_r, andb_false_r. done.
  - intros c c' cs Hinvalid Hname Hinv.
    destruct (tunnelInfo_sort_eq algorithm HS c cs) as (cs1 & H1 & Hp & ->).
    destruct (tunnelInfo_sort_eq algorithm HS c' cs) as (cs2 & H2 & _ & ->).
    rewrite Hname, Hinv in H2. rewrite Hname, Hinvalid.
    assert (cs2 = cs1) as ->.
    { unfold sort.sortBy, sort.Slice in H1, H2.
      rewrite (run_ext _ (inverted (cli.Bool c "invert-sort") (infoLess "createdAt"))) in H1.
      - congruence.
      - intros x y. unfold inverted. by rewrite infoLess_invalid. }
    exists cs1. rewrite andb_true_r, andb_false_r. done.
  - intros uuid_Parse nsc c sc filter ts Hinvalid Hsc Hfilter Hlist Hout.
    destruct (listCommand_sort_eq algorithm HS c ts) as (ts' & _ & _ & Hsort).
    unfold listCommand. rewrite Hsc, Hfilter, Hlist, Hsort, Hout, Hinvalid.
    rewrite andb_true_r.
    destruct ts' as [|t ts']; cbn; eexists; (split; [reflexivity|]); by split.
  - intros nsc c sc tunnelID lac cs filter tunnel Hinvalid Hsc Hn Hid Hclient Hcs Htunnel Hout.
    destruct (tunnelInfo_sort_eq algorithm HS c cs) as (cs' & _ & _ & Hsort).
    unfold tunnelInfo. rewrite Hsc, Hn, Hid, Hclient, Hcs, Hsort, Hout, Hinvalid.
    rewrite andb_true_r. cbn [mbind option_bind]. rewrite Htunnel.
    destruct cs' as [|cl cs']; cbn; eexists; (split; [reflexivity|]); by split.
Qed.

Lemma invalid_sort_field_warning_witness :
  listCommand_sort sort.shortSlice (listSortedBy "bogus" false) [tunnelNamed 1 "web"]
  = Some ([tunnelNamed 1 "web"], []) ∧
  listCommand_sort sort.shortSlice (listSortedBy "bogus" false)
    [tunnelNamed 1 "web"; tunnelNamed 2 "api"]
  = Some ([tunnelNamed 2 "api"; tunnelNamed 1 "web"], [listWarning "bogus"]) ∧
  tunnelInfo_sort sort.shortSlice (infoSortedBy "startedAt" false)
    [connectorRunAt 1 200; connectorRunAt 2 100]
  = Some ([connectorRunAt 2 100; connectorRunAt 1 200], [infoWarning "startedAt"]).
Proof.
  destruct (invalid_sort_field_warning sort.shortSlice shortSlice_Sorts)
    as (Hlist & Hinfo & _).
  split; [|split].
  - destruct (Hlist (listSortedBy "bogus" false) (listSortedBy "name" false)
                [tunnelNamed 1 "web"]) as (ts' & H1 & _ & H2);
      [reflexivity|reflexivity|reflexivity|].
    assert (listCommand_sort sort.shortSlice (listSortedBy "name" false)
              [tunnelNamed 1 "web"] = Some ([tunnelNamed 1 "web"], [])) as E
      by (vm_compute; reflexivity).
    rewrite E in H1. injection H1 as <-. exact H2.
  - destruct (Hlist (listSortedBy "bogus" false) (listSortedBy "name" false)
                [tunnelNamed 1 "web"; tunnelNamed 2 "api"]) as (ts' & H1 & _ & H2);
      [reflexivity|reflexivity|reflexivity|].
    assert (listCommand_sort sort.shortSlice (listSortedBy "name" false)
              [tunnelNamed 1 "web"; tunnelNamed 2 "api"]
            = Some ([tunnelNamed 2 "api"; tunnelNamed 1 "web"], [])) as E
      by (vm_compute; reflexivity).
    rewrite E in H1. injection H1 as <-. exact H2.
  - destruct (Hinfo (infoSortedBy "startedAt" false) (infoSortedBy "createdAt" false)
                [connectorRunAt 1 200; connectorRunAt 2 100]) as (cs' & H1 & _ & H2);
      [reflexivity|reflexivity|reflexivity|].
    assert (tunnelInfo_sort sort.shortSlice (infoSortedBy "createdAt" false)
              [connectorRunAt 1 200; connectorRunAt 2 100]
            = Some ([connectorRunAt 2 100; connectorRunAt 1 200], [])) as E
      by (vm_compute; reflexivity).
    rewrite E in H1. injection H1 as <-. exact H2.
Defined.

(** ** The connection summary *)

Lemma sprintf_count_colo (n : Z) (colo : string) :
  fmt.Sprintf "%dx%s" [fmt.Int n; fmt.Str colo] = fmt.itoa n +:+ "x" +:+ colo.
Proof. rewrite <- (append_empty colo) at 2. reflexivity. Qed.

Lemma countColos_snoc (l : list tunnelstore.Connection) (x : tunnelstore.Connection)
    (show : bool) :
  countColos (l ++ [x]) show
  = if counted show x then
      <[tunnelstore.ColoName x :=
          uint_incr (default 0%N (countColos l show !! tunnelstore.ColoName x))]>
        (countColos l show)
    else countColos l show.
Proof. unfold countColos. rewrite foldl_app. reflexivity. Qed.

Lemma connectionsAt_snoc (colo : string) (show : bool)
    (l : list tunnelstore.Connection) (x : tunnelstore.Connection) :
  connectionsAt colo show (l ++ [x])
  = (connectionsAt colo show l
     + if (counted show x && bool_decide (tunnelstore.ColoName x = colo))%bool
       then 1 else 0)%nat.
Proof.
  unfold connectionsAt. rewrite filter_app, length_app. f_equal.
  rewrite filter_cons, filter_nil.
  destruct (counted show x); cbn.
  - case_bool_decide; case_decide; cbn; tauto || done.
  - case_decide; cbn; [|done]. destruct H; done.
Qed.

(** What the counting loop leaves in the map. *)
Lemma countColos_lookup (connections : list tunnelstore.Connection) (show : bool)
    (colo : string) :
  countColos connections show !! colo
  = if decide (connectionsAt colo show connections = 0%nat) then None
    else Some (N.of_nat (connectionsAt colo show connections) mod 2 ^ 64)%N.
Proof.
  induction connections as [|x l IH] using rev_ind; [reflexivity|].
  rewrite countColos_snoc, connectionsAt_snoc.
  destruct (counted show x); cbn [andb].
  - case_bool_decide as Hc.
    + subst colo. rewrite lookup_insert_eq, IH.
      case_decide as H0; case_decide; try lia; f_equal; unfold uint_incr; cbn [default].
      * rewrite H0. reflexivity.
      * unfold id. rewrite N.Div0.add_mod_idemp_l. f_equal. lia.
    + rewrite lookup_insert_ne by done. rewrite IH, Nat.add_0_r. reflexivity.
  - rewrite IH, Nat.add_0_r. reflexivity.
Qed.

Lemma connectionsAt_le (colo : string) (show : bool)
    (connections : list tunnelstore.Connection) :
  (connectionsAt colo show connections ≤ length connections)%nat.
Proof. unfold connectionsAt. apply length_filter. Qed.

Lemma connectionsAt_pos (colo : string) (show : bool)
    (connections : list tunnelstore.Connection) :
  connectionsAt colo show connections ≠ 0%nat ↔
  ∃ c, c ∈ connections ∧ counted show c = true ∧ tunnelstore.ColoName c = colo.
Proof.
  unfold connectionsAt. split.
  - intros Hn.
    destruct (filter _ connections) as [|c l'] eqn:E; [done|].
    assert (c ∈ filter (fun c => counted show c = true ∧ tunnelstore.ColoName c = colo)
                  connections) as Hc by (rewrite E; left).
    apply list_elem_of_filter in Hc as [[? ?] ?]. eauto.
  - intros (c & Hin & Hc & Hcolo) Hn.
    assert (c ∈ filter (fun c => counted show c = true ∧ tunnelstore.ColoName c = colo)
                  connections) as Hf by (apply list_elem_of_filter; eauto).
    apply length_zero_iff_nil in Hn. rewrite Hn in Hf. by apply elem_of_nil in Hf.
Qed.

Global Instance string_le_total : Total sort.string_le.
Proof. intros a b. apply String.leb_total. Qed.

Global Instance string_le_trans : Transitive sort.string_le.
Proof.
  intros a b c. unfold sort.string_le, String.leb.
  destruct (String.compare a b) eqn:Eab; [|intros _|done].
  - apply String.compare_eq_iff in Eab as ->. done.
  - destruct (String.compare b c) eqn:Ebc; [|intros _|done].
    + apply String.compare_eq_iff in Ebc as ->. by rewrite Eab.
    + by rewrite (String_compare_trans a b c).
Qed.

Lemma string_le_lt (a b : string) : sort.string_le a b → a ≠ b → String.ltb a b = true.
Proof.
  unfold sort.string_le, String.leb, String.ltb.
  destruct (String.compare a b) eqn:E; [|done|done].
  intros _ Hne. by apply String.compare_eq_iff in E.
Qed.

Lemma StronglySorted_strict (l : list string) :
  StronglySorted sort.string_le l → NoDup l →
  StronglySorted (fun a b => String.ltb a b = true) l.
Proof.
  induction 1 as [|a l _ IH Ha]; intros Hnd; [constructor|].
  apply NoDup_cons in Hnd as [Hin Hnd]. constructor; [by apply IH|].
  rewrite Forall_forall in Ha. apply Forall_forall. intros b Hb.
  apply string_le_lt; [by apply Ha|]. by intros ->.
Qed.

(** C6: [fmtConnections] groups the connections by colo name, counts a
    connection only if it is not pending reconnect or recently
    disconnected ones are shown, and joins the "<count>x<colo>" entries
    with ", " in increasing order of the colo names; on LAX, LAX
    (pending), JFK it yields "1xJFK, 1xLAX" without the flag and
    "1xJFK, 2xLAX" with it. *)
Theorem fmtConnections_spec :
  (∀ (connections : list tunnelstore.Connection) (showRecentlyDisconnected : bool),
     Z.of_nat (length connections) < 2 ^ 64 →
     ∃ colos : list string,
       StronglySorted (fun a b => String.ltb a b = true) colos ∧
       (∀ colo, colo ∈ colos ↔
                ∃ c, c ∈ connections ∧ counted showRecentlyDisconnected c = true
                     ∧ tunnelstore.ColoName c = colo) ∧
       fmtConnections connections showRecentlyDisconnected
       = strings.Join
           (map (fun colo =>
                   coloEntry (connectionsAt colo showRecentlyDisconnected connections) colo)
                colos)
           ", ") ∧
  fmtConnections LAX_LAX_JFK false = "1xJFK, 1xLAX" ∧
  fmtConnections LAX_LAX_JFK true = "1xJFK, 2xLAX".
Proof.
  split; [|split; vm_compute; reflexivity].
  intros connections show Hlen.
  set (m := countColos connections show).
  exists (sort.Strings (map_to_list m).*1).
  assert (∀ colo, colo ∈ sort.Strings (map_to_list m).*1
                  ↔ connectionsAt colo show connections ≠ 0%nat) as Hmem.
  { intros colo. unfold sort.Strings. rewrite merge_sort_Permutation.
    rewrite list_elem_of_fmap. split.
    - intros ([k v] & -> & Hkv). apply elem_of_map_to_list in Hkv.
      unfold m in Hkv. rewrite countColos_lookup in Hkv. by case_decide.
    - intros Hn. unfold m.
      exists (colo, (N.of_nat (connectionsAt colo show connections) mod 2 ^ 64)%N).
      split; [done|]. apply elem_of_map_to_list.
      rewrite countColos_lookup. by case_decide. }
  split; [|split].
  - apply StronglySorted_strict.
    + apply StronglySorted_merge_sort; apply _.
    + unfold sort.Strings. rewrite merge_sort_Permutation.
      apply NoDup_fst_map_to_list.
  - intros colo. rewrite Hmem. apply connectionsAt_pos.
  - unfold fmtConnections. fold m. f_equal. apply map_ext_in.
    intros colo Hin. apply list_elem_of_In, Hmem in Hin.
    rewrite sprintf_count_colo. unfold coloEntry. do 2 f_equal.
    unfold m. rewrite countColos_lookup. case_decide; [done|]. cbn [default].
    pose proof (connectionsAt_le colo show connections).
    rewrite N.mod_small; [unfold id; lia|].
    change (2 ^ 64)%N with 18446744073709551616%N.
    change (2 ^ 64) with 18446744073709551616 in Hlen. lia.
Qed.

Lemma fmtConnections_spec_witness :
  ∃ colos : list string,
    StronglySorted (fun a b => String.ltb a b = true) colos ∧
    (∀ colo, colo ∈ colos ↔
             ∃ c, c ∈ LAX_LAX_JFK ∧ counted false c = true ∧ tunnelstore.ColoName c = colo) ∧
    fmtConnections LAX_LAX_JFK false
    = strings.Join (map (fun colo => coloEntry (connectionsAt colo false LAX_LAX_JFK) colo) colos)
        ", ".
Proof.
  destruct fmtConnections_spec as [Hspec _].
  apply (Hspec LAX_LAX_JFK false). reflexivity.
Defined.

(** * Properties of the rest of the file *)

(** ** More on strings *)

Lemma append_assoc (a b c : string) : (a +:+ b) +:+ c = a +:+ b +:+ c.
Proof.
  induction a as [|x a IH]; [reflexivity|].
  change (String x ((a +:+ b) +:+ c) = String x (a +:+ b +:+ c)). by rewrite IH.
Qed.

Lemma append_eq_empty (a b : string) : a +:+ b = "" → a = "" ∧ b = "".
Proof. destruct a; [done|discriminate]. Qed.

Lemma length_zero_empty (s : string) : String.length s = 0%nat ↔ s = "".
Proof. destruct s; cbn; split; done. Qed.

Lemma list_ascii_of_string_app (a b : string) :
  String.list_ascii_of_string (a +:+ b)
  = String.list_ascii_of_string a ++ String.list_ascii_of_string b.
Proof.
  induction a as [|c a IH]; [reflexivity|].
  change (String c a +:+ b) with (String c (a +:+ b)). cbn. by rewrite IH.
Qed.

Lemma string_of_list_ascii_app (l1 l2 : list ascii) :
  String.string_of_list_ascii (l1 ++ l2)
  = String.string_of_list_ascii l1 +:+ String.string_of_list_ascii l2.
Proof.
  induction l1 as [|c l1 IH]; [reflexivity|]. cbn [app String.string_of_list_ascii].
  rewrite IH. reflexivity.
Qed.

Lemma forallb_rev {A} (p : A → bool) (l : list A) : forallb p (rev l) = forallb p l.
Proof.
  induction l as [|x l IH]; [reflexivity|].
  cbn [rev forallb]. rewrite forallb_app, IH. cbn. by rewrite andb_true_r, andb_comm.
Qed.

Lemma allChars_app (p : ascii → bool) (s t : string) :
  allChars p (s +:+ t) = (allChars p s && allChars p t)%bool.
Proof.
  induction s as [|c s IH]; [reflexivity|].
  change (allChars p (String c (s +:+ t)) = (allChars p (String c s) && allChars p t)%bool).
  cbn [allChars]. by rewrite IH, andb_assoc.
Qed.

Lemma allChars_forallb (p : ascii → bool) (s : string) :
  allChars p s = forallb p (String.list_ascii_of_string s).
Proof. induction s as [|c s IH]; [reflexivity|]. cbn. by rewrite IH. Qed.

Lemma allChars_impl (p q : ascii → bool) (s : string) :
  (∀ c, p c = true → q c = true) → allChars p s = true → allChars q s = true.
Proof.
  intros Hpq. induction s as [|c s IH]; [done|]. cbn.
  rewrite !andb_true_iff. intros [? ?]. split; [by apply Hpq|by apply IH].
Qed.

Ltac each_ascii_with H c :=
  destruct c as [[] [] [] [] [] [] [] []]; first [reflexivity | discriminate H].

(** Splits a membership in a list that is written out into its cases. *)
Ltac elem_cases H :=
  rewrite ?elem_of_cons, ?elem_of_nil in H;
  repeat match goal with H' : _ ∨ _ |- _ => destruct H' as [H'|H'] end.

(** ** More on the validators *)

(** X1: allowing a wildcard widens [validateName] only by names that
    begin with an asterisk: a name is accepted with the flag exactly
    when it is accepted without it or is an asterisk followed by any run
    of name characters (the asterisk need not be followed by a dot).
    So every hostname that [validateHostname] accepts without the flag
    it accepts with it. *)
Theorem validateName_wildcard :
  (∀ s, validateName s true = true ↔
        validateName s false = true ∨
        ∃ tl, s = String "*" tl ∧ allChars nameChar tl = true) ∧
  (∀ ToASCII s, validateHostname ToASCII s false = true →
                validateHostname ToASCII s true = true).
Proof.
  assert (∀ s, validateName s true = true ↔
               validateName s false = true ∨
               ∃ tl, s = String "*" tl ∧ allChars nameChar tl = true) as Hwild.
  { intros s. rewrite validateName_true_iff, validateName_false_iff.
    unfold matchesWildcardName, matchesName. split.
    - intros (c & tl & -> & Hc & Htl). apply orb_true_iff in Hc as [Hc|Hc].
      + right. apply Ascii.eqb_eq in Hc as ->. by exists tl.
      + left. by exists c, tl.
    - intros [(c & tl & -> & Hc & Htl)|(tl & -> & Htl)].
      + exists c, tl. by rewrite Hc, orb_true_r.
      + by exists "*"%char, tl. }
  split; [exact Hwild|].
  intros ToASCII s. rewrite !validateHostname_iff.
  intros (puny & E & Hv). exists puny. split; [done|]. apply Hwild. by left.
Qed.

(** X2: validity is decided character by character: a non-empty string
    followed by a suffix is a valid name exactly when the string is one
    and the suffix is made of name characters only.  There is no bound
    on the length and no rule on what a name ends with or on repeated
    dots and hyphens. *)
Theorem validateName_extension (s t : string) (allowWildcardSubdomain : bool) :
  s ≠ "" →
  validateName (s +:+ t) allowWildcardSubdomain = true ↔
  validateName s allowWildcardSubdomain = true ∧ allChars nameChar t = true.
Proof.
  intros Hs. destruct s as [|c tl]; [done|].
  change (String c tl +:+ t) with (String c (tl +:+ t)).
  destruct allowWildcardSubdomain.
  - rewrite !validateName_true_iff. unfold matchesWildcardName. split.
    + intros (c' & tl' & [= <- <-] & Hc & Htl).
      rewrite allChars_app in Htl. apply andb_true_iff in Htl as [? ?].
      split; [by exists c, tl|done].
    + intros [(c' & tl' & [= <- <-] & Hc & Htl) Ht].
      exists c, (tl +:+ t). by rewrite allChars_app, Htl, Ht.
  - rewrite !validateName_false_iff. unfold matchesName. split.
    + intros (c' & tl' & [= <- <-] & Hc & Htl).
      rewrite allChars_app in Htl. apply andb_true_iff in Htl as [? ?].
      split; [by exists c, tl|done].
    + intros [(c' & tl' & [= <- <-] & Hc & Htl) Ht].
      exists c, (tl +:+ t). by rewrite allChars_app, Htl, Ht.
Qed.

Lemma validateName_extension_witness :
  validateName ("app" +:+ "..example-") false = true ↔
  validateName "app" false = true ∧ allChars nameChar "..example-" = true.
Proof. apply (validateName_extension "app" "..example-" false). discriminate. Defined.

(** ** More on the credential writer *)

Section CredentialWriterMore.

Variable Credentials : Type.
Variable json_Marshal : Credentials → result string.

Local Abbreviation writeCredentials := (writeTunnelCredentials Credentials json_Marshal).

(** The ways a call can go: it fails and leaves everything as it was,
    or it creates the file. *)
Lemma writeTunnelCredentials_cases (filePath : string) (credentials : Credentials)
    (fs : os.FS) :
  (writeCredentials filePath credentials fs).1 = fs ∧
  (writeCredentials filePath credentials fs).2 ≠ None
  ∨ ∃ body,
      json_Marshal credentials = Ok body ∧
      os.faults fs !! filePath = None ∧ os.files fs !! filePath = None ∧
      writeCredentials filePath credentials fs
      = (os.mkFS (<[filePath := os.mkFile body (Z.land 400 (Z.lnot (os.umask fs)))]>
                    (os.files fs))
                 (os.umask fs) (os.faults fs),
         None).
Proof.
  unfold writeTunnelCredentials, os.Stat, os.WriteFile.
  destruct (os.faults fs !! filePath) as [errno|] eqn:Hfault.
  - left. cbn [err_of].
    destruct (os.IsNotExist _); cbn [negb]; [|by split].
    destruct (json_Marshal credentials); by split.
  - destruct (os.files fs !! filePath) as [f|] eqn:Hfile; cbn; [left; by split|].
    destruct (json_Marshal credentials) as [body|e]; [|left; by split].
    right. by exists body.
Qed.

(** X3: the writer writes once.  After a call that returned nil the
    path holds the JSON of the credentials, and every further call on
    that path, with whatever credentials, fails with "<path> already
    exists" and leaves the file system as the first call left it. *)
Theorem writeTunnelCredentials_writes_once (filePath : string) (credentials : Credentials)
    (fs fs' : os.FS) :
  writeCredentials filePath credentials fs = (fs', None) →
  ∃ body,
    json_Marshal credentials = Ok body ∧
    (∃ mode, os.Stat filePath fs' = Ok (os.mkFile body mode)) ∧
    ∀ credentials',
      writeCredentials filePath credentials' fs'
      = (fs', Some (errorString (filePath +:+ " already exists"))).
Proof.
  intros Hw.
  destruct (writeTunnelCredentials_cases filePath credentials fs)
    as [[_ Herr]|(body & Hjson & Hfault & Hfile & Heq)].
  { rewrite Hw in Herr. done. }
  rewrite Heq in Hw. injection Hw as <-. exists body. split; [done|].
  assert (os.Stat filePath
            (os.mkFS (<[filePath := os.mkFile body (Z.land 400 (Z.lnot (os.umask fs)))]>
                        (os.files fs)) (os.umask fs) (os.faults fs))
          = Ok (os.mkFile body (Z.land 400 (Z.lnot (os.umask fs))))) as Hstat.
  { unfold os.Stat. cbn. by rewrite Hfault, lookup_insert_eq. }
  split; [by eexists|].
  intros credentials'. unfold writeTunnelCredentials. rewrite Hstat. reflexivity.
Qed.

(** X4: the writer touches nothing but the one path.  Whatever the
    outcome, every other file, the umask and the failing paths are as
    before, and a file that was at the path is never changed. *)
Theorem writeTunnelCredentials_touches_nothing_else (filePath : string)
    (credentials : Credentials) (fs : os.FS) :
  os.umask (writeCredentials filePath credentials fs).1 = os.umask fs ∧
  os.faults (writeCredentials filePath credentials fs).1 = os.faults fs ∧
  (∀ path, path ≠ filePath →
     os.files (writeCredentials filePath credentials fs).1 !! path = os.files fs !! path) ∧
  (∀ f, os.files fs !! filePath = Some f →
     os.files (writeCredentials filePath credentials fs).1 !! filePath = Some f).
Proof.
  destruct (writeTunnelCredentials_cases filePath credentials fs)
    as [[Hfs Herr]|(body & Hjson & Hfault & Hfile & Heq)].
  - rewrite Hfs. done.
  - rewrite Heq. cbn. repeat split; try done.
    + intros path Hne. by rewrite lookup_insert_ne.
    + intros f Hf. congruence.
Qed.

(** X5: after a call that returned nil, the path holds a file with the
    JSON of the credentials, and its mode is what the umask leaves of
    octal 0620: whatever the umask, it gives nothing to others, lets
    nobody execute and lets the group not read (no bit of octal 0157 is
    set).  Nothing is said of a call that returns an error. *)
Theorem writeTunnelCredentials_mode (filePath : string) (credentials : Credentials)
    (fs fs' : os.FS) :
  writeCredentials filePath credentials fs = (fs', None) →
  ∃ f,
    os.files fs' !! filePath = Some f ∧
    json_Marshal credentials = Ok (os.data f) ∧
    os.mode f = Z.land (6 * 64 + 2 * 8 + 0) (Z.lnot (os.umask fs)) ∧
    Z.land (os.mode f) (1 * 64 + 5 * 8 + 7) = 0.
Proof.
  intros Hw.
  destruct (writeTunnelCredentials_cases filePath credentials fs)
    as [[_ Herr]|(body & Hjson & Hfault & Hfile & Heq)].
  { rewrite Hw in Herr. done. }
  rewrite Heq in Hw. injection Hw as <-.
  exists (os.mkFile body (Z.land 400 (Z.lnot (os.umask fs)))).
  cbn [os.files os.data os.mode]. split; [by rewrite lookup_insert_eq|].
  split; [done|]. split; [done|].
  rewrite (Z.land_comm 400), <- Z.land_assoc.
  change (Z.land 400 (1 * 64 + 5 * 8 + 7)) with 0. apply Z.land_0_r.
Qed.

End CredentialWriterMore.

Lemma writeTunnelCredentials_writes_once_witness :
  ∃ body,
    Ok "{new}" = Ok body ∧
    (∃ mode,
       os.Stat "/home/u/.cloudflared/t.json"
         (writeTunnelCredentials string Ok "/home/u/.cloudflared/t.json" "{new}" emptyHome).1
       = Ok (os.mkFile body mode)) ∧
    ∀ credentials',
      writeTunnelCredentials string Ok "/home/u/.cloudflared/t.json" credentials'
        (writeTunnelCredentials string Ok "/home/u/.cloudflared/t.json" "{new}" emptyHome).1
      = ((writeTunnelCredentials string Ok "/home/u/.cloudflared/t.json" "{new}" emptyHome).1,
         Some (errorString "/home/u/.cloudflared/t.json already exists")).
Proof.
  apply (writeTunnelCredentials_writes_once string Ok "/home/u/.cloudflared/t.json"
           "{new}" emptyHome). reflexivity.
Defined.

Lemma writeTunnelCredentials_mode_witness :
  ∃ f,
    os.files (writeTunnelCredentials string Ok "/home/u/.cloudflared/t.json" "{new}"
                emptyHome).1 !! "/home/u/.cloudflared/t.json" = Some f ∧
    Ok "{new}" = Ok (os.data f) ∧
    os.mode f = Z.land (6 * 64 + 2 * 8 + 0) (Z.lnot (os.umask emptyHome)) ∧
    Z.land (os.mode f) (1 * 64 + 5 * 8 + 7) = 0.
Proof.
  apply (writeTunnelCredentials_mode string Ok "/home/u/.cloudflared/t.json" "{new}"
           emptyHome). reflexivity.
Defined.

(** ** More on the connection summary *)

Lemma connectionsAt_Permutation (colo : string) (show : bool)
    (l l' : list tunnelstore.Connection) :
  l ≡ₚ l' → connectionsAt colo show l = connectionsAt colo show l'.
Proof. intros Hp. unfold connectionsAt. by rewrite Hp. Qed.

(** The summary is a function of the counts per colo. *)
Lemma fmtConnections_ext (l l' : list tunnelstore.Connection) (show show' : bool) :
  (∀ colo, connectionsAt colo show l = connectionsAt colo show' l') →
  fmtConnections l show = fmtConnections l' show'.
Proof.
  intros E. unfold fmtConnections.
  assert (countColos l show = countColos l' show') as ->; [|done].
  apply map_eq. intros colo. by rewrite !countColos_lookup, E.
Qed.

Lemma filter_ext_Forall {A} (P Q : A → Prop)
    `{!∀ x, Decision (P x), !∀ x, Decision (Q x)} (l : list A) :
  Forall (fun x => P x ↔ Q x) l → filter P l = filter Q l.
Proof.
  induction 1 as [|x l Hx _ IH]; [done|].
  rewrite !filter_cons, IH. destruct (decide (P x)), (decide (Q x)); tauto || done.
Qed.

Lemma Join_empty (elems : list string) (sep : string) :
  strings.Join elems sep = "" → elems = [] ∨ ∃ rest, elems = "" :: rest.
Proof.
  destruct elems as [|s rest]; [by left|]. intros H. right.
  destruct rest as [|s' rest]; cbn in H.
  - subst s. by exists [].
  - apply append_eq_empty in H as [-> _]. by eexists.
Qed.

(** The map of counts is empty exactly when no connection counts. *)
Lemma countColos_empty (l : list tunnelstore.Connection) (show : bool) :
  countColos l show = ∅ ↔ Forall (fun c => counted show c = false) l.
Proof.
  split.
  - intros Hm. apply Forall_forall. intros c Hc.
    destruct (counted show c) eqn:E; [exfalso|done].
    assert (connectionsAt (tunnelstore.ColoName c) show l ≠ 0%nat) as Hn
      by (apply connectionsAt_pos; eauto).
    pose proof (countColos_lookup l show (tunnelstore.ColoName c)) as Hl.
    rewrite Hm, lookup_empty in Hl. by case_decide.
  - intros Hall. apply map_eq. intros colo. rewrite countColos_lookup, lookup_empty.
    case_decide as Hn; [done|]. apply connectionsAt_pos in Hn as (c & Hc & Hcount & _).
    rewrite Forall_forall in Hall. rewrite (Hall c Hc) in Hcount. done.
Qed.

(** The summary is empty exactly when the map of counts is: an entry is
    never the empty string. *)
Lemma fmtConnections_of_empty (l : list tunnelstore.Connection) (show : bool) :
  fmtConnections l show = "" ↔ countColos l show = ∅.
Proof.
  unfold fmtConnections. set (m := countColos l show). split.
  - intros H. apply Join_empty in H as [H|[rest H]].
    + apply fmap_nil_inv in H.
      assert ((map_to_list m).*1 = []) as Hm.
      { apply Permutation_nil_r. rewrite <- H. unfold sort.Strings.
        symmetry. apply merge_sort_Permutation. }
      apply fmap_nil_inv in Hm. by apply map_to_list_empty_iff in Hm.
    + destruct (sort.Strings (map_to_list m).*1) as [|colo colos]; [done|].
      cbn [map] in H. rewrite sprintf_count_colo in H. injection H as H _.
      apply append_eq_empty in H as [_ H]. discriminate.
  - intros ->. rewrite map_to_list_empty. reflexivity.
Qed.

(** X6: the summary does not depend on the order of the connections. *)
Theorem fmtConnections_Permutation (l l' : list tunnelstore.Connection) (show : bool) :
  l ≡ₚ l' → fmtConnections l show = fmtConnections l' show.
Proof. intros Hp. apply fmtConnections_ext. intros colo. by apply connectionsAt_Permutation. Qed.

Lemma fmtConnections_Permutation_witness :
  fmtConnections LAX_LAX_JFK false = fmtConnections (rev LAX_LAX_JFK) false.
Proof. apply (fmtConnections_Permutation LAX_LAX_JFK (rev LAX_LAX_JFK) false), Permutation_rev. Defined.

(** X7: not showing the recently disconnected is dropping the
    connections that are pending reconnect: the summary without the
    flag is the summary, with the flag, of the connections that are not
    pending; and where no connection is pending the flag makes no
    difference. *)
Theorem fmtConnections_hides_pending (l : list tunnelstore.Connection) :
  fmtConnections l false
  = fmtConnections (filter (fun c => tunnelstore.IsPendingReconnect c = false) l) true ∧
  (∀ show, Forall (fun c => tunnelstore.IsPendingReconnect c = false) l →
           fmtConnections l show = fmtConnections l true).
Proof.
  split.
  - apply fmtConnections_ext. intros colo. unfold connectionsAt.
    rewrite list_filter_filter. f_equal. apply list_filter_iff.
    intros c. unfold counted. destruct (tunnelstore.IsPendingReconnect c); cbn; intuition done.
  - intros show Hall. apply fmtConnections_ext. intros colo. unfold connectionsAt.
    f_equal. apply filter_ext_Forall. eapply Forall_impl; [exact Hall|].
    intros c Hc. unfold counted. rewrite Hc. cbn. tauto.
Qed.

(** X8: the summary is the empty string exactly when no connection
    counts, in particular for no connections at all; a colo whose count
    wrapped around to zero would still have its entry. *)
Theorem fmtConnections_empty_iff (l : list tunnelstore.Connection) (show : bool) :
  fmtConnections l show = "" ↔ Forall (fun c => counted show c = false) l.
Proof.
  rewrite fmtConnections_of_empty. apply countColos_empty.
Qed.

(** ** The table of connectors *)

Lemma fmtConnections_length (l : list tunnelstore.Connection) (show : bool) :
  (String.length (fmtConnections l show) =? 0)%nat = negb (existsb (counted show) l).
Proof.
  destruct (existsb (counted show) l) eqn:E; cbn.
  - apply Nat.eqb_neq. rewrite length_zero_empty, fmtConnections_of_empty, countColos_empty.
    apply existsb_exists in E as (c & Hc & Hcount).
    rewrite Forall_forall. intros Hall. apply list_elem_of_In in Hc.
    rewrite (Hall c Hc) in Hcount. done.
  - apply Nat.eqb_eq. rewrite length_zero_empty, fmtConnections_of_empty, countColos_empty.
    apply Forall_forall. intros c Hc.
    destruct (counted show c) eqn:Ec; [|done].
    assert (existsb (counted show) l = true) as Hex
      by (apply existsb_exists; exists c; by rewrite <- list_elem_of_In).
    congruence.
Qed.

Lemma sprintf_6 (a b c d e f : string) :
  fmt.Sprintf ("%s" +:+ tab +:+ "%s" +:+ tab +:+ "%s" +:+ tab +:+ "%s" +:+ tab +:+
               "%s" +:+ tab +:+ "%s" +:+ tab)
    [fmt.Str a; fmt.Str b; fmt.Str c; fmt.Str d; fmt.Str e; fmt.Str f]
  = a +:+ tab +:+ b +:+ tab +:+ c +:+ tab +:+ d +:+ tab +:+ e +:+ tab +:+ f +:+ tab.
Proof. reflexivity. Qed.

Section TableProperties.

Variable time_Format : time.Time → string → string.
Variable time_String : time.Time → string.

Lemma shouldDisplayTable_eq (cs : list tunnelstore.ActiveClient.t) (show : bool) :
  shouldDisplayTable cs show = existsb (hasCounted show) cs.
Proof.
  unfold shouldDisplayTable.
  assert (∀ b, foldl (fun shouldDisplayTable c =>
                        if (0 <? String.length
                                   (fmtConnections (tunnelstore.ActiveClient.Connections c) show))%nat
                        then true else shouldDisplayTable) b cs
               = (b || existsb (hasCounted show) cs)%bool) as H; [|apply H].
  induction cs as [|c cs IH]; intros b; cbn [foldl existsb]; [by rewrite orb_false_r|].
  rewrite IH. unfold hasCounted at 2.
  pose proof (fmtConnections_length (tunnelstore.ActiveClient.Connections c) show) as Hl.
  destruct (existsb (counted show) (tunnelstore.ActiveClient.Connections c)); cbn in Hl.
  - apply Nat.eqb_neq in Hl.
    destruct (Nat.ltb_spec 0 (String.length
                (fmtConnections (tunnelstore.ActiveClient.Connections c) show))); [|lia].
    cbn. by rewrite orb_true_r.
  - apply Nat.eqb_eq in Hl. rewrite Hl. cbn. reflexivity.
Qed.

Lemma connectorRows_eq (cs : list tunnelstore.ActiveClient.t) (show : bool) :
  connectorRows time_Format cs show
  = Some (map (fun c => Fprintln (connectorRow time_Format c show))
              (filter (fun c => hasCounted show c = true) cs)).
Proof.
  induction cs as [|c cs IH]; [reflexivity|].
  cbn [connectorRows]. rewrite fmtConnections_length, filter_cons.
  fold (hasCounted show c). destruct (hasCounted show c) eqn:E; cbn [negb].
  - rewrite decide_True by done.
    destruct (tunnelstore.ActiveClient.Connections c) as [|first rest] eqn:Ec.
    { unfold hasCounted in E. rewrite Ec in E. discriminate. }
    cbn [lookup list_lookup mbind option_bind]. rewrite IH. cbn [mbind option_bind map].
    rewrite sprintf_6. unfold connectorRow. rewrite Ec. reflexivity.
  - rewrite decide_False by (by intros ?). exact IH.
Qed.

(** X9: [formatAndPrintConnectionsList] never panics: it indexes the
    first connection only of a connector that has a connection that
    counts.  After the head with name, ID and creation time it writes
    the table, with one row for each connector that has a connection
    that counts, in the order given, the origin being that of the
    connector's first connection; when no connector has one, it prints
    "This tunnel has no active connectors." on the standard output and
    no table. *)
Theorem formatAndPrintConnectionsList_rows (tunnelInfo : Info) (show : bool) :
  formatAndPrintConnectionsList time_Format time_String tunnelInfo show
  = Some (if existsb (hasCounted show) (Connectors tunnelInfo) then
            [ToWriter (connectionsListHeader time_String tunnelInfo);
             Fprintln connectorsHeader]
            ++ map (fun c => Fprintln (connectorRow time_Format c show))
                   (filter (fun c => hasCounted show c = true) (Connectors tunnelInfo))
            ++ [Flush]
          else
            [ToWriter (connectionsListHeader time_String tunnelInfo);
             Println "This tunnel has no active connectors."; Flush]).
Proof.
  unfold formatAndPrintConnectionsList.
  rewrite shouldDisplayTable_eq, connectorRows_eq.
  destruct (existsb (hasCounted show) (Connectors tunnelInfo)); reflexivity.
Qed.

End TableProperties.

(** ** More on the list and info commands *)


Section SortAndInvert.

Variable algorithm : nat → sort.steps.
Hypothesis algorithm_sorts : sort.Sorts algorithm.
Context {A : Type}.
Variable lt : A → A → bool.
Context `{!StrictOrder (fun x y => lt x y = true)}.

(** Without ties, the sort under the negated comparison leaves the
    reverse of what the sort under the comparison leaves. *)
Lemma inverted_sort_rev (l : list A) :
  sort.pairwise (fun x y => lt x y = true ∨ lt y x = true) l →
  ∃ up, sort.sortBy algorithm lt l = Some up ∧ up ≡ₚ l ∧
        StronglySorted (fun x y => lt x y = true) up ∧
        sort.sortBy algorithm (inverted true lt) l = Some (rev up).
Proof.
  intros Hties.
  assert (sort.pairwise (sort.decides lt (fun x y => lt x y = true)) l) as Hdec.
  { eapply pairwise_impl; [|exact Hties]. intros x y Hxy _. split; [done|exact Hxy]. }
  destruct (sorted_then_inverted algorithm algorithm_sorts lt
              (fun x y => lt x y = true) l Hdec) as (up & Hup & Hp & Sup & _).
  exists up. split; [done|]. split; [done|]. split; [done|].
  destruct (sort.sorts_permutes _ algorithm_sorts A (inverted true lt) l)
    as (down & Hdown & Hp').
  rewrite Hdown. f_equal.
  assert (StronglySorted (flip (fun x y => lt x y = true)) down) as Sdown.
  { eapply (sort.sorts_sorted _ algorithm_sorts); [apply _| |exact Hdown].
    eapply pairwise_impl; [|exact Hdec].
    intros x y [Hxy Htot] [Hyx _]. unfold inverted, flip, sort.decides.
    rewrite negb_true_iff. split; [|tauto]. split.
    - intros Hf. destruct Htot as [HR|]; [congruence|done].
    - intros HR. destruct (lt x y) eqn:E; [|done].
      destruct (irreflexivity (fun x y => lt x y = true) x).
      by apply (transitivity (R := fun x y => lt x y = true) E HR). }
  eapply (StronglySorted_unique_strong (flip (fun x y => lt x y = true)));
    [|exact Sdown| |].
  - intros x y _ _ Hxy Hyx. unfold flip in *.
    destruct (irreflexivity (fun x y => lt x y = true) x).
    by apply (transitivity (R := fun x y => lt x y = true) Hyx Hxy).
  - by apply StronglySorted_rev_flip.
  - rewrite Hp', <- Hp. apply Permutation_rev.
Qed.

End SortAndInvert.

Section ListCommandMore.

Variable algorithm : nat → sort.steps.
Hypothesis algorithm_sorts : sort.Sorts algorithm.
Variable uuid_Parse : string → result uuid.UUID.
Variable newSubcommandContext : cli.Context → result subcommandContext.

Local Abbreviation list_ := (listCommand algorithm uuid_Parse newSubcommandContext).

(** X10: once the subcommand context is set up, a value of [--id]
    that is not a UUID stops [listCommand] before it lists: it returns
    the error of the parser under the message "<id> is not a valid
    tunnel ID", whatever the other flags, and makes no listing call,
    prints nothing and writes no [sc.log.Error()] line.  All it has
    done besides is the update check: it was started, and the deferred
    call logs its warning, if there is one, at the return. *)
Theorem listCommand_invalid_id (c : cli.Context) (sc : subcommandContext) (e : error) :
  newSubcommandContext c = Ok sc →
  cli.String_ c "id" ≠ "" →
  uuid_Parse (cli.String_ c "id") = Err e →
  list_ c
  = Some (mkOutcome None [] None
            (Some (withMessage e (cli.String_ c "id" +:+ " is not a valid tunnel ID")))) ∧
  updateCheck newSubcommandContext c = [WarningCheckStarted; WarningLogged].
Proof.
  intros Hsc Hid Hparse. unfold listCommand, listCommand_filter, updateCheck.
  rewrite Hsc, (proj2 (String.eqb_neq _ _) Hid), Hparse. split; reflexivity.
Qed.


End ListCommandMore.

Lemma listCommand_invalid_id_witness :
  listCommand sort.shortSlice (fun _ => Err invalidUUID) (fun _ => Ok myTunnelContext)
    (listContext (mkListOptions "" false "" None "not-a-uuid" false "name" false))
  = Some (mkOutcome None [] None
            (Some (withMessage invalidUUID "not-a-uuid is not a valid tunnel ID"))) ∧
  updateCheck (fun _ => Ok myTunnelContext)
    (listContext (mkListOptions "" false "" None "not-a-uuid" false "name" false))
  = [WarningCheckStarted; WarningLogged].
Proof.
  apply (listCommand_invalid_id sort.shortSlice (fun _ => Err invalidUUID)
           (fun _ => Ok myTunnelContext)
           (listContext (mkListOptions "" false "" None "not-a-uuid" false "name" false))
           myTunnelContext invalidUUID); [reflexivity|discriminate|reflexivity].
Defined.


Section TunnelInfoMore.

Variable algorithm : nat → sort.steps.
Hypothesis algorithm_sorts : sort.Sorts algorithm.
Variable newSubcommandContext : cli.Context → result subcommandContext.

Local Abbreviation info := (tunnelInfo algorithm newSubcommandContext).

(** X12: [getTunnel] asks for the tunnels of the given ID and of no
    other restriction, deleted ones included, and returns a tunnel
    exactly when the answer holds one tunnel, that tunnel.  On an
    answer of no tunnel or of several it fails with "Expected to find a
    single tunnel with uuid <id> but found <n> tunnels."; an error of
    the listing call is passed on as it is. *)
Theorem getTunnel_single (sc : subcommandContext) (tunnelID : uuid.UUID) :
  (getTunnel sc tunnelID).1 = tunnelstore.mkFilter false None None (Some tunnelID) ∧
  (∀ tunnel, (getTunnel sc tunnelID).2 = Ok tunnel ↔
             sc_list sc (getTunnel sc tunnelID).1 = Ok [tunnel]) ∧
  (∀ ts, sc_list sc (getTunnel sc tunnelID).1 = Ok ts → length ts ≠ 1%nat →
         (getTunnel sc tunnelID).2
         = Err (errorString
                  ("Expected to find a single tunnel with uuid " +:+ uuid.String_ tunnelID +:+
                   " but found " +:+ fmt.itoa (Z.of_nat (length ts)) +:+ " tunnels."))) ∧
  (∀ e, sc_list sc (getTunnel sc tunnelID).1 = Err e → (getTunnel sc tunnelID).2 = Err e).
Proof.
  unfold getTunnel. cbn [fst snd]. split; [reflexivity|].
  set (filter := tunnelstore.ByTunnelID tunnelID tunnelstore.NewFilter).
  destruct (sc_list sc filter) as [[|t [|t' ts]]|e]; repeat split;
    try (intros; simplify_eq; done); try (intros ? [= <-]; cbn; done).
Qed.


(** X14: once the subcommand context is set up, [tunnelInfo] fails
    before it lists anything when it is not given exactly one argument
    (a usage error), when the tunnel cannot be resolved (the error under
    the message "error parsing tunnel ID"), when no client can be had,
    or when the connectors cannot be fetched (those errors as they
    are); in each case it makes no listing call, prints nothing and
    writes no [sc.log.Error()] line.  In each case the update check has
    been started before, the usage error included, and the deferred
    call logs its warning, if there is one, at the return. *)
Theorem tunnelInfo_fails_before_listing (c : cli.Context) (sc : subcommandContext) :
  newSubcommandContext c = Ok sc →
  updateCheck newSubcommandContext c = [WarningCheckStarted; WarningLogged] ∧
  (cli.NArg c ≠ 1%nat → info c = Some (mkOutcome None [] None (Some infoUsage))) ∧
  (cli.NArg c = 1%nat →
     (∀ e, sc_findID sc (cli.Args_First c) = Err e →
           info c = Some (mkOutcome None [] None
                            (Some (withMessage e "error parsing tunnel ID")))) ∧
     (∀ tunnelID e, sc_findID sc (cli.Args_First c) = Ok tunnelID →
           sc_client sc = Err e →
           info c = Some (mkOutcome None [] None (Some e))) ∧
     (∀ tunnelID ListActiveClients e, sc_findID sc (cli.Args_First c) = Ok tunnelID →
           sc_client sc = Ok ListActiveClients → ListActiveClients tunnelID = Err e →
           info c = Some (mkOutcome None [] None (Some e)))).
Proof.
  intros Hsc. unfold tunnelInfo, updateCheck. rewrite Hsc. split; [reflexivity|]. split.
  - intros Hn. rewrite (proj2 (Nat.eqb_neq _ _) Hn). reflexivity.
  - intros Hn. rewrite Hn. cbn [Nat.eqb negb]. repeat split.
    + by intros e ->.
    + by intros id e -> ->.
    + by intros id lac e -> -> ->.
Qed.

End TunnelInfoMore.


Lemma tunnelInfo_fails_before_listing_witness :
  updateCheck (fun _ => Ok myTunnelContext) dnsArgs = [WarningCheckStarted; WarningLogged] ∧
  tunnelInfo sort.shortSlice (fun _ => Ok myTunnelContext) dnsArgs
  = Some (mkOutcome None [] None (Some infoUsage)).
Proof.
  destruct (tunnelInfo_fails_before_listing sort.shortSlice (fun _ => Ok myTunnelContext)
              dnsArgs myTunnelContext) as (Hcheck & Husage & _); [reflexivity|].
  split; [exact Hcheck|]. apply Husage. discriminate.
Defined.

(** X15: with a valid sort key and no two elements tied under it,
    [--invert-sort] turns the order around: the tunnels of
    [listCommand], and the connectors of [tunnelInfo], come out sorted
    by the key without the flag, and with the flag in the exact reverse
    of that order, with no warning. *)
Theorem invert_sort_reverses_output (algorithm : nat → sort.steps) :
  sort.Sorts algorithm →
  (∀ c0 c1 ts,
     cli.String_ c1 "sort-by" = cli.String_ c0 "sort-by" →
     validListSortField (cli.String_ c0 "sort-by") = true →
     cli.Bool c0 "invert-sort" = false →
     cli.Bool c1 "invert-sort" = true →
     sort.pairwise
       (fun ti tj => listLess (cli.String_ c0 "sort-by") ti tj = true
                     ∨ listLess (cli.String_ c0 "sort-by") tj ti = true) ts →
     ∃ up, listCommand_sort algorithm c0 ts = Some (up, []) ∧
           up ≡ₚ ts ∧
           StronglySorted (fun ti tj => listLess (cli.String_ c0 "sort-by") ti tj = true) up ∧
           listCommand_sort algorithm c1 ts = Some (rev up, [])) ∧
  (∀ c0 c1 cs,
     cli.String_ c1 "sort-by" = cli.String_ c0 "sort-by" →
     validInfoSortField (cli.String_ c0 "sort-by") = true →
     cli.Bool c0 "invert-sort" = false →
     cli.Bool c1 "invert-sort" = true →
     sort.pairwise
       (fun ci cj => infoLess (cli.String_ c0 "sort-by") ci cj = true
                     ∨ infoLess (cli.String_ c0 "sort-by") cj ci = true) cs →
     ∃ up, tunnelInfo_sort algorithm c0 cs = Some (up, []) ∧
           up ≡ₚ cs ∧
           StronglySorted (fun ci cj => infoLess (cli.String_ c0 "sort-by") ci cj = true) up ∧
           tunnelInfo_sort algorithm c1 cs = Some (rev up, [])).
Proof.
  intros HS. split.
  - intros c0 c1 ts Hkey Hvalid H0 H1 Hties.
    set (key := cli.String_ c0 "sort-by") in *.
    destruct (inverted_sort_rev algorithm HS (listLess key) ts Hties)
      as (up & Hup & Hp & Sup & Hdown).
    exists up.
    destruct (listCommand_sort_eq algorithm HS c0 ts) as (up' & Hup' & _ & ->).
    destruct (listCommand_sort_eq algorithm HS c1 ts) as (down' & Hdown' & _ & ->).
    rewrite Hkey, H1 in Hdown'. rewrite H0 in Hup'. fold key in Hup', Hdown'.
    rewrite Hkey. fold key. rewrite Hvalid.
    change (inverted false (listLess key)) with (listLess key) in Hup'.
    rewrite Hup in Hup'. rewrite Hdown in Hdown'.
    injection Hup' as <-. injection Hdown' as <-.
    rewrite !andb_false_r. done.
  - intros c0 c1 cs Hkey Hvalid H0 H1 Hties.
    set (key := cli.String_ c0 "sort-by") in *.
    destruct (inverted_sort_rev algorithm HS (infoLess key) cs Hties)
      as (up & Hup & Hp & Sup & Hdown).
    exists up.
    destruct (tunnelInfo_sort_eq algorithm HS c0 cs) as (up' & Hup' & _ & ->).
    destruct (tunnelInfo_sort_eq algorithm HS c1 cs) as (down' & Hdown' & _ & ->).
    rewrite Hkey, H1 in Hdown'. rewrite H0 in Hup'. fold key in Hup', Hdown'.
    rewrite Hkey. fold key. rewrite Hvalid.
    change (inverted false (infoLess key)) with (infoLess key) in Hup'.
    rewrite Hup in Hup'. rewrite Hdown in Hdown'.
    injection Hup' as <-. injection Hdown' as <-.
    rewrite !andb_false_r. done.
Qed.

Lemma invert_sort_reverses_output_witness :
  listCommand_sort sort.shortSlice (listSortedBy "name" false) threeTunnels
  = Some (threeTunnels_sorted, []) ∧
  listCommand_sort sort.shortSlice (listSortedBy "name" true) threeTunnels
  = Some (rev threeTunnels_sorted, []).
Proof.
  destruct (invert_sort_reverses_output sort.shortSlice shortSlice_Sorts) as [Hlist _].
  destruct (Hlist (listSortedBy "name" false) (listSortedBy "name" true) threeTunnels)
    as (up & Hup & _ & _ & Hdown).
  - reflexivity.
  - reflexivity.
  - reflexivity.
  - reflexivity.
  - cbn. repeat split; repeat constructor;
      first [left; reflexivity | right; reflexivity].
  - assert (listCommand_sort sort.shortSlice (listSortedBy "name" false) threeTunnels
            = Some (threeTunnels_sorted, [])) as E by (vm_compute; reflexivity).
    rewrite E in Hup. injection Hup as <-. split; [exact E|exact Hdown].
Defined.

(** ** The commands that act on tunnels *)

Section TunnelCommandsProperties.

Variable newSubcommandContext : cli.Context → result (subcommandContext * subcommandMethods).
Variable config_TunnelID : string.
Variable ToASCII : string → string * option error.

Local Abbreviation create := (createCommand newSubcommandContext).
Local Abbreviation delete_ := (deleteCommand newSubcommandContext).
Local Abbreviation cleanup := (cleanupCommand newSubcommandContext).
Local Abbreviation run := (runCommand newSubcommandContext config_TunnelID).
Local Abbreviation route := (routeCommand newSubcommandContext ToASCII).

(** X16: a command that is given the wrong number of arguments makes no
    call and logs nothing; it returns its usage error.  [create] wants
    exactly one argument, [delete] and [cleanup] at least one, [run] at
    most one, [route] at least two.  [cleanup] and [route] say so
    before they set up the subcommand context. *)
Theorem wrong_argument_count_makes_no_call (c : cli.Context) :
  (cli.NArg c ≠ 1%nat → (∃ sc, newSubcommandContext c = Ok sc) →
     create c = ([], Some createUsage)) ∧
  (cli.NArg c = 0%nat → (∃ sc, newSubcommandContext c = Ok sc) →
     delete_ c = ([], Some deleteUsage)) ∧
  ((1 < cli.NArg c)%nat → (∃ sc, newSubcommandContext c = Ok sc) →
     run c = ([], Some runUsage_many)) ∧
  (cli.NArg c = 0%nat → cleanup c = ([], Some cleanupUsage)) ∧
  ((cli.NArg c < 2)%nat → route c = ([], Some routeUsage)).
Proof.
  repeat split.
  - intros Hn [[sc m] Hsc]. unfold createCommand. rewrite Hsc.
    by rewrite (proj2 (Nat.eqb_neq _ _) Hn).
  - intros Hn [[sc m] Hsc]. unfold deleteCommand. by rewrite Hsc, Hn.
  - intros Hn [sc Hsc]. unfold runCommand. rewrite Hsc.
    by rewrite (proj2 (Nat.ltb_lt _ _) Hn).
  - intros Hn. unfold cleanupCommand. by rewrite Hn.
  - intros Hn. unfold routeCommand. by rewrite (proj2 (Nat.ltb_lt _ _) Hn).
Qed.

(** X17: when the subcommand context cannot be set up, no command makes
    a call.  [create] returns the error under the message "error
    setting up logger"; [delete] and [run] return it as it is, whatever
    their arguments; [cleanup] and [route], which check their arguments
    first, return it only when the arguments are enough, and their
    usage error otherwise. *)
Theorem context_failure_makes_no_call (c : cli.Context) (e : error) :
  newSubcommandContext c = Err e →
  create c = ([], Some (withMessage e "error setting up logger")) ∧
  delete_ c = ([], Some e) ∧
  run c = ([], Some e) ∧
  cleanup c = ([], Some (if (cli.NArg c <? 1)%nat then cleanupUsage else e)) ∧
  route c = ([], Some (if (cli.NArg c <? 2)%nat then routeUsage else e)).
Proof.
  intros Hsc. unfold createCommand, deleteCommand, runCommand, cleanupCommand, routeCommand.
  rewrite Hsc. repeat split; try reflexivity.
  - by destruct (cli.NArg c <? 1)%nat.
  - by destruct (cli.NArg c <? 2)%nat.
Qed.

(** X18: [createCommand] creates only the tunnel it was asked for: a
    call of [sc.create] is made only when there is exactly one
    argument, with that argument as the name and the value of
    [--credentials-file] as the path, between the start of the update
    check and the logging of its warning.  The command returns nil when
    the creation succeeds and its error under the message "failed to
    create tunnel" when it fails. *)
Theorem createCommand_creates_named (c : cli.Context) :
  (∀ name path, CreateCall name path ∈ (create c).1 →
     cli.args c = [name] ∧ path = cli.String_ c "credentials-file" ∧
     ∃ sc m, newSubcommandContext c = Ok (sc, m) ∧
             (create c).2 = errors.Wrap (err_of (sc_create m name path)) "failed to create tunnel") ∧
  (∀ name sc m, cli.args c = [name] → newSubcommandContext c = Ok (sc, m) →
     (create c).1
     = [WarningCheckStarted; CreateCall name (cli.String_ c "credentials-file"); WarningLogged] ∧
     (∀ t, sc_create m name (cli.String_ c "credentials-file") = Ok t → (create c).2 = None) ∧
     (∀ e, sc_create m name (cli.String_ c "credentials-file") = Err e →
           (create c).2 = Some (withMessage e "failed to create tunnel"))).
Proof.
  split.
  - intros name path. unfold createCommand.
    destruct (newSubcommandContext c) as [[sc m]|e]; [|by intros ?%elem_of_nil].
    unfold cli.NArg, cli.Args_First, cli.Args_Get.
    destruct (cli.args c) as [|a [|b rest]]; cbn;
      [by intros ?%elem_of_nil| |by intros ?%elem_of_nil].
    intros H. elem_cases H; try done.
    injection H as -> ->. split; [done|]. split; [done|]. by exists sc, m.
  - intros name sc m Hargs Hsc. unfold createCommand, cli.NArg, cli.Args_First, cli.Args_Get.
    rewrite Hsc, Hargs. unfold CredFileFlag. cbn. split; [done|]. split; by intros ? ->.
Qed.

(** X19: [deleteCommand] and [cleanupCommand] resolve all their
    arguments before they act.  A deletion, or a cleanup, is called
    only with the IDs that [sc.findIDs] returned for the whole list of
    arguments, and the command returns what that call returns; when the
    arguments do not all resolve, the error of [sc.findIDs] is returned
    and nothing is deleted or cleaned up. *)
Theorem delete_and_cleanup_resolve_first (c : cli.Context) :
  (∀ tunnelIDs, DeleteCall tunnelIDs ∈ (delete_ c).1 →
     cli.args c ≠ [] ∧
     ∃ sc m, newSubcommandContext c = Ok (sc, m) ∧
             sc_findIDs m (cli.args c) = Ok tunnelIDs ∧
             (delete_ c).2 = sc_delete m tunnelIDs) ∧
  (∀ tunnelIDs, CleanupCall tunnelIDs ∈ (cleanup c).1 →
     cli.args c ≠ [] ∧
     ∃ sc m, newSubcommandContext c = Ok (sc, m) ∧
             sc_findIDs m (cli.args c) = Ok tunnelIDs ∧
             (cleanup c).2 = sc_cleanupConnections m tunnelIDs) ∧
  (∀ sc m e, newSubcommandContext c = Ok (sc, m) → cli.args c ≠ [] →
     sc_findIDs m (cli.args c) = Err e →
     delete_ c = ([WarningCheckStarted; FindIDsCall (cli.args c); WarningLogged], Some e) ∧
     cleanup c = ([FindIDsCall (cli.args c)], Some e)) ∧
  (∀ sc m tunnelIDs, newSubcommandContext c = Ok (sc, m) → cli.args c ≠ [] →
     sc_findIDs m (cli.args c) = Ok tunnelIDs →
     delete_ c = ([WarningCheckStarted; FindIDsCall (cli.args c); DeleteCall tunnelIDs;
                   WarningLogged], sc_delete m tunnelIDs) ∧
     cleanup c = ([FindIDsCall (cli.args c); CleanupCall tunnelIDs],
                  sc_cleanupConnections m tunnelIDs)).
Proof.
  assert (∀ l : list string, l ≠ [] → (length l <? 1)%nat = false) as Hlen.
  { intros [|? ?] ?; [done|reflexivity]. }
  split; [|split; [|split]].
  - intros ids. unfold deleteCommand, cli.NArg.
    destruct (newSubcommandContext c) as [[sc m]|e]; [|by intros ?%elem_of_nil].
    destruct (cli.args c) as [|a rest] eqn:Ea; cbn; [by intros ?%elem_of_nil|].
    destruct (sc_findIDs m (a :: rest)) as [ids'|e] eqn:Ef; cbn;
      intros H; elem_cases H; try done.
    injection H as ->. split; [done|]. by exists sc, m.
  - intros ids. unfold cleanupCommand, cli.NArg.
    destruct (cli.args c) as [|a rest] eqn:Ea; cbn; [by intros ?%elem_of_nil|].
    destruct (newSubcommandContext c) as [[sc m]|e]; [|by intros ?%elem_of_nil].
    destruct (sc_findIDs m (a :: rest)) as [ids'|e] eqn:Ef; cbn;
      intros H; elem_cases H; try done.
    injection H as ->. split; [done|]. by exists sc, m.
  - intros sc m e Hsc Ha Hf. unfold deleteCommand, cleanupCommand, cli.NArg.
    by rewrite Hsc, (Hlen _ Ha), Hf.
  - intros sc m ids Hsc Ha Hf. unfold deleteCommand, cleanupCommand, cli.NArg.
    by rewrite Hsc, (Hlen _ Ha), Hf.
Qed.

Lemma runCommand_eq (c : cli.Context) (sc : subcommandContext * subcommandMethods) :
  newSubcommandContext c = Ok sc → (cli.NArg c ≤ 1)%nat →
  run c
  = if String.eqb (chosenTunnelRef c config_TunnelID) "" then ([], Some runUsage_none)
    else ((if String.eqb (cli.String_ c "hostname") "" then [] else [LogWarn hostnameWarning])
          ++ (runNamedTunnel sc (chosenTunnelRef c config_TunnelID)).1,
          (runNamedTunnel sc (chosenTunnelRef c config_TunnelID)).2).
Proof.
  intros Hsc Hn. unfold runCommand, chosenTunnelRef. rewrite Hsc.
  rewrite (proj2 (Nat.ltb_ge _ _) Hn).
  destruct (String.eqb (cli.Args_First c) "") eqn:E1.
  - destruct (String.eqb config_TunnelID ""); [reflexivity|].
    destruct (runNamedTunnel sc config_TunnelID).
    by destruct (String.eqb (cli.String_ c "hostname") "").
  - rewrite E1. destruct (runNamedTunnel sc (cli.Args_First c)).
    by destruct (String.eqb (cli.String_ c "hostname") "").
Qed.

(** X20: the tunnel that [runCommand] runs is the one of its argument
    when that is not empty, and otherwise the one of the configuration
    file; an empty argument counts as none.  With neither, the command
    returns a usage error and looks nothing up.  With one, that
    reference is the only one it resolves; a [hostname] in the
    configuration adds a warning and changes nothing else. *)
Theorem runCommand_tunnel_reference (c : cli.Context)
    (sc : subcommandContext * subcommandMethods) :
  newSubcommandContext c = Ok sc → (cli.NArg c ≤ 1)%nat →
  let tunnelRef := chosenTunnelRef c config_TunnelID in
  (tunnelRef = "" → run c = ([], Some runUsage_none)) ∧
  (tunnelRef ≠ "" →
     FindIDCall tunnelRef ∈ (run c).1 ∧
     (∀ input, FindIDCall input ∈ (run c).1 → input = tunnelRef) ∧
     (LogWarn hostnameWarning ∈ (run c).1 ↔ cli.String_ c "hostname" ≠ "") ∧
     (run c).2 = (runNamedTunnel sc tunnelRef).2).
Proof.
  clear ToASCII.
  intros Hsc Hn tunnelRef. rewrite (runCommand_eq c sc Hsc Hn). fold tunnelRef. split.
  - intros ->. reflexivity.
  - intros Hne. rewrite (proj2 (String.eqb_neq _ _) Hne). cbn [fst snd].
    unfold runNamedTunnel.
    destruct (String.eqb_spec (cli.String_ c "hostname") "") as [Eh|Eh];
      destruct (sc_findID sc.1 tunnelRef); cbn [fst snd app];
      rewrite ?elem_of_cons, ?elem_of_nil;
      (split; [tauto|]); (split; [|split; [|reflexivity]]);
      try (intros input H; elem_cases H; by simplify_eq);
      split; intros H;
      repeat match goal with H : _ ∨ _ |- _ => destruct H as [H|H] end;
      try done; tauto.
Qed.

(** X21: [runCommand] runs only what [sc.findID] returned: a tunnel is
    run only when the context was set up, there is at most one
    argument and the chosen reference resolves, with the ID it resolves
    to, and the command returns what [sc.run] returns.  When the
    reference does not resolve, nothing is run and the error is
    returned under the message "error parsing tunnel ID". *)
Theorem runCommand_runs_what_findID_returns (c : cli.Context) :
  (∀ tunnelID, RunCall tunnelID ∈ (run c).1 →
     ∃ sc, newSubcommandContext c = Ok sc ∧ (cli.NArg c ≤ 1)%nat ∧
           chosenTunnelRef c config_TunnelID ≠ "" ∧
           sc_findID sc.1 (chosenTunnelRef c config_TunnelID) = Ok tunnelID ∧
           (run c).2 = sc_run sc.2 tunnelID) ∧
  (∀ sc e, newSubcommandContext c = Ok sc → (cli.NArg c ≤ 1)%nat →
     chosenTunnelRef c config_TunnelID ≠ "" →
     sc_findID sc.1 (chosenTunnelRef c config_TunnelID) = Err e →
     (run c).2 = Some (withMessage e "error parsing tunnel ID") ∧
     ∀ tunnelID, RunCall tunnelID ∉ (run c).1).
Proof.
  split.
  - intros tunnelID.
    destruct (newSubcommandContext c) as [sc|e] eqn:Hsc.
    2:{ unfold runCommand. rewrite Hsc. by intros ?%elem_of_nil. }
    destruct (Nat.le_gt_cases (cli.NArg c) 1) as [Hn|Hn].
    2:{ unfold runCommand. rewrite Hsc, (proj2 (Nat.ltb_lt _ _) Hn).
        by intros ?%elem_of_nil. }
    rewrite (runCommand_eq c sc Hsc Hn).
    destruct (String.eqb_spec (chosenTunnelRef c config_TunnelID) "") as [E|E];
      [by intros ?%elem_of_nil|].
    cbn [fst snd]. unfold runNamedTunnel.
    destruct (sc_findID sc.1 (chosenTunnelRef c config_TunnelID)) as [id|e] eqn:Hid;
      destruct (String.eqb (cli.String_ c "hostname") ""); cbn [fst snd app];
      intros H; elem_cases H; try done;
      injection H as ->; by exists sc.
  - intros sc e Hsc Hn Hne Hid. rewrite (runCommand_eq c sc Hsc Hn).
    rewrite (proj2 (String.eqb_neq _ _) Hne). unfold runNamedTunnel. rewrite Hid.
    cbn [fst snd]. split; [reflexivity|].
    intros tunnelID.
    destruct (String.eqb (cli.String_ c "hostname") ""); cbn [app];
      intros H; elem_cases H; done.
Qed.

Lemma dnsRouteFromArg_Ok (c : cli.Context) (overwriteExisting : bool) (r : Route) :
  dnsRouteFromArg ToASCII c overwriteExisting = Ok r →
  cli.NArg c = 3%nat ∧ cli.Args_Get c 2 ≠ "" ∧
  validateHostname ToASCII (cli.Args_Get c 2) true = true ∧
  r = DNSRoute (cli.Args_Get c 2) overwriteExisting.
Proof.
  unfold dnsRouteFromArg.
  destruct (Nat.eqb_spec (cli.NArg c) 3) as [En|En]; cbn [negb]; [|done].
  destruct (String.eqb_spec (cli.Args_Get c 2) "") as [Eh|Eh]; [done|].
  destruct (validateHostname ToASCII (cli.Args_Get c 2) true); cbn [negb]; [|done].
  by intros [= <-].
Qed.

Lemma lbRouteFromArg_Ok (c : cli.Context) (r : Route) :
  lbRouteFromArg ToASCII c = Ok r →
  cli.NArg c = 4%nat ∧ cli.Args_Get c 2 ≠ "" ∧
  validateHostname ToASCII (cli.Args_Get c 2) true = true ∧
  cli.Args_Get c 3 ≠ "" ∧ validateName (cli.Args_Get c 3) false = true ∧
  r = LBRoute (cli.Args_Get c 2) (cli.Args_Get c 3).
Proof.
  unfold lbRouteFromArg.
  destruct (Nat.eqb_spec (cli.NArg c) 4) as [En|En]; cbn [negb]; [|done].
  destruct (String.eqb_spec (cli.Args_Get c 2) "") as [Eh|Eh]; [done|].
  destruct (validateHostname ToASCII (cli.Args_Get c 2) true); cbn [negb]; [|done].
  destruct (String.eqb_spec (cli.Args_Get c 3) "") as [Ep|Ep]; [done|].
  destruct (validateName (cli.Args_Get c 3) false); cbn [negb]; [|done].
  by intros [= <-].
Qed.

(** What the switch of [routeCommand] leaves when it yields a route. *)
Lemma routeCommand_switch_Ok (c : cli.Context) (sc : subcommandContext)
    (events : list event) (tunnelID : uuid.UUID) (r : Route) :
  routeCommand_switch ToASCII c sc = (events, Ok (tunnelID, r)) →
  events = [FindIDCall (cli.Args_Get c 1)] ∧
  sc_findID sc (cli.Args_Get c 1) = Ok tunnelID ∧
  (cli.Args_First c = "dns" ∧ dnsRouteFromArg ToASCII c (cli.Bool c "overwrite-dns") = Ok r ∨
   cli.Args_First c = "lb" ∧ lbRouteFromArg ToASCII c = Ok r).
Proof.
  unfold routeCommand_switch, overwriteDNSFlagName.
  destruct (String.eqb_spec (cli.Args_First c) "dns") as [Ed|Ed].
  - destruct (sc_findID sc (cli.Args_Get c 1)) as [id|e]; [|done].
    destruct (dnsRouteFromArg ToASCII c (cli.Bool c "overwrite-dns")) as [r'|e]; [|done].
    intros [= <- <- <-]. auto.
  - destruct (String.eqb_spec (cli.Args_First c) "lb") as [El|El]; [|done].
    destruct (sc_findID sc (cli.Args_Get c 1)) as [id|e]; [|done].
    destruct (lbRouteFromArg ToASCII c) as [r'|e]; [|done].
    intros [= <- <- <-]. auto.
Qed.

Lemma routeCommand_switch_events (c : cli.Context) (sc : subcommandContext) :
  ∀ tunnelID r, RouteCall tunnelID r ∉ (routeCommand_switch ToASCII c sc).1.
Proof.
  intros tunnelID r. unfold routeCommand_switch.
  repeat match goal with
         | |- context [if ?b then _ else _] => destruct b
         | |- context [match ?x with Ok _ => _ | Err _ => _ end] => destruct x
         end; cbn; intros H; elem_cases H; done.
Qed.

(** X22: [routeCommand] sends only validated routes: a call of
    [sc.route] is made only for the tunnel that the second argument
    resolves to, and only with a DNS route of exactly three arguments
    whose hostname passes [validateHostname] (with the value of
    [--overwrite-dns]), or a load-balancer route of exactly four whose
    name passes [validateHostname] and whose pool passes
    [validateName].  The hostname is sent as it was typed. *)
Theorem routeCommand_routes_only_validated (c : cli.Context)
    (tunnelID : uuid.UUID) (r : Route) :
  RouteCall tunnelID r ∈ (route c).1 →
  (∃ sc m, newSubcommandContext c = Ok (sc, m) ∧
           sc_findID sc (cli.Args_Get c 1) = Ok tunnelID) ∧
  (cli.Args_First c = "dns" ∧ cli.NArg c = 3%nat ∧
   r = DNSRoute (cli.Args_Get c 2) (cli.Bool c "overwrite-dns") ∧
   validateHostname ToASCII (cli.Args_Get c 2) true = true
   ∨
   cli.Args_First c = "lb" ∧ cli.NArg c = 4%nat ∧
   r = LBRoute (cli.Args_Get c 2) (cli.Args_Get c 3) ∧
   validateHostname ToASCII (cli.Args_Get c 2) true = true ∧
   validateName (cli.Args_Get c 3) false = true).
Proof.
  unfold routeCommand.
  destruct (cli.NArg c <? 2)%nat; [by intros ?%elem_of_nil|].
  destruct (newSubcommandContext c) as [[sc m]|e]; [|by intros ?%elem_of_nil].
  pose proof (routeCommand_switch_events c sc tunnelID r) as Hno.
  destruct (routeCommand_switch ToASCII c sc) as [events [[id r']|e]] eqn:Hsw;
    cbn [fst] in *; [|done].
  apply routeCommand_switch_Ok in Hsw as (-> & Hid & Hr).
  intros Hin.
  assert (RouteCall tunnelID r = RouteCall id r') as [= -> ->].
  { destruct (sc_route m id r'); cbn [fst app] in Hin; elem_cases Hin; done. }
  split; [by exists sc, m|].
  destruct Hr as [[Ht Hr]|[Ht Hr]].
  - left. apply dnsRouteFromArg_Ok in Hr as (? & ? & ? & ?). done.
  - right. apply lbRouteFromArg_Ok in Hr as (? & ? & ? & ? & ? & ?). done.
Qed.

(** X23: [routeCommand] looks at the route type, then resolves the
    tunnel, then reads the route.  A type other than "dns" and "lb", in
    exactly that spelling, is a usage error that names it, with no
    call made.  For the two types a tunnel that does not resolve is
    reported before anything wrong with the other arguments; then the
    error of the route builder is returned, so "dns" with two arguments
    passes the first check and fails only after the lookup; and with a
    route built the command returns the error of [sc.route], or logs
    its summary under the tunnel ID and returns nil. *)
Theorem routeCommand_resolves_tunnel_first (c : cli.Context)
    (sc : subcommandContext) (m : subcommandMethods) :
  newSubcommandContext c = Ok (sc, m) → (2 ≤ cli.NArg c)%nat →
  (cli.Args_First c ≠ "dns" → cli.Args_First c ≠ "lb" →
     route c
     = ([], Some (usageError
                    (cli.Args_First c +:+
                     " is not a recognized route type. Supported route types are dns and lb")))) ∧
  (cli.Args_First c = "dns" ∨ cli.Args_First c = "lb" →
     (∀ e, sc_findID sc (cli.Args_Get c 1) = Err e →
           route c = ([FindIDCall (cli.Args_Get c 1)], Some e)) ∧
     (∀ tunnelID e,
        sc_findID sc (cli.Args_Get c 1) = Ok tunnelID →
        (if String.eqb (cli.Args_First c) "dns"
         then dnsRouteFromArg ToASCII c (cli.Bool c "overwrite-dns")
         else lbRouteFromArg ToASCII c) = Err e →
        route c = ([FindIDCall (cli.Args_Get c 1)], Some e)) ∧
     (∀ tunnelID r,
        sc_findID sc (cli.Args_Get c 1) = Ok tunnelID →
        (if String.eqb (cli.Args_First c) "dns"
         then dnsRouteFromArg ToASCII c (cli.Bool c "overwrite-dns")
         else lbRouteFromArg ToASCII c) = Ok r →
        route c
        = match sc_route m tunnelID r with
          | Err e => ([FindIDCall (cli.Args_Get c 1); RouteCall tunnelID r], Some e)
          | Ok successSummary =>
              ([FindIDCall (cli.Args_Get c 1); RouteCall tunnelID r;
                LogInfo (uuid.String_ tunnelID) successSummary], None)
          end)).
Proof.
  intros Hsc Hn. unfold routeCommand.
  rewrite (proj2 (Nat.ltb_ge _ _) Hn), Hsc.
  unfold routeCommand_switch, overwriteDNSFlagName. split.
  - intros Hd Hl.
    rewrite (proj2 (String.eqb_neq _ _) Hd), (proj2 (String.eqb_neq _ _) Hl).
    reflexivity.
  - intros Ht.
    assert ((if String.eqb (cli.Args_First c) "dns" then true
             else String.eqb (cli.Args_First c) "lb") = true) as Hb.
    { destruct Ht as [-> | ->]; reflexivity. }
    split; [|split].
    + intros e He. rewrite He.
      destruct (String.eqb (cli.Args_First c) "dns"); [done|]. by rewrite Hb.
    + intros id e Hid Hr. rewrite Hid.
      destruct (String.eqb (cli.Args_First c) "dns"); [by rewrite Hr|].
      by rewrite Hb, Hr.
    + intros id r Hid Hr. rewrite Hid.
      destruct (String.eqb (cli.Args_First c) "dns"); [|rewrite Hb]; rewrite Hr;
        by destruct (sc_route m id r).
Qed.

End TunnelCommandsProperties.

Lemma wrong_argument_count_makes_no_call_witness :
  createCommand loggedIn dnsArgs = ([], Some createUsage) ∧
  deleteCommand loggedIn (cli.mkContext ∅ []) = ([], Some deleteUsage) ∧
  runCommand loggedIn "my-tunnel" dnsArgs = ([], Some runUsage_many) ∧
  cleanupCommand loggedOut (cli.mkContext ∅ []) = ([], Some cleanupUsage) ∧
  routeCommand loggedOut asciiOnly_ToASCII (cli.mkContext ∅ ["dns"]) = ([], Some routeUsage).
Proof.
  split; [|split; [|split; [|split]]].
  - destruct (wrong_argument_count_makes_no_call loggedIn "my-tunnel" asciiOnly_ToASCII dnsArgs)
      as (H & _). apply H; [discriminate|by eexists].
  - destruct (wrong_argument_count_makes_no_call loggedIn "my-tunnel" asciiOnly_ToASCII
                (cli.mkContext ∅ [])) as (_ & H & _). apply H; [reflexivity|by eexists].
  - destruct (wrong_argument_count_makes_no_call loggedIn "my-tunnel" asciiOnly_ToASCII dnsArgs)
      as (_ & _ & H & _). apply H; [cbn; lia|by eexists].
  - destruct (wrong_argument_count_makes_no_call loggedOut "my-tunnel" asciiOnly_ToASCII
                (cli.mkContext ∅ [])) as (_ & _ & _ & H & _). apply H. reflexivity.
  - destruct (wrong_argument_count_makes_no_call loggedOut "my-tunnel" asciiOnly_ToASCII
                (cli.mkContext ∅ ["dns"])) as (_ & _ & _ & _ & H). apply H. cbn. lia.
Defined.

Lemma createCommand_creates_named_witness :
  (createCommand loggedIn (cli.mkContext ∅ ["my-tunnel"])).1
  = [WarningCheckStarted; CreateCall "my-tunnel" ""; WarningLogged] ∧
  (createCommand loggedIn (cli.mkContext ∅ ["my-tunnel"])).2 = None.
Proof.
  destruct (createCommand_creates_named loggedIn (cli.mkContext ∅ ["my-tunnel"])) as [_ H].
  destruct (H "my-tunnel" myTunnelContext myTunnelMethods) as (Hevents & Hok & _);
    [reflexivity|reflexivity|].
  split; [exact Hevents|]. by apply (Hok (tunnelNamed 2 "my-tunnel")).
Defined.

Lemma delete_and_cleanup_resolve_first_witness :
  deleteCommand loggedIn (cli.mkContext ∅ ["my-tunnel"; "other"])
  = ([WarningCheckStarted; FindIDsCall ["my-tunnel"; "other"]; WarningLogged], Some notFound) ∧
  cleanupCommand loggedIn (cli.mkContext ∅ ["my-tunnel"; "other"])
  = ([FindIDsCall ["my-tunnel"; "other"]], Some notFound).
Proof.
  destruct (delete_and_cleanup_resolve_first loggedIn (cli.mkContext ∅ ["my-tunnel"; "other"]))
    as (_ & _ & H & _).
  apply (H myTunnelContext myTunnelMethods notFound); [reflexivity|discriminate|reflexivity].
Defined.

Lemma context_failure_makes_no_call_witness :
  createCommand loggedOut dnsArgs_short
  = ([], Some (withMessage noCertificate "error setting up logger")) ∧
  deleteCommand loggedOut dnsArgs_short = ([], Some noCertificate) ∧
  runCommand loggedOut "" dnsArgs_short = ([], Some noCertificate) ∧
  cleanupCommand loggedOut dnsArgs_short = ([], Some noCertificate) ∧
  routeCommand loggedOut asciiOnly_ToASCII dnsArgs_short = ([], Some noCertificate).
Proof.
  apply (context_failure_makes_no_call loggedOut "" asciiOnly_ToASCII dnsArgs_short
           noCertificate). reflexivity.
Defined.

Lemma runCommand_tunnel_reference_witness :
  FindIDCall "my-tunnel" ∈ (runCommand loggedIn "my-tunnel" (cli.mkContext ∅ [""])).1 ∧
  (∀ input, FindIDCall input ∈ (runCommand loggedIn "my-tunnel" (cli.mkContext ∅ [""])).1 →
            input = "my-tunnel") ∧
  (LogWarn hostnameWarning ∈ (runCommand loggedIn "my-tunnel" (cli.mkContext ∅ [""])).1
   ↔ cli.String_ (cli.mkContext ∅ [""]) "hostname" ≠ "") ∧
  (runCommand loggedIn "my-tunnel" (cli.mkContext ∅ [""])).2
  = (runNamedTunnel (myTunnelContext, myTunnelMethods) "my-tunnel").2.
Proof.
  destruct (runCommand_tunnel_reference loggedIn "my-tunnel" (cli.mkContext ∅ [""])
              (myTunnelContext, myTunnelMethods)) as [_ Hrun];
    [reflexivity|cbn; lia|].
  apply Hrun. discriminate.
Defined.

Lemma runCommand_runs_what_findID_returns_witness :
  ∃ sc, loggedIn (cli.mkContext ∅ ["my-tunnel"]) = Ok sc ∧
        (cli.NArg (cli.mkContext ∅ ["my-tunnel"]) ≤ 1)%nat ∧
        chosenTunnelRef (cli.mkContext ∅ ["my-tunnel"]) "" ≠ "" ∧
        sc_findID sc.1 (chosenTunnelRef (cli.mkContext ∅ ["my-tunnel"]) "") = Ok 1%N ∧
        (runCommand loggedIn "" (cli.mkContext ∅ ["my-tunnel"])).2 = sc_run sc.2 1%N.
Proof.
  destruct (runCommand_runs_what_findID_returns loggedIn "" (cli.mkContext ∅ ["my-tunnel"]))
    as [Hrun _].
  apply (Hrun 1%N). by apply (list_elem_of_lookup_2 _ 2).
Defined.

Lemma routeCommand_routes_only_validated_witness :
  (∃ sc m, loggedIn dnsArgs = Ok (sc, m) ∧ sc_findID sc (cli.Args_Get dnsArgs 1) = Ok 1%N) ∧
  (cli.Args_First dnsArgs = "dns" ∧ cli.NArg dnsArgs = 3%nat ∧
   DNSRoute "app.example.com" false
   = DNSRoute (cli.Args_Get dnsArgs 2) (cli.Bool dnsArgs "overwrite-dns") ∧
   validateHostname asciiOnly_ToASCII (cli.Args_Get dnsArgs 2) true = true
   ∨
   cli.Args_First dnsArgs = "lb" ∧ cli.NArg dnsArgs = 4%nat ∧
   DNSRoute "app.example.com" false
   = LBRoute (cli.Args_Get dnsArgs 2) (cli.Args_Get dnsArgs 3) ∧
   validateHostname asciiOnly_ToASCII (cli.Args_Get dnsArgs 2) true = true ∧
   validateName (cli.Args_Get dnsArgs 3) false = true).
Proof.
  apply (routeCommand_routes_only_validated loggedIn asciiOnly_ToASCII dnsArgs 1%N
           (DNSRoute "app.example.com" false)).
  by apply (list_elem_of_lookup_2 _ 1).
Defined.

Lemma routeCommand_resolves_tunnel_first_witness :
  routeCommand loggedIn asciiOnly_ToASCII dnsArgs_short
  = ([FindIDCall "my-tunnel"], Some (usageError "Expected 3 arguments, got 2")) ∧
  routeCommand loggedIn asciiOnly_ToASCII (cli.mkContext ∅ ["DNS"; "my-tunnel"; "app.example.com"])
  = ([], Some (usageError
                 "DNS is not a recognized route type. Supported route types are dns and lb")).
Proof.
  split.
  - destruct (routeCommand_resolves_tunnel_first loggedIn asciiOnly_ToASCII dnsArgs_short
                myTunnelContext myTunnelMethods) as [_ Hdns]; [reflexivity|cbn; lia|].
    destruct Hdns as (_ & Hbuilder & _); [by left|].
    apply (Hbuilder 1%N); reflexivity.
  - destruct (routeCommand_resolves_tunnel_first loggedIn asciiOnly_ToASCII
                (cli.mkContext ∅ ["DNS"; "my-tunnel"; "app.example.com"])
                myTunnelContext myTunnelMethods) as [Hother _]; [reflexivity|cbn; lia|].
    apply Hother; discriminate.
Defined.

(** ** The path of the credentials file *)

Section CleanLoop.

Import filepath.

Lemma copyElement_boundary (name d out : list ascii) :
  ∃ d' taken,
    copyElement (d ++ Separator :: name) out = (d' ++ Separator :: name, rev taken ++ out) ∧
    d = taken ++ d'.
Proof.
  revert out. induction d as [|c d IH]; intros out.
  - exists [], []. by split.
  - cbn [app copyElement]. destruct (IsPathSeparator c) eqn:Ec.
    + exists (c :: d), []. by split.
    + destruct (IH (c :: out)) as (d' & taken & -> & ->).
      exists d', (c :: taken). cbn [rev]. rewrite <- app_assoc. by split.
Qed.

Lemma copyElement_all (name out : list ascii) :
  Forall (fun c => IsPathSeparator c = false) name →
  copyElement name out = ([], rev name ++ out).
Proof.
  revert out. induction name as [|c name IH]; intros out Hname; [reflexivity|].
  apply Forall_cons in Hname as [Hc Hname]. cbn [copyElement]. rewrite Hc, IH by done.
  cbn [rev]. by rewrite <- app_assoc.
Qed.

(** Backtracking leaves an end of the buffer and never goes below [dotdot]. *)
Lemma backtrack_suffix (dotdot : nat) (dropped : ascii) (out : list ascii) :
  ∃ gone, out = gone ++ backtrack dotdot dropped out ∧
          ((dotdot ≤ length out)%nat → (dotdot ≤ length (backtrack dotdot dropped out))%nat).
Proof.
  revert dropped. induction out as [|c out IH]; intros dropped.
  - exists []. by split.
  - cbn [backtrack].
    destruct (Nat.ltb_spec dotdot (length (c :: out))) as [Hlt|Hge]; cbn [andb].
    + destruct (negb (IsPathSeparator dropped)).
      * destruct (IH c) as (gone & Hgone & Hlen). exists (c :: gone). split.
        -- cbn. by rewrite <- Hgone.
        -- intros _. apply Hlen. cbn in Hlt. lia.
      * exists []. by split.
    + exists []. by split.
Qed.

Lemma last_app_nonempty (l out : list ascii) :
  out ≠ [] → last (l ++ out) = last out.
Proof.
  intros Hout. destruct out as [|x out] using rev_ind; [done|].
  by rewrite app_assoc, !last_snoc.
Qed.

Lemma last_Some_nonempty (out : list ascii) (c : ascii) : last out = Some c → out ≠ [].
Proof. by destruct out. Qed.

(** One turn in the directory part of [d/name] stays in that part, and
    puts into the buffer only bytes of the path, separators and dots. *)
Lemma cleanStep_boundary (P : ascii → bool) (rooted : bool) (name : list ascii)
    (c : ascii) (d out : list ascii) (dotdot : nat) :
  P Separator = true → P "."%char = true →
  kept rooted out dotdot → forallb P (c :: d) = true → forallb P out = true →
  ∃ d' out' dotdot',
    cleanStep rooted c (d ++ Separator :: name) out dotdot
    = (d' ++ Separator :: name, out', dotdot') ∧
    (length d' ≤ length d)%nat ∧ kept rooted out' dotdot' ∧
    forallb P d' = true ∧ forallb P out' = true.
Proof.
  intros Hsep Hdot Hkept Hd Hout. unfold cleanStep.
  cbn [forallb] in Hd. apply andb_true_iff in Hd as [Hc Hd].
  assert (∃ d' out' dotdot',
            (let '(rest', out0) :=
               copyElement (c :: d ++ Separator :: name)
                 (if (rooted && negb (length out =? 1)%nat
                      || negb rooted && negb (length out =? 0)%nat)%bool
                  then Separator :: out else out) in
             (rest', out0, dotdot))
            = (d' ++ Separator :: name, out', dotdot') ∧
            (IsPathSeparator c = false → (length d' ≤ length d)%nat) ∧
            kept rooted out' dotdot' ∧
            forallb P d' = true ∧ forallb P out' = true) as Helement.
  { set (out1 := if (_ || _)%bool then _ else _).
    assert (forallb P out1 = true ∧ (rooted = true → last out1 = Some Separator))
      as [Hout1 Hlast1].
    { unfold out1. destruct (_ || _)%bool; cbn [forallb]; rewrite ?Hsep, ?Hout; split; try done.
      - intros Hr. destruct (Hkept Hr) as [Hl _]. rewrite last_cons, Hl. done.
      - intros Hr. by destruct (Hkept Hr). }
    destruct (copyElement_boundary name (c :: d) out1) as (d' & taken & Hcopy & Htaken).
    change ((c :: d) ++ Separator :: name) with (c :: d ++ Separator :: name) in Hcopy.
    rewrite Hcopy. exists d', (rev taken ++ out1), dotdot. split; [done|].
    assert (forallb P taken = true ∧ forallb P d' = true) as [Ht Hd'].
    { assert (forallb P (taken ++ d') = true) as H
        by (rewrite <- Htaken; cbn; by rewrite Hc, Hd).
      rewrite forallb_app in H. by apply andb_true_iff in H. }
    split; [|split; [|split]].
    - intros Hnotsep. destruct taken as [|t taken].
      + cbn in Htaken. subst d'. cbn [app copyElement] in Hcopy.
        rewrite Hnotsep in Hcopy.
        destruct (copyElement_boundary name d (c :: out1)) as (d2 & taken2 & Hc2 & ->).
        rewrite Hc2 in Hcopy. injection Hcopy as Heq _.
        apply (f_equal length) in Heq. cbn in Heq.
        rewrite !length_app in Heq. cbn in Heq. lia.
      + injection Htaken as _ ->. rewrite length_app. lia.
    - intros Hr. split; [|by destruct (Hkept Hr)].
      rewrite last_app_nonempty; [by apply Hlast1|].
      eapply last_Some_nonempty. by apply Hlast1.
    - done.
    - rewrite forallb_app, forallb_rev, Ht, Hout1. done. }
  destruct (IsPathSeparator c) eqn:Esep.
  { exists d, out, dotdot. split; [done|]. split; [lia|done]. }
  destruct (Ascii.eqb c "." && elementEnds (d ++ Separator :: name))%bool eqn:Edot.
  { exists d, out, dotdot. split; [done|]. split; [lia|done]. }
  destruct d as [|c' d].
  { cbn [app]. replace (Ascii.eqb c "." && Ascii.eqb Separator "." && elementEnds name)%bool
      with false by (by rewrite andb_false_r).
    destruct Helement as (d' & out' & dotdot' & E & Hlen & ?). cbn [app] in E.
    exists d', out', dotdot'. split; [exact E|]. split; [by apply Hlen|done]. }
  cbn [app].
  destruct (Ascii.eqb c "." && Ascii.eqb c' "." && elementEnds (d ++ Separator :: name))%bool
    eqn:Edotdot.
  2:{ destruct Helement as (d' & out' & dotdot' & E & Hlen & ?).
      exists d', out', dotdot'. split; [exact E|]. split; [by apply Hlen|done]. }
  cbn [forallb] in Hd. apply andb_true_iff in Hd as [Hc' Hd].
  destruct (Nat.ltb_spec dotdot (length out)) as [Hlt|Hge].
  - destruct out as [|dropped out]; [cbn in Hlt; lia|].
    destruct (backtrack_suffix dotdot dropped out) as (gone & Hgone & Hlen).
    exists d, (backtrack dotdot dropped out), dotdot.
    split; [done|]. split; [cbn; lia|]. split; [|split; [done|]].
    + intros Hr. destruct (Hkept Hr) as [Hl ->]. split; [|done].
      cbn in Hlt. specialize (Hlen ltac:(lia)).
      assert (backtrack 1 dropped out ≠ []) as Hne
        by (intros E; rewrite E in Hlen; cbn in Hlen; lia).
      rewrite last_cons in Hl.
      destruct (last out) as [x|] eqn:Elast.
      * rewrite Hgone, last_app_nonempty in Elast by done. congruence.
      * apply last_None in Elast. subst out. cbn in Hlt. lia.
    + cbn [forallb] in Hout. apply andb_true_iff in Hout as [_ Hout].
      rewrite Hgone, forallb_app in Hout. by apply andb_true_iff in Hout as [_ ?].
  - destruct rooted; cbn [negb].
    + exists d, out, dotdot. split; [done|]. split; [cbn; lia|]. done.
    + eexists d, _, _. split; [reflexivity|]. split; [cbn; lia|].
      split; [done|]. split; [done|].
      cbn [forallb]. rewrite Hdot. cbn [andb].
      destruct (0 <? length out)%nat; cbn [forallb]; by rewrite ?Hsep.
Qed.

(** The loop on [d/name] comes to [name] with the buffer in order. *)
Lemma cleanLoop_boundary (P : ascii → bool) (rooted : bool) (name : list ascii) :
  P Separator = true → P "."%char = true →
  ∀ (fuel : nat) (d out : list ascii) (dotdot : nat),
    (length d + 1 + length name ≤ fuel)%nat →
    kept rooted out dotdot → forallb P d = true → forallb P out = true →
    ∃ fuel' out' dotdot',
      cleanLoop fuel rooted (d ++ Separator :: name) out dotdot
      = cleanLoop fuel' rooted name out' dotdot' ∧
      (length name ≤ fuel')%nat ∧ kept rooted out' dotdot' ∧ forallb P out' = true.
Proof.
  intros Hsep Hdot fuel. induction fuel as [|fuel IH]; intros d out dotdot Hfuel Hkept Hd Hout.
  { lia. }
  destruct d as [|c d].
  - exists fuel, out, dotdot. split; [|split; [cbn in Hfuel; lia|done]].
    cbn [app cleanLoop]. unfold cleanStep.
    replace (IsPathSeparator Separator) with true by reflexivity. reflexivity.
  - destruct (cleanStep_boundary P rooted name c d out dotdot Hsep Hdot Hkept Hd Hout)
      as (d' & out' & dotdot' & Hstep & Hlen & Hkept' & Hd' & Hout').
    destruct (IH d' out' dotdot') as (fuel' & out2 & dotdot2 & Hloop & ?);
      [cbn in Hfuel; lia|done|done|done|].
    exists fuel', out2, dotdot2. split; [|done].
    cbn [app cleanLoop]. by rewrite Hstep.
Qed.

(** On a file name the loop has one turn, which appends the name. *)
Lemma cleanLoop_fileName (rooted : bool) (name : list ascii) (fuel : nat)
    (out : list ascii) (dotdot : nat) :
  fileNameLike name → (length name ≤ fuel)%nat →
  cleanLoop fuel rooted name out dotdot
  = rev name ++
    (if (rooted && negb (length out =? 1)%nat || negb rooted && negb (length out =? 0)%nat)%bool
     then Separator :: out else out).
Proof.
  intros Hname Hfuel. destruct name as [|c name]; [done|]. destruct Hname as [Hc Hall].
  destruct fuel as [|fuel]; [cbn in Hfuel; lia|].
  cbn [cleanLoop]. unfold cleanStep.
  pose proof Hall as Hall'. apply Forall_cons in Hall' as [Hsep _]. rewrite Hsep.
  replace (Ascii.eqb c ".") with false by (symmetry; by apply Ascii.eqb_neq).
  cbn [andb]. rewrite (copyElement_all (c :: name)) by done.
  assert (∀ l, cleanLoop fuel rooted [] l dotdot = l) as Hend by (by destruct fuel).
  destruct name; by rewrite Hend.
Qed.

End CleanLoop.

(** [Clean] of a directory and a file name: the cleaned path is the file
    name or ends in a separator and the file name, and it is made of
    bytes of the path, separators and dots. *)
Lemma Clean_fileName (P : ascii → bool) (directory name : string) :
  fileNameLike (String.list_ascii_of_string name) →
  P filepath.Separator = true → P "."%char = true →
  allChars P directory = true → allChars P name = true →
  (filepath.Clean (directory +:+ "/" +:+ name) = name
   ∨ ∃ d, filepath.Clean (directory +:+ "/" +:+ name) = d +:+ "/" +:+ name) ∧
  allChars P (filepath.Clean (directory +:+ "/" +:+ name)) = true.
Proof.
  intros Hname Hsep Hdot Hdir HPname.
  rewrite allChars_forallb in Hdir, HPname.
  set (n := String.list_ascii_of_string name) in *.
  set (dl := String.list_ascii_of_string directory) in *.
  assert (String.list_ascii_of_string (directory +:+ "/" +:+ name)
          = dl ++ filepath.Separator :: n) as Hp.
  { rewrite !list_ascii_of_string_app. reflexivity. }
  unfold filepath.Clean.
  replace (String.eqb (directory +:+ "/" +:+ name) "") with false.
  2:{ symmetry. apply String.eqb_neq. intros E. apply append_eq_empty in E as [_ E].
      discriminate. }
  rewrite Hp.
  assert (∃ rooted out dotdot,
            match dl ++ filepath.Separator :: n with
            | c :: rest =>
                if filepath.IsPathSeparator c
                then filepath.cleanLoop (length (dl ++ filepath.Separator :: n)) true rest
                       [filepath.Separator] 1
                else filepath.cleanLoop (length (dl ++ filepath.Separator :: n)) false
                       (dl ++ filepath.Separator :: n) [] 0
            | [] => []
            end
            = rev n ++
              (if (rooted && negb (length out =? 1)%nat
                   || negb rooted && negb (length out =? 0)%nat)%bool
               then filepath.Separator :: out else out) ∧
            kept rooted out dotdot ∧ forallb P out = true)
    as (rooted & out & dotdot & -> & Hkept & Hout).
  { destruct dl as [|c dl].
    - cbn [app]. replace (filepath.IsPathSeparator filepath.Separator) with true by reflexivity.
      exists true, [filepath.Separator], 1%nat.
      rewrite cleanLoop_fileName by (done || cbn; lia).
      split; [done|]. split; [by intros _|]. cbn. by rewrite Hsep.
    - cbn [app]. cbn [forallb] in Hdir. apply andb_true_iff in Hdir as [Hc Hdl].
      destruct (filepath.IsPathSeparator c) eqn:Ec.
      + destruct (cleanLoop_boundary P true n Hsep Hdot
                    (length (c :: dl ++ filepath.Separator :: n)) dl [filepath.Separator] 1)
          as (fuel' & out' & dotdot' & -> & Hfuel & Hkept & Hout);
          [cbn; rewrite length_app; cbn; lia|by intros _|done|cbn; by rewrite Hsep|].
        exists true, out', dotdot'. by rewrite cleanLoop_fileName.
      + destruct (cleanLoop_boundary P false n Hsep Hdot
                    (length (c :: dl ++ filepath.Separator :: n)) (c :: dl) [] 0)
          as (fuel' & out' & dotdot' & Hloop & Hfuel & Hkept & Hout);
          [cbn; rewrite length_app; cbn; lia|by intros ?|cbn; by rewrite Hc, Hdl|done|].
        cbn [app] in Hloop. rewrite Hloop.
        exists false, out', dotdot'. by rewrite cleanLoop_fileName. }
  assert (String.string_of_list_ascii n = name) as Hn
    by apply String.string_of_list_ascii_of_string.
  set (out1 := if (_ || _)%bool then _ else _).
  assert (rev n ++ out1 ≠ []) as Hne.
  { destruct n; [done|]. cbn [rev]. intros E. apply app_eq_nil in E as [E _].
    by apply app_eq_nil in E as [_ E]. }
  replace (match rev n ++ out1 with [] => ["."%char] | _ :: _ => rev n ++ out1 end)
    with (rev n ++ out1) by (by destruct (rev n ++ out1)).
  rewrite rev_app_distr, rev_involutive, string_of_list_ascii_app, Hn.
  split.
  - unfold out1. destruct rooted; cbn [andb orb negb].
    + destruct (Nat.eqb_spec (length out) 1) as [E1|E1]; cbn [andb orb negb].
      * right. exists "". destruct (Hkept eq_refl) as [Hl _].
        destruct out as [|x [|y out]]; try done. cbn in Hl. injection Hl as ->. reflexivity.
      * right. exists (String.string_of_list_ascii (rev out)).
        cbn [rev]. rewrite string_of_list_ascii_app. cbn.
        by rewrite append_assoc.
    + destruct (Nat.eqb_spec (length out) 0) as [E0|E0]; cbn [andb orb negb].
      * left. by destruct out.
      * right. exists (String.string_of_list_ascii (rev out)).
        cbn [rev]. rewrite string_of_list_ascii_app. cbn.
        by rewrite append_assoc.
  - rewrite allChars_app, !allChars_forallb, String.list_ascii_of_string_of_list_ascii.
    fold n. rewrite HPname, forallb_rev, andb_true_r.
    unfold out1. destruct (_ || _)%bool; cbn [forallb]; by rewrite ?Hsep, ?Hout.
Qed.

Lemma hexDigit_uuidChar (n : N) : uuidChar (uuid.hexDigit n) = true.
Proof.
  unfold uuid.hexDigit.
  assert (N.to_nat (n mod 16) < 16)%nat as Hlt.
  { pose proof (N.mod_upper_bound n 16 ltac:(done)). lia. }
  revert Hlt. generalize (N.to_nat (n mod 16)). intros k Hk.
  do 16 (destruct k as [|k]; [reflexivity|]). lia.
Qed.

Lemma hex_uuidChar (digits : nat) (n : N) : allChars uuidChar (uuid.hex digits n) = true.
Proof.
  revert n. induction digits as [|d IH]; intros n; [reflexivity|].
  cbn [uuid.hex]. rewrite allChars_app, IH. cbn. by rewrite hexDigit_uuidChar.
Qed.

Lemma uuid_String_uuidChar (u : uuid.UUID) : allChars uuidChar (uuid.String_ u) = true.
Proof.
  unfold uuid.String_. rewrite !allChars_app, !hex_uuidChar. reflexivity.
Qed.

Lemma uuid_String_nonempty (u : uuid.UUID) : uuid.String_ u ≠ "".
Proof.
  unfold uuid.String_. intros E. apply append_eq_empty in E as [_ E]. discriminate.
Qed.

Lemma credentialsFileName_head (u : uuid.UUID) :
  ∃ c s, credentialsFileName u = String c s ∧ uuidChar c = true.
Proof.
  unfold credentialsFileName. pose proof (uuid_String_uuidChar u) as Hall.
  pose proof (uuid_String_nonempty u) as Hne.
  destruct (uuid.String_ u) as [|c s]; [done|].
  exists c, (s +:+ ".json"). split; [reflexivity|].
  cbn in Hall. by apply andb_true_iff in Hall as [? _].
Qed.

Lemma credentialsFileName_chars (p : ascii → bool) (u : uuid.UUID) :
  (∀ c, uuidChar c = true → p c = true) → allChars p ".json" = true →
  allChars p (credentialsFileName u) = true.
Proof.
  intros Hp Hjson. unfold credentialsFileName. rewrite allChars_app, Hjson, andb_true_r.
  eapply allChars_impl; [exact Hp|apply uuid_String_uuidChar].
Qed.

Lemma credentialsFileName_fileNameLike (u : uuid.UUID) :
  fileNameLike (String.list_ascii_of_string (credentialsFileName u)).
Proof.
  assert (allChars (fun c => negb (filepath.IsPathSeparator c)) (credentialsFileName u) = true)
    as Hall.
  { apply credentialsFileName_chars; [|reflexivity]. intros y Hy. each_ascii_with Hy y. }
  destruct (credentialsFileName_head u) as (c & s & E & Hc). rewrite E in *.
  cbn [String.list_ascii_of_string fileNameLike]. split.
  - intros ->. discriminate.
  - rewrite allChars_forallb in Hall. cbn [String.list_ascii_of_string] in Hall.
    apply Forall_forall. intros x Hx.
    rewrite forallb_forall in Hall. apply list_elem_of_In, Hall in Hx.
    by apply negb_true_iff.
Qed.

Lemma sprintf_path (directory fileName : string) :
  fmt.Sprintf "%s/%s" [fmt.Str directory; fmt.Str fileName] = directory +:+ "/" +:+ fileName.
Proof. rewrite <- (append_empty fileName) at 2. reflexivity. Qed.

Section TunnelFilePathProperties.

Variable homedir_Dir : result string.

Lemma tunnelFilePath_eq (tunnelID : uuid.UUID) (directory : string) :
  tunnelFilePath homedir_Dir tunnelID directory
  = homedir.Expand homedir_Dir
      (filepath.Clean (directory +:+ "/" +:+ credentialsFileName tunnelID)).
Proof. unfold tunnelFilePath. by rewrite sprintf_path. Qed.

(** X24: whatever the directory, a path that [tunnelFilePath] returns
    names the file "<tunnel ID>.json": it is that name, or it ends in a
    separator followed by that name.  No directory makes it name
    another file, not one with dots or with a tilde in it. *)
Theorem tunnelFilePath_names_the_tunnel (tunnelID : uuid.UUID) (directory p : string) :
  tunnelFilePath homedir_Dir tunnelID directory = Ok p →
  p = credentialsFileName tunnelID ∨ ∃ d, p = d +:+ "/" +:+ credentialsFileName tunnelID.
Proof.
  rewrite tunnelFilePath_eq.
  pose proof (credentialsFileName_fileNameLike tunnelID) as Hname.
  assert (∀ d, filepath.Clean (d +:+ "/" +:+ credentialsFileName tunnelID)
               = credentialsFileName tunnelID
               ∨ ∃ d', filepath.Clean (d +:+ "/" +:+ credentialsFileName tunnelID)
                       = d' +:+ "/" +:+ credentialsFileName tunnelID) as Hclean.
  { assert (∀ s, allChars (fun _ => true) s = true) as Htrue
      by (intros s; induction s; done).
    intros d.
    by destruct (Clean_fileName (fun _ => true) d (credentialsFileName tunnelID)). }
  destruct (credentialsFileName_head tunnelID) as (c0 & s0 & Ehead & Hc0).
  destruct (Hclean directory) as [E|[d E]]; rewrite E.
  - rewrite Ehead. unfold homedir.Expand.
    replace (Ascii.eqb c0 "~") with false; [by intros [= <-]; left|].
    symmetry. apply Ascii.eqb_neq. intros ->. discriminate.
  - destruct d as [|c d'].
    { change ("" +:+ "/" +:+ credentialsFileName tunnelID)
        with (String "/" (credentialsFileName tunnelID)).
      cbn. intros [= <-]. right. by exists "". }
    change (String c d' +:+ "/" +:+ credentialsFileName tunnelID)
      with (String c (d' +:+ "/" +:+ credentialsFileName tunnelID)).
    unfold homedir.Expand. destruct (Ascii.eqb c "~"); cbn [negb].
    2:{ intros [= <-]. right. by exists (String c d'). }
    assert (match homedir_Dir with
            | Ok dir => Ok (filepath.Join dir (d' +:+ "/" +:+ credentialsFileName tunnelID))
            | Err err => Err err
            end = Ok p →
            p = credentialsFileName tunnelID
            ∨ ∃ d, p = d +:+ "/" +:+ credentialsFileName tunnelID) as Hjoin.
    { destruct homedir_Dir as [dir|err]; [|done]. intros [= <-]. unfold filepath.Join.
      destruct (String.eqb dir ""); cbn [negb].
      - replace (String.eqb (d' +:+ "/" +:+ credentialsFileName tunnelID) "") with false;
          [apply Hclean|].
        symmetry. apply String.eqb_neq. intros E'. apply append_eq_empty in E' as [_ E'].
        discriminate.
      - rewrite <- (append_assoc dir "/" _), <- (append_assoc _ d' _). apply Hclean. }
    destruct (d' +:+ "/" +:+ credentialsFileName tunnelID) as [|c' rest] eqn:Erest;
      [exact Hjoin|].
    destruct (negb (Ascii.eqb c' "/") && negb (Ascii.eqb c' "\"))%bool; [done|exact Hjoin].
Qed.

(** X25: for a directory without a tilde in it [tunnelFilePath] never
    fails and never asks for the home directory: it returns the cleaned
    "<directory>/<tunnel ID>.json", which has no tilde in it either. *)
Theorem tunnelFilePath_without_tilde (tunnelID : uuid.UUID) (directory : string) :
  allChars noTilde directory = true →
  tunnelFilePath homedir_Dir tunnelID directory
  = Ok (filepath.Clean (directory +:+ "/" +:+ credentialsFileName tunnelID)) ∧
  allChars noTilde (filepath.Clean (directory +:+ "/" +:+ credentialsFileName tunnelID)) = true.
Proof.
  intros Hdir. rewrite tunnelFilePath_eq.
  destruct (Clean_fileName noTilde directory (credentialsFileName tunnelID)) as [_ Hchars];
    [apply credentialsFileName_fileNameLike|done|done|done| |].
  { apply credentialsFileName_chars; [|reflexivity]. intros c Hc. each_ascii_with Hc c. }
  split; [|done].
  destruct (filepath.Clean _) as [|c rest]; [done|].
  cbn in Hchars. apply andb_true_iff in Hchars as [Hc _].
  unfold homedir.Expand. unfold noTilde in Hc. by rewrite Hc.
Qed.

End TunnelFilePathProperties.

Lemma tunnelFilePath_names_the_tunnel_witness :
  "/home/u/.cloudflared/00000000-0000-0000-0000-000000000001.json" = credentialsFileName 1%N
  ∨ ∃ d, "/home/u/.cloudflared/00000000-0000-0000-0000-000000000001.json"
         = d +:+ "/" +:+ credentialsFileName 1%N.
Proof.
  apply (tunnelFilePath_names_the_tunnel (Ok "/home/u") 1%N "~/.cloudflared").
  vm_compute. reflexivity.
Defined.

Lemma tunnelFilePath_without_tilde_witness :
  tunnelFilePath (Err noCertificate) 1%N "/etc//cloudflared/./"
  = Ok (filepath.Clean ("/etc//cloudflared/./" +:+ "/" +:+ credentialsFileName 1%N)) ∧
  allChars noTilde
    (filepath.Clean ("/etc//cloudflared/./" +:+ "/" +:+ credentialsFileName 1%N)) = true.
Proof.
  apply (tunnelFilePath_without_tilde (Err noCertificate) 1%N "/etc//cloudflared/./").
  reflexivity.
Defined.
